(** * anomaly-cli: a shallow embedding of the create-app workflow

    The development follows the TypeScript sources:
    - [src/auth/index.ts]         (modules [Auth], [RegExp], [AuthManager])
    - [src/commands/createApp.ts] (modules [Prompt], [Glob], [Progress],
                                   [CreateApp]; the earlier revision of
                                   [createZipFile] in [Earlier])
    - [src/index.ts]              (the [init] action and the process-level
                                   handler, at the end of [CreateApp]; the
                                   commands in [Process] and [Cli])
    - [src/commands/list.ts]      (module [Listing])

    JavaScript strings are modelled as Rocq strings: a character stands for
    one UTF-16 code unit below 256, and [String.length] is the [.length] of
    the source.  Effects (console, local disk, object store, HTTP) are
    explicit: a workflow is a function from a world to an outcome and a new
    world, and everything the outside decides (what the user types, whether
    an upload fails, how long the backend takes) is read from an
    environment record. *)

From Stdlib Require Import ZArith QArith Qround String Ascii List Lia Bool.
From Stdlib Require Import DecimalString Sorted OrderedTypeEx.
From stdpp Require Import gmap strings list.
Import ListNotations.

Local Open Scope string_scope.
Local Open Scope Z_scope.

Set Warnings "-register-all".

(** ** JavaScript values shared by the modules *)

Module JS.

(** An [Error] object: only [name] and [message] are ever inspected. *)
Record Error := mkError { name : string; message : string }.

(** [new Error(msg)] *)
Definition newError (msg : string) : Error := mkError "Error" msg.

(** The outcome of an awaited promise, or of a [try] block. *)
Inductive Result (A : Type) :=
| Ok (a : A)
| Throw (e : Error).
Arguments Ok {A} a.
Arguments Throw {A} e.

(** [haystack.includes(needle)] *)
Fixpoint includes (needle haystack : string) : bool :=
  String.prefix needle haystack ||
  match haystack with
  | EmptyString => false
  | String _ rest => includes needle rest
  end.

(** Truthiness of a string: only the empty string is falsy. *)
Definition truthy_string (s : string) : bool :=
  negb (String.eqb s "").

(** White space removed by [String.prototype.trim], as far as it is
    representable below code unit 256: TAB, LF, VT, FF, CR, SPACE and
    NO-BREAK SPACE. *)
Definition isWhiteSpace (c : ascii) : bool :=
  match nat_of_ascii c with
  | 9%nat | 10%nat | 11%nat | 12%nat | 13%nat | 32%nat | 160%nat => true
  | _ => false
  end.

Fixpoint trimStart (s : string) : string :=
  match s with
  | EmptyString => EmptyString
  | String c rest => if isWhiteSpace c then trimStart rest else s
  end.

Fixpoint trimEnd (s : string) : string :=
  match s with
  | EmptyString => EmptyString
  | String c rest =>
      match trimEnd rest with
      | EmptyString => if isWhiteSpace c then EmptyString else String c EmptyString
      | t => String c t
      end
  end.

(** [s.trim()] *)
Definition trim (s : string) : string := trimEnd (trimStart s).

End JS.

Import JS.

(** ** src/auth/index.ts *)

Module Auth.

(** [getAuthErrorMessage]: a [switch] over the provider's error code. *)
Definition getAuthErrorMessage (errorCode : string) : string :=
  if String.eqb errorCode "auth/user-not-found" then
    "No account found with this email address."
  else if String.eqb errorCode "auth/wrong-password" then
    "Incorrect password."
  else if String.eqb errorCode "auth/email-already-in-use" then
    "An account with this email already exists."
  else if String.eqb errorCode "auth/weak-password" then
    "Password should be at least 6 characters."
  else if String.eqb errorCode "auth/invalid-email" then
    "Invalid email address."
  else if String.eqb errorCode "auth/too-many-requests" then
    "Too many failed attempts. Please try again later."
  else
    "Authentication failed. Please try again.".

(** The codes the [switch] names. *)
Definition knownCodes : list string :=
  [ "auth/user-not-found"; "auth/wrong-password";
    "auth/email-already-in-use"; "auth/weak-password";
    "auth/invalid-email"; "auth/too-many-requests" ].

(** The messages for invalid credentials (two of them), existing account,
    weak password, invalid email and rate limiting. *)
Definition specificMessages : list string :=
  [ "No account found with this email address.";
    "Incorrect password.";
    "An account with this email already exists.";
    "Password should be at least 6 characters.";
    "Invalid email address.";
    "Too many failed attempts. Please try again later." ].

Definition genericMessage : string :=
  "Authentication failed. Please try again.".

(** [AuthUser]; the provider's [User] handle is kept as the token it
    mints (see [CreateApp.createAppInBackend]). *)
Record AuthUser := mkAuthUser {
  uid : string;
  email : option string;
  displayName : option string;
  idToken : Result string   (* what [user.getIdToken()] settles to *)
}.

(** What the provider SDK call settles to: a credential, or an error
    object of which the code is read ([error.code]).  *)
Inductive ProviderOutcome :=
| Credential (u : AuthUser)
| ProviderError (code : string).

(** [signIn]: the provider call is [signInWithEmailAndPassword]. *)
Definition signIn (provider : string -> string -> ProviderOutcome)
    (email password : string) : Result AuthUser :=
  match provider email password with
  | Credential u => Ok u
  | ProviderError code => Throw (newError (getAuthErrorMessage code))
  end.

(** [signUp]: the provider call is [createUserWithEmailAndPassword]. *)
Definition signUp (provider : string -> string -> ProviderOutcome)
    (email password : string) : Result AuthUser :=
  match provider email password with
  | Credential u => Ok u
  | ProviderError code => Throw (newError (getAuthErrorMessage code))
  end.

End Auth.

(** ** The app-name prompt of src/commands/createApp.ts *)

Module Prompt.

(** What a [validate] callback returns: [true], or the message to show. *)
Inductive Validation :=
| Accepted
| Rejected (msg : string).

(** The [validate] callback of the app-name question. *)
Definition validate (value : string) : Validation :=
  if (String.length value <? 3)%nat then
    Rejected "App name must be at least 3 characters long"
  else if (50 <? String.length value)%nat then
    Rejected "App name must be less than 50 characters"
  else Accepted.

(** What the user does at a text prompt: type a line and press return,
    or abort (interrupt or escape). *)
Inductive Key :=
| Submit (value : string)
| Abort.

(** The answers object that [prompts] resolves to, reduced to its one
    field: [None] is an answers object without [appName]. *)
Record Answers := mkAnswers {
  appName : option string;
  shown : list string     (* validation messages displayed meanwhile *)
}.

(** The text prompt of the [prompts] package, which is not part of this
    repository: a submitted value is handed to [validate]; when that
    returns a message the message is displayed and the prompt stays
    open, otherwise the value becomes the answer.  An abort closes the
    prompt with no answer; so does the end of the input. *)
Fixpoint textPrompt (validate : string -> Validation) (keys : list Key)
    : Answers :=
  match keys with
  | [] => mkAnswers None []
  | Abort :: _ => mkAnswers None []
  | Submit value :: rest =>
      match validate value with
      | Accepted => mkAnswers (Some value) []
      | Rejected msg =>
          let a := textPrompt validate rest in
          mkAnswers (appName a) (msg :: shown a)
      end
  end.

(** [!appNameResponse.appName] *)
Definition noAppName (a : option string) : bool :=
  match a with
  | None => true
  | Some s => negb (truthy_string s)
  end.

End Prompt.

(** ** The directory walk and the glob filter behind [archive.glob]

    [archive.glob] belongs to the archiver package, which walks the
    directory and filters what it finds with a segment-wise pattern
    matcher.  Neither is part of this repository; both are modelled here as
    far as the one call in [createZipFile] needs them. *)

Module Glob.

(** A directory as [readdir] reports it, entry by entry. *)
Inductive Node :=
| File (name : string)
| Dir (name : string) (children : list Node).

(** A walked entry: its path relative to the walked directory, segment
    by segment, and whether it is a directory. *)
Record Entry := mkEntry {
  relative : list string;
  isDirectory : bool
}.

(** The recursive walk: a directory is reported before its content; no
    [skip] pattern is configured, so every directory is entered. *)
Fixpoint exploreNode (dir : list string) (n : Node) : list Entry :=
  match n with
  | File name => [mkEntry (dir ++ [name]) false]
  | Dir name children =>
      mkEntry (dir ++ [name]) true
        :: flat_map (exploreNode (dir ++ [name])) children
  end.

Definition explore (dir : list string) (nodes : list Node) : list Entry :=
  flat_map (exploreNode dir) nodes.

(** One position of a segment that holds a bracket expression: a plain
    character, or a bracket expression such as [[v2]], which stands for one
    character. *)
Inductive Item :=
| Plain (c : ascii)
| OneOf (members : list ascii).

(** One path segment of a compiled pattern. *)
Inductive Part :=
| GlobStar                (* a segment that is exactly two stars *)
| Star                    (* a segment that is exactly one star *)
| Literal (s : string)    (* a segment without special characters *)
| Bracketed (items : list Item).
                          (* plain characters and bracket expressions *)

(** Characters with a special meaning somewhere in a glob pattern. *)
Definition isMagic (c : ascii) : bool :=
  existsb (Ascii.eqb c)
    (list_ascii_of_string "*?[]{}()!+@|\#").

Fixpoint hasMagic (s : string) : bool :=
  match s with
  | EmptyString => false
  | String c rest => isMagic c || hasMagic rest
  end.

(** The pattern cut at its slashes, with the current segment accumulated
    in [acc] (the patterns at hand hold no two slashes in a row). *)
Fixpoint splitSlash (acc : string) (s : string) : list string :=
  match s with
  | EmptyString => [acc]
  | String c rest =>
      if Ascii.eqb c "/" then acc :: splitSlash EmptyString rest
      else splitSlash (acc +:+ String c EmptyString) rest
  end.

(** A character that stands for itself inside a bracket expression: no
    special character, no range sign, no circumflex. *)
Definition isMember (c : ascii) : bool :=
  negb (isMagic c)
  && negb (existsb (Ascii.eqb c) (list_ascii_of_string "-^/")).

(** The scan of a segment with special characters.  [inClass] holds the
    members of the bracket expression being read, if any.  The scan gives
    up on everything but plain characters and closed, non-empty bracket
    expressions over plain members. *)
Fixpoint parseItems (inClass : option (list ascii)) (s : string)
    : option (list Item) :=
  match s with
  | EmptyString =>
      match inClass with
      | None => Some []
      | Some _ => None
      end
  | String c rest =>
      match inClass with
      | None =>
          if Ascii.eqb c "[" then parseItems (Some []) rest
          else if isMagic c then None
          else
            match parseItems None rest with
            | Some items => Some (Plain c :: items)
            | None => None
            end
      | Some members =>
          if Ascii.eqb c "]" then
            match members, parseItems None rest with
            | _ :: _, Some items => Some (OneOf members :: items)
            | _, _ => None
            end
          else if isMember c
          then parseItems (Some (members ++ [c])%list) rest
          else None
      end
  end.

Definition parsePart (s : string) : option Part :=
  if String.eqb s "**" then Some GlobStar
  else if String.eqb s "*" then Some Star
  else if hasMagic s then
    match parseItems None s with
    | Some items => Some (Bracketed items)
    | None => None
    end
  else Some (Literal s).

Fixpoint parseParts (segments : list string) : option (list Part) :=
  match segments with
  | [] => Some []
  | s :: rest =>
      match parsePart s, parseParts rest with
      | Some p, Some ps => Some (p :: ps)
      | _, _ => None
      end
  end.

(** Compiling a pattern.  Covered are the patterns whose segments are a
    lone star, a double star, free of special characters, or made of plain
    characters and bracket expressions over plain characters (as the
    file name [app[v2]-1.zip] is when it is read as a pattern).  Any other
    pattern (a star or question mark inside a segment, a range or a
    negation in a bracket expression, braces, an extended glob, an escape,
    a leading [!] or [#]) has no compiled form here. *)
Definition compile (pattern : string) : option (list Part) :=
  parseParts (splitSlash EmptyString pattern).

(** A segment a double star may swallow, and a lone star may match:
    never [.] or [..]; a leading dot only under the [dot] option. *)
Definition swallowable (dot : bool) (f : string) : bool :=
  negb (String.eqb f ".") && negb (String.eqb f "..")
  && (dot || negb (String.prefix "." f)).

Definition starMatches (dot : bool) (f : string) : bool :=
  negb (String.eqb f "") && swallowable dot f.

(** A bracket expression stands for exactly one character, one of its
    members. *)
Definition itemMatches (i : Item) (c : ascii) : bool :=
  match i with
  | Plain p => Ascii.eqb c p
  | OneOf members => existsb (Ascii.eqb c) members
  end.

Fixpoint itemsMatch (items : list Item) (f : string) : bool :=
  match items, f with
  | [], EmptyString => true
  | i :: rest, String c f' => itemMatches i c && itemsMatch rest f'
  | _, _ => false
  end.

(** A segment with bracket expressions against a path segment, character
    by character; one that begins with a bracket expression is held to the
    rule of the lone star for [.], [..] and a leading dot. *)
Definition bracketedMatches (dot : bool) (items : list Item) (f : string)
    : bool :=
  match items with
  | OneOf _ :: _ => swallowable dot f && itemsMatch items f
  | _ => itemsMatch items f
  end.

(** The segment-wise matcher: pattern against the segments of a path. *)
Fixpoint matchOne (dot : bool) (pattern : list Part)
    : list string -> bool :=
  match pattern with
  | [] => fun file =>
      match file with
      | [] => true
      | [f] => String.eqb f ""    (* a trailing slash is tolerated *)
      | _ => false
      end
  | GlobStar :: rest =>
      match rest with
      | [] => fun file =>
          match file with
          | [] => false
          | _ => forallb (swallowable dot) file
          end
      | _ =>
          fix swallow (file : list string) : bool :=
            match file with
            | [] => false
            | f :: fs =>
                matchOne dot rest file || (swallowable dot f && swallow fs)
            end
      end
  | Star :: rest => fun file =>
      match file with
      | [] => false
      | f :: fs => starMatches dot f && matchOne dot rest fs
      end
  | Literal s :: rest => fun file =>
      match file with
      | [] => false
      | f :: fs => String.eqb f s && matchOne dot rest fs
      end
  | Bracketed items :: rest => fun file =>
      match file with
      | [] => false
      | f :: fs => bracketedMatches dot items f && matchOne dot rest fs
      end
  end.

(** The path a matcher sees: a directory gets a trailing slash, that is
    a last, empty segment. *)
Definition fileOf (e : Entry) : list string :=
  relative e ++ (if isDirectory e then [""] else []).

(** The options [createZipFile] passes, compiled. *)
Record Options := mkOptions {
  matchers : list (list Part);         (* from the pattern *)
  ignoreMatchers : list (list Part);   (* from [ignore] *)
  dot : bool
}.

(** An entry is reported when a matcher accepts it (or there is none) and
    no ignore matcher does; ignore matchers always run with [dot]. *)
Definition fileMatches (o : Options) (e : Entry) : bool :=
  (match matchers o with
   | [] => true
   | _ => existsb (fun m => matchOne (dot o) m (fileOf e)) (matchers o)
   end)
  && negb (existsb (fun m => matchOne true m (fileOf e)) (ignoreMatchers o)).

Fixpoint compileAll (patterns : list string) : option (list (list Part)) :=
  match patterns with
  | [] => Some []
  | p :: rest =>
      match compile p, compileAll rest with
      | Some m, Some ms => Some (m :: ms)
      | _, _ => None
      end
  end.

(** The matches of a glob over a directory listing. *)
Definition glob (pattern : string) (ignore : list string) (dot : bool)
    (listing : list Node) : option (list Entry) :=
  match compile pattern, compileAll ignore with
  | Some m, Some ims =>
      Some (List.filter (fun e => fileMatches (mkOptions [m] ims dot) e)
              (explore [] listing))
  | _, _ => None
  end.

End Glob.

(** ** Numbers of the progress computation *)

Module Progress.

(** A JavaScript number as far as the progress computation needs it: a
    finite value, one of the two infinities, or NaN.  Finite values are
    rationals; the sign of zero is not modelled. *)
Inductive number :=
| NaN
| Infinity (negative : bool)
| Finite (q : Q).

(** The rounding of an exact result to a double.  An arithmetic operation
    on finite doubles is the exact operation followed by this rounding. *)
Definition Rounding : Type := Q -> Q.

(** What the statements need of round-to-nearest: it is monotone, and 0, 1
    and 100 are doubles. *)
Record NearestRounding (rnd : Rounding) : Prop := {
  rnd_monotone : forall x y : Q, (x <= y)%Q -> (rnd x <= rnd y)%Q;
  rnd_0 : (rnd 0 == 0)%Q;
  rnd_1 : (rnd 1 == 1)%Q;
  rnd_100 : (rnd 100 == 100)%Q
}.

(** Arithmetic without rounding error, for runs on values whose quotients
    and products are doubles. *)
Definition exact : Rounding := fun q => q.

Definition isZero (q : Q) : bool := Qeq_bool q 0%Q.
Definition isNegative (q : Q) : bool := negb (Qle_bool 0%Q q).

(** [a / b] *)
Definition div (rnd : Rounding) (a b : number) : number :=
  match a, b with
  | NaN, _ | _, NaN => NaN
  | Infinity _, Infinity _ => NaN
  | Infinity s, Finite y => Infinity (xorb s (isNegative y))
  | Finite _, Infinity _ => Finite 0%Q
  | Finite x, Finite y =>
      if isZero y then
        if isZero x then NaN else Infinity (isNegative x)
      else Finite (rnd (x / y)%Q)
  end.

(** [a * b] *)
Definition mul (rnd : Rounding) (a b : number) : number :=
  match a, b with
  | NaN, _ | _, NaN => NaN
  | Infinity s, Infinity t => Infinity (xorb s t)
  | Infinity s, Finite y =>
      if isZero y then NaN else Infinity (xorb s (isNegative y))
  | Finite x, Infinity t =>
      if isZero x then NaN else Infinity (xorb (isNegative x) t)
  | Finite x, Finite y => Finite (rnd (x * y)%Q)
  end.

(** [Math.round]: the nearest integer, halves towards plus infinity. *)
Definition Math_round (x : number) : number :=
  match x with
  | Finite q => Finite (inject_Z (Qfloor (q + (1 # 2))%Q))
  | other => other
  end.

(** [a <= b] *)
Definition leb (a b : number) : bool :=
  match a, b with
  | NaN, _ | _, NaN => false
  | Infinity true, _ => true
  | _, Infinity false => true
  | Infinity false, _ => false
  | _, Infinity true => false
  | Finite x, Finite y => Qle_bool x y
  end.

(** [a === b] *)
Definition eqb (a b : number) : bool :=
  match a, b with
  | Finite x, Finite y => Qeq_bool x y
  | Infinity s, Infinity t => Bool.eqb s t
  | _, _ => false
  end.

(** An integer, as a number. *)
Definition ofZ (n : Z) : number := Finite (inject_Z n).

(** The snapshot handed to the [state_changed] observer; the byte counts
    are natural numbers (small enough to be doubles). *)
Record Snapshot := mkSnapshot {
  bytesTransferred : N;
  totalBytes : N
}.

(** A byte count, as a number. *)
Definition ofBytes (n : N) : number := ofZ (Z.of_N n).

(** [(snapshot.bytesTransferred / snapshot.totalBytes) * 100] *)
Definition progress (rnd : Rounding) (snapshot : Snapshot) : number :=
  mul rnd
    (div rnd (ofBytes (bytesTransferred snapshot))
       (ofBytes (totalBytes snapshot)))
    (ofZ 100).

(** The percentage shown in the spinner text: [Math.round(progress)]. *)
Definition percentage (rnd : Rounding) (snapshot : Snapshot) : number :=
  Math_round (progress rnd snapshot).

End Progress.

(** ** src/commands/createApp.ts *)

Module CreateApp.

Import Auth Prompt Glob Progress.

Definition BACKEND_ENDPOINT : string :=
  "https://anomaly-git-app-apidon.vercel.app/api/createApp".

(** *** Paths *)

(** An absolute path, segment by segment. *)
Definition Path : Type := list string.

(** [path.basename(p)] *)
Definition basename (p : Path) : string := List.last p "".

(** The path as the string the source holds. *)
Definition pathString (p : Path) : string :=
  match p with
  | [] => "/"
  | _ => String.concat "" (map (fun segment => "/" +:+ segment) p)
  end.

(** [path.join(dir, name)] for a single segment [name]. *)
Definition join (dir : Path) (name : string) : Path := (dir ++ [name])%list.

(** A number in a template literal (integers only). *)
Definition decimal (n : Z) : string :=
  DecimalString.NilZero.string_of_int (Z.to_int n).

(** *** JSON values and HTTP responses *)

Inductive Json :=
| JNull
| JBool (b : bool)
| JNumber (q : Q)
| JString (s : string)
| JArray (items : list Json)
| JObject (fields : list (string * Json)).

(** Property lookup in a parsed object: of a repeated key the last
    occurrence counts. *)
Fixpoint lookupField (key : string) (fields : list (string * Json))
    : option Json :=
  match fields with
  | [] => None
  | (k, v) :: rest =>
      match lookupField key rest with
      | Some later => Some later
      | None => if String.eqb k key then Some v else None
      end
  end.

(** [responseData.appId]: [None] is [undefined]; reading a property of
    [null] throws. *)
Definition getAppId (responseData : Json) : Result (option Json) :=
  match responseData with
  | JNull =>
      Throw (mkError "TypeError"
               "Cannot read properties of null (reading 'appId')")
  | JObject fields => Ok (lookupField "appId" fields)
  | _ => Ok None
  end.

(** Truthiness, [undefined] included. *)
Definition truthy (v : option Json) : bool :=
  match v with
  | None => false
  | Some JNull => false
  | Some (JBool b) => b
  | Some (JNumber q) => negb (Qeq_bool q 0%Q)
  | Some (JString s) => truthy_string s
  | Some (JArray _) => true
  | Some (JObject _) => true
  end.

Record Response := mkResponse {
  status : Z;
  statusText : string;
  json : Result Json;       (* what [response.json()] settles to *)
  text : Result string      (* what [response.text()] settles to *)
}.

(** [response.ok]: the status is in the range 200-299. *)
Definition ok (r : Response) : bool :=
  (200 <=? status r) && (status r <=? 299).

(** What becomes of the request when nobody aborts it: a response or a
    network failure after so many milliseconds, or nothing at all. *)
Inductive FetchOutcome :=
| Responds (afterMs : Z) (r : Response)
| Fails (afterMs : Z) (e : Error)
| Silent.

(** *** The world the workflow acts on *)

Record ArchiveEntry := mkArchiveEntry {
  entryName : list string;   (* the name inside the archive *)
  source : Path;             (* the file it was read from *)
  directory : bool
}.

(** A local file: the archive while it is written, and when finished its
    entries ([None] when the patterns are outside [Glob.compile]). *)
Inductive Blob :=
| Partial
| Zip (content : option (list ArchiveEntry)).

(** One call of [uploadBytesResumable]. *)
Record Upload := mkUpload {
  storagePath : string;
  contentType : string;
  data : Blob
}.

(** One call of [fetch]. *)
Record Request := mkRequest {
  url : string;
  method : string;
  authorization : string;
  contentTypeHeader : string;
  bodyFileName : string;
  bodyAppName : string;
  aborted : bool
}.

(** Console output, without colours and pictographs. *)
Inductive Line :=
| Log (text : string)
| LogError (text : string)
| ValidationMessage (text : string)
| SpinnerStart (text : string)
| SpinnerSucceed (text : string)
| SpinnerFail (text : string)
| UploadSpinnerStart (percent : number)
| UploadSpinnerText (percent : number)
| LogAppId (appId : Json)        (* the line with the app id *)
| LogDashboard (appId : Json).   (* the line with the dashboard URL *)

Record World := mkWorld {
  disk : gmap Path Blob;
  console : list Line;
  uploads : list Upload;
  requests : list Request
}.

(** What the outside decides during one run. *)
Record Env := mkEnv {
  cwd : Path;                          (* [process.cwd()] *)
  now : Z;                             (* [Date.now()] *)
  keys : list Key;                     (* typed at the prompt *)
  listing : list Node;                 (* found by the walk of [cwd] *)
  archiveError : option Error;         (* the archiver's error event *)
  readFileError : option Error;
  snapshots : list Snapshot;           (* progress events, in order *)
  uploadError : option Error;          (* the upload task's error event *)
  fetchOutcome : FetchOutcome;
  unlinkError : option Error;
  rounding : Rounding                  (* of the runtime's arithmetic *)
}.

(** *** Outcome and state threaded through the asynchronous code *)

Definition M (A : Type) : Type := World -> Result A * World.

Definition ret {A} (a : A) : M A := fun w => (Ok a, w).

Definition throw {A} (e : Error) : M A := fun w => (Throw e, w).

Definition bind {A B} (m : M A) (k : A -> M B) : M B :=
  fun w =>
    match m w with
    | (Ok a, w') => k a w'
    | (Throw e, w') => (Throw e, w')
    end.

(** [try { body } catch (error) { handler }] *)
Definition tryCatch {A} (body : M A) (handler : Error -> M A) : M A :=
  fun w =>
    match body w with
    | (Ok a, w') => (Ok a, w')
    | (Throw e, w') => handler e w'
    end.

(** [try { body } finally { finalizer }] *)
Definition tryFinally {A} (body : M A) (finalizer : M unit) : M A :=
  fun w =>
    let (r, w') := body w in
    match finalizer w' with
    | (Ok _, w'') => (r, w'')
    | (Throw e, w'') => (Throw e, w'')
    end.

Declare Scope js_scope.
Delimit Scope js_scope with js.
Notation "x <- m ;; k" := (bind m (fun x => k))
  (at level 100, m at next level, right associativity) : js_scope.
Notation "m ;;; k" := (bind m (fun _ => k))
  (at level 100, right associativity) : js_scope.
Local Open Scope js_scope.

Definition print (l : Line) : M unit :=
  fun w => (Ok tt, mkWorld (disk w) (console w ++ [l])%list (uploads w) (requests w)).

Definition setDisk (d : gmap Path Blob) (w : World) : World :=
  mkWorld d (console w) (uploads w) (requests w).

(** Lifting a settled promise. *)
Definition settle {A} (r : Result A) : M A := fun w => (r, w).

(** [fs.unlink(p)] *)
Definition unlink (env : Env) (p : Path) : M unit :=
  fun w =>
    match unlinkError env with
    | Some e => (Throw e, w)
    | None =>
        match disk w !! p with
        | Some _ => (Ok tt, setDisk (delete p (disk w)) w)
        | None =>
            (Throw (mkError "Error" "ENOENT: no such file or directory"), w)
        end
    end.

(** [fs.readFile(p)] *)
Definition readFile (env : Env) (p : Path) : M Blob :=
  fun w =>
    match readFileError env with
    | Some e => (Throw e, w)
    | None =>
        match disk w !! p with
        | Some b => (Ok b, w)
        | None =>
            (Throw (mkError "Error" "ENOENT: no such file or directory"), w)
        end
    end.

(** *** createZipFile *)

(** The ignore list handed to [archive.glob]. *)
Definition ignoreList (zipFileName : string) : list string :=
  ["node_modules/**"; ".git/**"; "dist/**"; zipFileName].

(** What [archive.glob] queues: each match of the pattern under [cwd],
    stored under the prefix [projectName/]. *)
Definition archiveEntries (sourceDir outputPath : Path)
    (listing : list Node) : option (list ArchiveEntry) :=
  let projectName := basename sourceDir in
  let zipFileName := basename outputPath in
  match glob "**/*" (ignoreList zipFileName) true listing with
  | Some matches =>
      Some (map (fun e =>
                   mkArchiveEntry (projectName :: relative e)
                     (sourceDir ++ relative e)%list (isDirectory e))
              matches)
  | None => None
  end.

(** The write stream is opened on [outputPath], which creates the file;
    then either the archiver reports an error and the promise rejects,
    or the archive is finalized and the stream's close resolves it. *)
Definition createZipFile (env : Env) (sourceDir outputPath : Path)
    : M unit :=
  fun w =>
    let opened := setDisk (<[outputPath := Partial]> (disk w)) w in
    match archiveError env with
    | Some err => (Throw err, opened)
    | None =>
        let written :=
          setDisk (<[outputPath :=
                       Zip (archiveEntries sourceDir outputPath (listing env))]>
                     (disk opened)) opened in
        print (Log "Archive size") written
    end.

(** *** uploadToFirebase *)

(** The [state_changed] observer, run over the snapshots: the first one
    starts the spinner, the later ones replace its text. *)
Fixpoint observe (rnd : Rounding) (started : bool) (events : list Snapshot)
    : list Line :=
  match events with
  | [] => []
  | s :: rest =>
      (if started then UploadSpinnerText (percentage rnd s)
       else UploadSpinnerStart (percentage rnd s)) :: observe rnd true rest
  end.

Definition prints (ls : list Line) : M unit :=
  fun w => (Ok tt, mkWorld (disk w) (console w ++ ls)%list (uploads w) (requests w)).

Definition recordUpload (u : Upload) : M unit :=
  fun w => (Ok tt, mkWorld (disk w) (console w) (uploads w ++ [u])%list (requests w)).

Definition uploadToFirebase (env : Env) (filePath : Path)
    (fileName : string) (user : AuthUser) : M string :=
  fileBuffer <- readFile env filePath ;;
  let storagePath := "source_files/" +:+ uid user +:+ "/" +:+ fileName in
  let metadata := "application/zip" in
  recordUpload (mkUpload storagePath metadata fileBuffer) ;;;
  prints (observe (rounding env) false (snapshots env)) ;;;
  let progressSpinner := negb (Nat.eqb (length (snapshots env)) 0) in
  match uploadError env with
  | Some error =>
      (if progressSpinner then print (SpinnerFail "") else ret tt) ;;;
      throw error
  | None =>
      (if progressSpinner
       then print (SpinnerSucceed "Upload completed!") else ret tt) ;;;
      ret fileName
  end.

(** *** createAppInBackend *)

Definition timeoutMs : Z := 30000.

Definition abortError : Error :=
  mkError "AbortError" "This operation was aborted".

Definition recordRequest (r : Request) : M unit :=
  fun w => (Ok tt, mkWorld (disk w) (console w) (uploads w) (requests w ++ [r])%list).

(** [fetch] with the controller's signal, the abort being scheduled
    [timeoutMs] after the call: whatever has not settled by then is
    aborted and rejects with the abort error. *)
Definition fetch (env : Env) (authToken fileName appName : string)
    : M Response :=
  let request :=
    mkRequest BACKEND_ENDPOINT "POST" authToken "application/json"
      fileName appName in
  match fetchOutcome env with
  | Responds afterMs r =>
      if afterMs <? timeoutMs
      then recordRequest (request false) ;;; ret r
      else recordRequest (request true) ;;; throw abortError
  | Fails afterMs e =>
      if afterMs <? timeoutMs
      then recordRequest (request false) ;;; throw e
      else recordRequest (request true) ;;; throw abortError
  | Silent => recordRequest (request true) ;;; throw abortError
  end.

Definition timedOutMessage : string :=
  "Request timed out after 30 seconds - please check your internet connection".

Definition unreachableMessage : string :=
  "Unable to reach deployment service - please verify your internet connection".

Definition missingAppIdMessage : string :=
  "Deployment service did not return a valid app ID".

Definition createAppInBackend (env : Env) (fileName appName : string)
    (user : AuthUser) : M Json :=
  print (SpinnerStart "Communicating with deployment service...") ;;;
  tryCatch
    (authToken <- settle (idToken user) ;;
     response <- fetch env authToken fileName appName ;;
     if ok response then
       print (SpinnerSucceed "Deployment service responded successfully") ;;;
       responseData <- settle (json response) ;;
       appId <- settle (getAppId responseData) ;;
       if negb (truthy appId) then
         throw (newError missingAppIdMessage)
       else
         match appId with
         | Some v => ret v
         | None => throw (newError missingAppIdMessage)
         end
     else
       let errorMessage :=
         match text response with
         | Ok errorData => errorData
         | Throw _ => statusText response
         end in
       throw (newError ("Deployment service error ("
                          +:+ decimal (status response) +:+ "): "
                          +:+ errorMessage)))
    (fun error =>
       print (SpinnerFail "Deployment service request failed") ;;;
       if String.eqb (name error) "AbortError" then
         throw (newError timedOutMessage)
       else if includes "fetch" (message error) then
         throw (newError unreachableMessage)
       else
         throw (newError ("Deployment request failed: " +:+ message error))).

(** *** createApp *)

Definition zipFileNameOf (env : Env) : string :=
  basename (cwd env) +:+ "-" +:+ decimal (now env) +:+ ".zip".

Definition tempZipPathOf (env : Env) : Path :=
  join (cwd env) (zipFileNameOf env).

Definition cleanupWarning : Line :=
  Log "Warning: Could not remove temporary archive file".

(** The body of the inner [try]: steps 3 and 4. *)
Definition uploadAndPublish (env : Env) (tempZipPath : Path)
    (zipFileName appName : string) (user : AuthUser) : M unit :=
  uploadedFileName <- uploadToFirebase env tempZipPath zipFileName user ;;
  print (Log "Upload completed successfully") ;;;
  print (Log ("Cloud file: " +:+ uploadedFileName)) ;;;
  (* Step 4: the backend *)
  print (Log "Requesting app deployment from backend service...") ;;;
  appId <- createAppInBackend env uploadedFileName appName user ;;
  print (Log "Application deployed successfully!") ;;;
  print (Log ("App Name: " +:+ appName)) ;;;
  print (LogAppId appId) ;;;
  print (Log ("Source Archive: " +:+ uploadedFileName)) ;;;
  print (Log "Your app dashboard is ready:") ;;;
  print (LogDashboard appId) ;;;
  print (Log "Visit the dashboard URL above to manage your application").

(** The body of its [finally]: the temporary archive is removed; a
    failure to do so is caught on the spot and only logged. *)
Definition cleanup (env : Env) (tempZipPath : Path) : M unit :=
  tryCatch
    (unlink env tempZipPath ;;;
     print (Log "Temporary files cleaned up"))
    (fun cleanupError => print cleanupWarning).

Definition createApp (env : Env) (user : AuthUser) : M unit :=
  tryCatch
    (print (Log ("Initializing new app creation for "
                 +:+ default "null" (email user))) ;;;
     (* Step 1: the app name *)
     let appNameResponse := textPrompt validate (keys env) in
     prints (map ValidationMessage (shown appNameResponse)) ;;;
     if noAppName (Prompt.appName appNameResponse) then
       print (Log "App creation cancelled by user")
     else
       let appName := trim (default "" (Prompt.appName appNameResponse)) in
       print (Log ("App name confirmed: " +:+ appName)) ;;;
       (* Step 2: the archive of the current directory *)
       let currentDir := cwd env in
       let projectName := basename currentDir in
       let zipFileName := projectName +:+ "-" +:+ decimal (now env) +:+ ".zip" in
       let tempZipPath := join currentDir zipFileName in
       print (Log "Preparing project archive for deployment") ;;;
       print (Log ("Project: " +:+ projectName)) ;;;
       print (Log ("Source: " +:+ pathString currentDir)) ;;;
       print (SpinnerStart "Creating project archive (excluding node_modules and .git)...") ;;;
       tryCatch
         (createZipFile env currentDir tempZipPath ;;;
          print (SpinnerSucceed "Project archive created successfully"))
         (fun error =>
            print (SpinnerFail "Failed to create project archive") ;;;
            throw error) ;;;
       (* Step 3: the upload *)
       print (Log "Uploading project archive to cloud storage...") ;;;
       tryFinally
         (uploadAndPublish env tempZipPath zipFileName appName user)
         (cleanup env tempZipPath) ;;;
       print (Log "App creation completed successfully!"))
    (fun error =>
       if String.eqb (name error) "ExitPromptError" then
         print (Log "App creation cancelled by user")
       else
         print (LogError ("App creation failed: " +:+ message error)) ;;;
         print (LogError "Please check your connection and try again") ;;;
         throw error).

(** *** src/index.ts: the [init] action

    The action awaits [createApp]; when that returns the process ends
    normally, when it throws the process-level handler picks the exit
    status from the error's name. *)
Definition exitStatus (r : Result unit) : Z :=
  match r with
  | Ok _ => 0
  | Throw error =>
      if String.eqb (name error) "ExitPromptError" then 0 else 1
  end.

Definition init (env : Env) (user : AuthUser) (w : World) : Z * World :=
  let (r, w') := createApp env user w in (exitStatus r, w').

End CreateApp.

Import Auth Prompt Glob Progress CreateApp.

(** * Vocabulary of the statements *)

(** ** Frame conditions on the world *)

(** A computation keeps a relation between the world it starts in and the
    world it leaves, whatever its outcome. *)
Definition keeps (R : World -> World -> Prop) {A} (m : M A) : Prop :=
  forall w, R w (snd (m w)).

Definition sameDisk (w w' : World) : Prop := disk w' = disk w.
Definition sameUploads (w w' : World) : Prop := uploads w' = uploads w.
Definition sameRequests (w w' : World) : Prop := requests w' = requests w.
Definition consoleGrows (w w' : World) : Prop :=
  exists more, console w' = (console w ++ more)%list.

(** Every request sent in between carries the app name [a]. *)
Definition sendsName (a : string) (w w' : World) : Prop :=
  forall r, In r (requests w') -> In r (requests w) \/ bodyAppName r = a.

Class Frame (R : World -> World -> Prop) : Prop := {
  frame_refl : forall w, R w w;
  frame_trans : forall a b c, R a b -> R b c -> R a c
}.

(** ** The stages of [createApp] *)

(** The first line of the workflow. *)
Definition greeting (user : AuthUser) : Line :=
  Log ("Initializing new app creation for " +:+ default "null" (email user)).

(** The world in which the upload starts, once the prompt has given a name
    and the archive has been written. *)
Definition worldAfterArchive (env : Env) (user : AuthUser) (w : World)
    : World :=
  mkWorld
    (<[tempZipPathOf env :=
         Zip (archiveEntries (cwd env) (tempZipPathOf env) (listing env))]>
       (<[tempZipPathOf env := Partial]> (disk w)))
    (console w ++ [greeting user]
       ++ map ValidationMessage (shown (textPrompt validate (keys env)))
       ++ [Log ("App name confirmed: "
                +:+ trim (default "" (Prompt.appName (textPrompt validate (keys env)))));
           Log "Preparing project archive for deployment";
           Log ("Project: " +:+ basename (cwd env));
           Log ("Source: " +:+ pathString (cwd env));
           SpinnerStart "Creating project archive (excluding node_modules and .git)...";
           Log "Archive size";
           SpinnerSucceed "Project archive created successfully";
           Log "Uploading project archive to cloud storage..."])%list
    (uploads w) (requests w).

(** What follows the inner [try ... finally]: the last line on success,
    the outer [catch] on an error. *)
Definition outerCatch (r : Result unit) : M unit :=
  match r with
  | Ok _ => print (Log "App creation completed successfully!")
  | Throw error =>
      if String.eqb (name error) "ExitPromptError" then
        print (Log "App creation cancelled by user")
      else
        bind (print (LogError ("App creation failed: " +:+ message error)))
          (fun _ =>
             bind (print (LogError "Please check your connection and try again"))
               (fun _ => throw error))
  end.

(** The error [createAppInBackend] rethrows for a failure it does not
    recognise. *)
Definition wrapped (msg : string) : Error :=
  newError ("Deployment request failed: " +:+ msg).

(** The request has settled (response or network failure) within [ms]. *)
Definition settlesWithin (ms : Z) (o : FetchOutcome) : bool :=
  match o with
  | Responds afterMs _ => (afterMs <=? ms)%Z
  | Fails afterMs _ => (afterMs <=? ms)%Z
  | Silent => false
  end.

(** ** Environments that differ in one decision *)

Definition withKeys (ks : list Key) (env : Env) : Env :=
  mkEnv (cwd env) (now env) ks (listing env) (archiveError env)
    (readFileError env) (snapshots env) (uploadError env) (fetchOutcome env)
    (unlinkError env) (rounding env).

Definition withArchiveError (e : option Error) (env : Env) : Env :=
  mkEnv (cwd env) (now env) (keys env) (listing env) e
    (readFileError env) (snapshots env) (uploadError env) (fetchOutcome env)
    (unlinkError env) (rounding env).

Definition withListing (l : list Node) (env : Env) : Env :=
  mkEnv (cwd env) (now env) (keys env) l (archiveError env)
    (readFileError env) (snapshots env) (uploadError env) (fetchOutcome env)
    (unlinkError env) (rounding env).

Definition withFetch (o : FetchOutcome) (env : Env) : Env :=
  mkEnv (cwd env) (now env) (keys env) (listing env) (archiveError env)
    (readFileError env) (snapshots env) (uploadError env) o (unlinkError env)
    (rounding env).

Definition setUnlinkError (e : option Error) (env : Env) : Env :=
  mkEnv (cwd env) (now env) (keys env) (listing env) (archiveError env)
    (readFileError env) (snapshots env) (uploadError env) (fetchOutcome env) e
    (rounding env).

(** ** Percentages shown during an upload *)

Definition shownPercent (l : Line) : option number :=
  match l with
  | UploadSpinnerStart p => Some p
  | UploadSpinnerText p => Some p
  | _ => None
  end.

Definition reported (lines : list Line) : list number := omap shownPercent lines.

(** The percentage as an integer, for a positive total. *)
Definition percentZ (rnd : Rounding) (b t : Z) : Z :=
  Qfloor (rnd (rnd (inject_Z b / inject_Z t) * inject_Z 100) + (1 # 2))%Q.

(** ** Directory listings and archive contents *)

Fixpoint hasSlash (s : string) : bool :=
  match s with
  | EmptyString => false
  | String c rest => Ascii.eqb c "/" || hasSlash rest
  end.

(** A name [readdir] can report: not empty, not [.] or [..], no slash. *)
Definition validName (s : string) : bool :=
  negb (String.eqb s "") && negb (String.eqb s ".")
  && negb (String.eqb s "..") && negb (hasSlash s).

Fixpoint wfNode (n : Node) : bool :=
  match n with
  | File name => validName name
  | Dir name children => validName name && forallb wfNode children
  end.

(** A file name that, read as a pattern, is one literal segment. *)
Definition plainName (s : string) : bool :=
  negb (hasMagic s) && negb (hasSlash s).

Definition matchesGlob (pattern : string) (e : Entry) : bool :=
  match compile pattern with
  | Some m => matchOne true m (fileOf e)
  | None => false
  end.

(** The ignore globs for the dependency-cache directory, the
    version-control directory and the build-output directory. *)
Definition directoryGlobs : list string :=
  ["node_modules/**"; ".git/**"; "dist/**"].

Definition inIgnoredDirectory (e : Entry) : bool :=
  existsb (fun p => matchesGlob p e) directoryGlobs.

Definition isTheArchive (zipFileName : string) (e : Entry) : bool :=
  bool_decide (relative e = [zipFileName]).

Definition toArchiveEntry (sourceDir : Path) (e : Entry) : ArchiveEntry :=
  mkArchiveEntry (basename sourceDir :: relative e)
    (sourceDir ++ relative e)%list (isDirectory e).

(** Induction over a listing, children included. *)
Fixpoint Node_nested_ind (P : Node -> Prop)
    (HFile : forall name, P (File name))
    (HDir : forall name children, Forall P children -> P (Dir name children))
    (n : Node) : P n :=
  match n with
  | File name => HFile name
  | Dir name children =>
      HDir name children
        ((fix all (l : list Node) : Forall P l :=
            match l with
            | [] => @List.Forall_nil Node P
            | x :: xs =>
                @List.Forall_cons Node P x xs
                  (Node_nested_ind P HFile HDir x) (all xs)
            end) children)
  end.

(** ** Sample runs *)

Definition user0 : AuthUser :=
  mkAuthUser "u1" (Some "dev@example.com") None (Ok "token-1").

Definition world0 : World := mkWorld ∅ [] [] [].

Definition response200 (body : Json) : Response :=
  mkResponse 200 "OK" (Ok body) (Ok "").

(** Everything succeeds: the name [demo], a small project, a backend that
    answers after 120 ms.  The progress values 0, 1/2 and 1 are doubles. *)
Definition envOk : Env :=
  mkEnv ["home"; "dev"; "shop"] 1700000000000 [Submit "demo"]
    [File "index.ts"; File ".env"; Dir "node_modules" [File "left-pad.js"]]
    None None [mkSnapshot 0 10; mkSnapshot 5 10; mkSnapshot 10 10] None
    (Responds 120 (response200 (JObject [("appId", JString "abc123")]))) None
    exact.

Arguments uploadAndPublish : simpl never.
Arguments cleanup : simpl never.
Arguments decimal : simpl never.
Arguments trim : simpl never.
Arguments basename : simpl never.
Arguments pathString : simpl never.

(** * The rest of the program *)

(** ** Regular expressions, as far as the email check needs them

    A pattern anchored at both ends: a sequence of atoms, each taken once
    or once and more.  [test] tries the longest repetition first and
    falls back, like the backtracking matcher of the runtime. *)

Module RegExp.

Inductive Atom :=
| Char (c : ascii)                 (* the character itself *)
| NoSpaceNoneOf (cs : list ascii). (* a negated class of \s and [cs] *)

Inductive Item :=
| Once (a : Atom)
| OneOrMore (a : Atom).

Definition atomMatches (a : Atom) (c : ascii) : bool :=
  match a with
  | Char c' => Ascii.eqb c c'
  | NoSpaceNoneOf cs => negb (isWhiteSpace c) && negb (existsb (Ascii.eqb c) cs)
  end.

Fixpoint test (pattern : list Item) : string -> bool :=
  match pattern with
  | [] => fun s =>
      match s with
      | EmptyString => true
      | String _ _ => false
      end
  | Once a :: rest => fun s =>
      match s with
      | String c s' => atomMatches a c && test rest s'
      | EmptyString => false
      end
  | OneOrMore a :: rest => fun s =>
      match s with
      | String c s' =>
          atomMatches a c
          && (fix more (s : string) : bool :=
                match s with
                | String c s' => (atomMatches a c && more s') || test rest s
                | EmptyString => test rest s
                end) s'
      | EmptyString => false
      end
  end.

End RegExp.

(** ** The process: what a command of the CLI acts on

    Besides the world of the create-app workflow: the calls made to the
    authentication provider, and the variable [currentUser] of
    [src/index.ts]. *)

Module Process.

Inductive ProviderCall :=
| SignInCall (email password : string)    (* [signInWithEmailAndPassword] *)
| SignUpCall (email password : string)    (* [createUserWithEmailAndPassword] *)
| SignOutCall.                            (* [signOut] *)

Record State := mkState {
  world : World;
  calls : list ProviderCall;
  currentUser : option AuthUser
}.

(** How an asynchronous function ends: it returns, it throws, or it has
    ended the process with [process.exit]. *)
Inductive Outcome (A : Type) :=
| Returned (a : A)
| Thrown (e : Error)
| Exited (code : Z).
Arguments Returned {A} a.
Arguments Thrown {A} e.
Arguments Exited {A} code.

Definition P (A : Type) : Type := State -> Outcome A * State.

Definition retP {A} (a : A) : P A := fun s => (Returned a, s).

Definition throwP {A} (e : Error) : P A := fun s => (Thrown e, s).

(** [process.exit(code)] *)
Definition exit {A} (code : Z) : P A := fun s => (Exited code, s).

Definition bindP {A B} (m : P A) (k : A -> P B) : P B :=
  fun s =>
    match m s with
    | (Returned a, s') => k a s'
    | (Thrown e, s') => (Thrown e, s')
    | (Exited code, s') => (Exited code, s')
    end.

(** [try { body } catch (error) { handler }]: an exit is not caught. *)
Definition tryCatchP {A} (body : P A) (handler : Error -> P A) : P A :=
  fun s =>
    match body s with
    | (Returned a, s') => (Returned a, s')
    | (Thrown e, s') => handler e s'
    | (Exited code, s') => (Exited code, s')
    end.

(** A step of the create-app workflow, run on the world of the process. *)
Definition liftApp {A} (m : M A) : P A :=
  fun s =>
    match m (world s) with
    | (Ok a, w') => (Returned a, mkState w' (calls s) (currentUser s))
    | (Throw e, w') => (Thrown e, mkState w' (calls s) (currentUser s))
    end.

Definition say (l : Line) : P unit := liftApp (print l).

Definition sayAll (ls : list Line) : P unit := liftApp (prints ls).

Definition recordCall (c : ProviderCall) : P unit :=
  fun s => (Returned tt, mkState (world s) (calls s ++ [c])%list (currentUser s)).

Definition setCurrentUser (u : option AuthUser) : P unit :=
  fun s => (Returned tt, mkState (world s) (calls s) u).

End Process.

Import Process.

Declare Scope proc_scope.
Delimit Scope proc_scope with proc.
Notation "x <- m ;; k" := (bindP m (fun x => k))
  (at level 100, m at next level, right associativity) : proc_scope.
Notation "m ;;; k" := (bindP m (fun _ => k))
  (at level 100, right associativity) : proc_scope.

(** ** src/auth/index.ts: the methods of [AuthManager] *)

Module AuthManager.

Local Open Scope proc_scope.

(** The entries of the menu, by their [value]. *)
Inductive Choice :=
| SignInChoice
| CreateAccountChoice
| ExitChoice.

Definition choiceValue (c : Choice) : string :=
  match c with
  | SignInChoice => "signin"
  | CreateAccountChoice => "signup"
  | ExitChoice => "exit"
  end.

(** One round of [promptAuthentication], as the outside decides it: what
    is chosen in the menu ([None]: the menu is aborted), what is typed at
    the two text prompts, what the provider answers to the credentials,
    and what is answered to the question whether to try again ([None]:
    aborted). *)
Record Round := mkRound {
  menu : option Choice;
  emailKeys : list Key;
  passwordKeys : list Key;
  provider : string -> string -> ProviderOutcome;
  retry : option bool
}.

(** What the outside decides for the authentication of one process. *)
Record Env := mkEnv {
  authState : option AuthUser;   (* the first report of [onAuthStateChanged] *)
  rounds : list Round;
  signOutError : option Error    (* the rejection of the provider's [signOut] *)
}.

(** A round without input: every prompt closes unanswered. *)
Definition silent : Round :=
  mkRound None [] [] (fun _ _ => ProviderError "") None.

Definition goodbye : Line := Log "Goodbye!".

(** [getCurrentUser] *)
Definition getCurrentUser (env : Env) : P (option AuthUser) :=
  retP (authState env).

(** [signIn], with its spinner. *)
Definition signIn (r : Round) (email password : string) : P AuthUser :=
  say (SpinnerStart "Signing in...") ;;;
  recordCall (SignInCall email password) ;;;
  match Auth.signIn (provider r) email password with
  | Ok user => say (SpinnerSucceed "Successfully signed in!") ;;; retP user
  | Throw error => say (SpinnerFail "Sign in failed") ;;; throwP error
  end.

(** [signUp], with its spinner. *)
Definition signUp (r : Round) (email password : string) : P AuthUser :=
  say (SpinnerStart "Creating account...") ;;;
  recordCall (SignUpCall email password) ;;;
  match Auth.signUp (provider r) email password with
  | Ok user => say (SpinnerSucceed "Account created successfully!") ;;; retP user
  | Throw error => say (SpinnerFail "Account creation failed") ;;; throwP error
  end.

(** [signOut]: the provider's error is thrown on as it is. *)
Definition signOut (env : Env) : P unit :=
  say (SpinnerStart "Signing out...") ;;;
  recordCall SignOutCall ;;;
  match signOutError env with
  | None => say (SpinnerSucceed "Successfully signed out!")
  | Some error => say (SpinnerFail "Sign out failed") ;;; throwP error
  end.

(** The pattern of the email check:
    one or more characters other than white space and the at sign, the at
    sign, again one or more such characters, a dot, and again one or more
    such characters. *)
Definition emailRegex : list RegExp.Item :=
  [ RegExp.OneOrMore (RegExp.NoSpaceNoneOf ["@"%char]);
    RegExp.Once (RegExp.Char "@");
    RegExp.OneOrMore (RegExp.NoSpaceNoneOf ["@"%char]);
    RegExp.Once (RegExp.Char ".");
    RegExp.OneOrMore (RegExp.NoSpaceNoneOf ["@"%char]) ].

(** The [validate] callback of the email question. *)
Definition validateEmail (value : string) : Validation :=
  if RegExp.test emailRegex value then Accepted
  else Rejected "Please enter a valid email address".

(** The [validate] callback of the password question. *)
Definition validatePassword (value : string) : Validation :=
  if (6 <=? String.length value)%nat then Accepted
  else Rejected "Password must be at least 6 characters".

(** The one field of an answers object ([appName] in [Prompt.Answers]
    whatever the question's name), and [!answer]. *)
Definition answer (a : Answers) : option string := Prompt.appName a.

Definition unanswered (a : Answers) : bool := noAppName (answer a).

(** [promptCredentials] *)
Definition promptCredentials (r : Round) : P (string * string) :=
  let emailAnswers := textPrompt validateEmail (emailKeys r) in
  sayAll (map ValidationMessage (shown emailAnswers)) ;;;
  if unanswered emailAnswers then
    say goodbye ;;; exit 0
  else
    let passwordAnswers := textPrompt validatePassword (passwordKeys r) in
    sayAll (map ValidationMessage (shown passwordAnswers)) ;;;
    if unanswered passwordAnswers then
      say goodbye ;;; exit 0
    else
      retP (default "" (answer emailAnswers),
            default "" (answer passwordAnswers)).

(** [action === value] for the answer of the menu. *)
Definition actionIs (action : option string) (value : string) : bool :=
  match action with
  | Some a => String.eqb a value
  | None => false
  end.

(** [if (retry)] *)
Definition confirmed (retry : option bool) : bool := default false retry.

(** One pass through the body of [promptAuthentication]; [again] is the
    recursive call. *)
Definition authenticate (r : Round) (again : P AuthUser) : P AuthUser :=
  say (Log "Authentication Required") ;;;
  let action := option_map choiceValue (menu r) in
  (if actionIs action "exit" then say goodbye ;;; exit 0 else retP tt) ;;;
  credentials <- promptCredentials r ;;
  tryCatchP
    (if actionIs action "signin" then
       signIn r (fst credentials) (snd credentials)
     else
       signUp r (fst credentials) (snd credentials))
    (fun error =>
       say (Log (message error)) ;;;
       if confirmed (retry r) then
         again
       else
         say goodbye ;;; exit 0).

(** [promptAuthentication]: each pass uses up one round of input.  When
    no round is left every prompt closes unanswered, and the pass ends
    the process at the email question before it could come back here. *)
Fixpoint promptAuthentication (rounds : list Round) : P AuthUser :=
  match rounds with
  | [] => authenticate silent (exit 0)
  | r :: rest => authenticate r (promptAuthentication rest)
  end.

End AuthManager.

(** ** src/index.ts: the commands *)

Module Cli.

Local Open Scope proc_scope.

Import AuthManager.

(** [`${user.email}`] *)
Definition emailText (user : AuthUser) : string := default "null" (email user).

(** [requireAuth] *)
Definition requireAuth (env : AuthManager.Env) : P AuthUser :=
  say (Log "Welcome to Anomaly CLI!") ;;;
  user <- getCurrentUser env ;;
  setCurrentUser user ;;;
  match user with
  | Some current =>
      say (Log ("Welcome back, " +:+ emailText current +:+ "!")) ;;;
      retP current
  | None =>
      say (Log "You need to sign in to use this CLI.") ;;;
      signed <- promptAuthentication (rounds env) ;;
      setCurrentUser (Some signed) ;;;
      say (Log ("Welcome, " +:+ emailText signed +:+ "!")) ;;;
      retP signed
  end.

(** [anomaly auth status] *)
Definition authStatus (env : AuthManager.Env) : P unit :=
  user <- getCurrentUser env ;;
  match user with
  | Some u =>
      say (Log ("Signed in as: " +:+ emailText u)) ;;;
      say (Log ("User ID: " +:+ uid u))
  | None => say (Log "Not signed in")
  end.

(** [anomaly auth login] *)
Definition authLogin (env : AuthManager.Env) : P unit :=
  tryCatchP
    (user <- promptAuthentication (rounds env) ;;
     setCurrentUser (Some user) ;;;
     say (Log ("Welcome, " +:+ emailText user +:+ "!")))
    (fun error => say (Log "Authentication failed")).

(** [anomaly auth logout] *)
Definition authLogout (env : AuthManager.Env) : P unit :=
  tryCatchP
    (signOut env ;;;
     setCurrentUser None ;;;
     say (Log "You have been signed out successfully!"))
    (fun error => say (Log ("Error signing out: " +:+ message error))).

(** [anomaly init] *)
Definition initCommand (env : AuthManager.Env) (app : CreateApp.Env) : P unit :=
  user <- requireAuth env ;;
  liftApp (createApp app user).

(** The end of the process: a command that returns lets it end normally;
    an error nobody caught reaches the [uncaughtException] handler; an
    exit is an exit. *)
Definition run (command : P unit) (s : State) : Z * State :=
  match command s with
  | (Returned _, s') => (0, s')
  | (Thrown error, s') =>
      if String.eqb (name error) "ExitPromptError" then
        (0, snd (say (Log "Until next time!") s'))
      else
        (1, snd (say (LogError ("An unexpected error occurred: "
                                  +:+ message error)) s'))
  | (Exited code, s') => (code, s')
  end.

End Cli.

Import Cli.

(** ** src/commands/list.ts *)

Module Listing.

Definition units : list string := ["B"; "KB"; "MB"; "GB"].

(** [x.toFixed(1)] for a finite [x >= 0] below 10^21: with [n] the
    integer for which [n / 10 - x] is closest to zero (the larger one of
    two), the digits of [n] with a point before the last one. *)
Definition toFixed1 (x : Q) : string :=
  let n := Qfloor (x * inject_Z 10 + (1 # 2))%Q in
  decimal (n / 10) +:+ "." +:+ decimal (n mod 10).

(** The [while] loop of [formatFileSize]; [remaining] is
    [units.length - 1 - unitIndex], which bounds the number of passes.
    The division by 1024 is exact in the runtime's arithmetic. *)
Fixpoint scale (remaining : nat) (size : Q) (unitIndex : nat) : Q * nat :=
  match remaining with
  | O => (size, unitIndex)
  | S fewer =>
      if Qle_bool (inject_Z 1024) size
      then scale fewer (size / inject_Z 1024)%Q (S unitIndex)
      else (size, unitIndex)
  end.

(** [formatFileSize], for a size in bytes as [stats.size] gives it: a
    non-negative integer. *)
Definition formatFileSize (bytes : N) : string :=
  let (size, unitIndex) :=
    scale (length units - 1) (inject_Z (Z.of_N bytes)) 0 in
  toFixed1 size +:+ " " +:+ nth unitIndex units "undefined".

(** What [fs.stat] tells about an entry, as far as it is read. *)
Record Stats := mkStats {
  statsIsDirectory : bool;   (* [stats.isDirectory()] *)
  statsIsFile : bool;        (* [stats.isFile()] *)
  statsSize : N;             (* [stats.size] *)
  mtimeText : string         (* [stats.mtime.toLocaleDateString()] *)
}.

Record FileInfo := mkFileInfo {
  name : string;
  isDirectory : bool;
  size : option N;           (* [None] is [undefined] *)
  modified : option string   (* the date, as it will be shown *)
}.

(** What the outside decides: the entries of the directory, what
    [fs.stat] settles to for each, and the order of names in the locale. *)
Record Env := mkEnv {
  cwd : Path;
  readdir : Result (list string);
  stat : string -> Result Stats;
  localeCompare : string -> string -> Z
}.

(** One line of output: a line of text, or the line of an entry with its
    pictograph (folder or page), its name and its details. *)
Inductive Shown :=
| Text (l : Line)
| Row (folder : bool) (name : string) (details : string).

(** The body of the [for] loop: an entry that cannot be examined is
    kept, as something that is not a directory. *)
Definition describe (env : Env) (item : string) : FileInfo :=
  match stat env item with
  | Ok stats =>
      mkFileInfo item (statsIsDirectory stats)
        (if statsIsFile stats then Some (statsSize stats) else None)
        (Some (mtimeText stats))
  | Throw _ => mkFileInfo item false None None
  end.

(** The comparator handed to [sort]. *)
Definition compareInfos (env : Env) (a b : FileInfo) : Z :=
  if isDirectory a && negb (isDirectory b) then -1
  else if negb (isDirectory a) && isDirectory b then 1
  else localeCompare env (name a) (name b).

(** [Array.prototype.sort] is stable; for a comparator that is
    consistent (as the comparison of names in a locale is) it yields the
    one sorted arrangement that keeps ties in their order, which is what
    insertion from the left yields. *)
Fixpoint insert (compare : FileInfo -> FileInfo -> Z) (x : FileInfo)
    (sorted : list FileInfo) : list FileInfo :=
  match sorted with
  | [] => [x]
  | y :: rest =>
      if compare x y <? 0 then x :: y :: rest
      else y :: insert compare x rest
  end.

Definition sort (compare : FileInfo -> FileInfo -> Z) (l : list FileInfo)
    : list FileInfo :=
  fold_left (fun sorted x => insert compare x sorted) l [].

(** The callback of [forEach]. *)
Definition display (item : FileInfo) : Shown :=
  let details :=
    (match size item with
     | Some bytes => " (" +:+ formatFileSize bytes +:+ ")"
     | None => ""
     end)
    +:+ (match modified item with
         | Some date => " - " +:+ date
         | None => ""
         end) in
  Row (isDirectory item) (name item) details.

Definition count (l : list FileInfo) : string :=
  decimal (Z.of_nat (length l)).

Definition totals (fileInfos : list FileInfo) : Line :=
  Log ("Total: " +:+ count fileInfos +:+ " items ("
         +:+ count (List.filter (fun f => isDirectory f) fileInfos)
         +:+ " directories, "
         +:+ count (List.filter (fun f => negb (isDirectory f)) fileInfos)
         +:+ " files)").

(** [listDirectoryContents]: the outcome and the lines written. *)
Definition listDirectoryContents (env : Env) (user : AuthUser)
    : Result unit * list Shown :=
  let header :=
    [ Text (Log ("Directory Contents for " +:+ default "null" (email user)));
      Text (Log ("Current directory: " +:+ pathString (cwd env))) ] in
  match readdir env with
  | Ok items =>
      if (length items =? 0)%nat then
        (Ok tt, header ++ [Text (Log "This directory is empty")])%list
      else
        let fileInfos := sort (compareInfos env) (map (describe env) items) in
        (Ok tt, header ++ map display fileInfos ++ [Text (totals fileInfos)])%list
  | Throw error =>
      (Ok tt,
       header ++ [Text (LogError ("Error listing directory contents: "
                                    +:+ message error))])%list
  end.

End Listing.

(** ** The earlier revision of [createZipFile] (unnamed/part_002)

    The glob is called without [dot] and without a prefix, and the
    ignore list names two directories only. *)

Module Earlier.

Definition ignoreList : list string := ["node_modules/**"; ".git/**"].

Definition archiveEntries (sourceDir : Path) (listing : list Node)
    : option (list ArchiveEntry) :=
  match glob "**/*" ignoreList false listing with
  | Some matches =>
      Some (map (fun e =>
                   mkArchiveEntry (relative e)
                     (sourceDir ++ relative e)%list (isDirectory e))
              matches)
  | None => None
  end.

Definition createZipFile (env : Env) (sourceDir outputPath : Path)
    : M unit :=
  fun w =>
    let opened := setDisk (<[outputPath := Partial]> (disk w)) w in
    match archiveError env with
    | Some err => (Throw err, opened)
    | None =>
        let written :=
          setDisk (<[outputPath := Zip (archiveEntries sourceDir (listing env))]>
                     (disk opened)) opened in
        print (Log "Archive size") written
    end.

End Earlier.

(** * More vocabulary *)

(** ** The publication request *)

(** The error the [catch] of [createAppInBackend] throws for the error
    it caught. *)
Definition rethrown (error : Error) : Error :=
  if String.eqb (name error) "AbortError" then newError timedOutMessage
  else if includes "fetch" (message error) then newError unreachableMessage
  else wrapped (message error).

(** Whether the request ends up aborted: it has not settled when the
    timer fires. *)
Definition abortedFlag (o : FetchOutcome) : bool :=
  match o with
  | Responds afterMs _ => negb (afterMs <? timeoutMs)%Z
  | Fails afterMs _ => negb (afterMs <? timeoutMs)%Z
  | Silent => true
  end.

(** The one request of a publication. *)
Definition publishRequest (env : Env) (token fileName appName : string)
    : Request :=
  mkRequest BACKEND_ENDPOINT "POST" token "application/json" fileName appName
    (abortedFlag (fetchOutcome env)).

(** ** What a run leaves on the remote side *)

(** The upload of an archive for a user. *)
Definition storedAs (user : AuthUser) (fileName : string) (archive : Blob)
    : Upload :=
  mkUpload ("source_files/" +:+ uid user +:+ "/" +:+ fileName)
    "application/zip" archive.

(** Nothing; or the upload alone; or the upload and then the request, which
    takes a token and an upload that completed. *)
Definition remoteEffects (env : Env) (user : AuthUser) (archive : Blob)
    (fileName appName : string) (w w' : World) : Prop :=
  (uploads w' = uploads w /\ requests w' = requests w)
  \/ (uploads w' = (uploads w ++ [storedAs user fileName archive])%list
      /\ requests w' = requests w)
  \/ (exists token,
        idToken user = Ok token
        /\ uploadError env = None /\ readFileError env = None
        /\ uploads w' = (uploads w ++ [storedAs user fileName archive])%list
        /\ requests w'
           = (requests w ++ [publishRequest env token fileName appName])%list).

(** The app name the workflow goes on with. *)
Definition chosenName (env : Env) : string :=
  trim (default "" (Prompt.appName (textPrompt validate (keys env)))).

(** The archive [createZipFile] writes in a run of [createApp]. *)
Definition archiveOf (env : Env) : Blob :=
  Zip (archiveEntries (cwd env) (tempZipPathOf env) (listing env)).

(** Every path but [p] holds what it held. *)
Definition sameElsewhere (p : Path) (w w' : World) : Prop :=
  forall q, q <> p -> disk w' !! q = disk w !! q.

(** The three directory names of the ignore list. *)
Definition ignoredDirectories : list string := ["node_modules"; ".git"; "dist"].

(** ** Email addresses and credentials *)

Fixpoint allChars (p : ascii -> bool) (s : string) : bool :=
  match s with
  | EmptyString => true
  | String c rest => p c && allChars p rest
  end.

(** A character an address part may hold: no white space, no at sign. *)
Definition addressChar (c : ascii) : bool :=
  negb (isWhiteSpace c) && negb (Ascii.eqb c "@").

(** A part of an address: not empty, of such characters only. *)
Definition addressPart (s : string) : bool :=
  negb (String.eqb s "") && allChars addressChar s.

(** Credentials that pass the two [validate] callbacks. *)
Definition validCredentials (email password : string) : Prop :=
  AuthManager.validateEmail email = Accepted
  /\ AuthManager.validatePassword password = Accepted.

(** The credentials a round ends up with. *)
Definition emailOf (r : AuthManager.Round) : string :=
  default "" (AuthManager.answer
                (textPrompt AuthManager.validateEmail (AuthManager.emailKeys r))).

Definition passwordOf (r : AuthManager.Round) : string :=
  default "" (AuthManager.answer
                (textPrompt AuthManager.validatePassword (AuthManager.passwordKeys r))).

(** Both questions of a round are answered. *)
Definition answersBoth (r : AuthManager.Round) : bool :=
  negb (AuthManager.unanswered
          (textPrompt AuthManager.validateEmail (AuthManager.emailKeys r)))
  && negb (AuthManager.unanswered
             (textPrompt AuthManager.validatePassword (AuthManager.passwordKeys r))).

(** The provider call a round makes: a sign-in when that entry was
    chosen in the menu, an account creation otherwise. *)
Definition callOf (r : AuthManager.Round) : ProviderCall :=
  if AuthManager.actionIs (option_map AuthManager.choiceValue (AuthManager.menu r))
       "signin"
  then SignInCall (emailOf r) (passwordOf r)
  else SignUpCall (emailOf r) (passwordOf r).

Definition validCall (c : ProviderCall) : Prop :=
  match c with
  | SignInCall email password => validCredentials email password
  | SignUpCall email password => validCredentials email password
  | SignOutCall => False
  end.

(** What the provider answers to the credentials of a round. *)
Definition answerOf (r : AuthManager.Round) : ProviderOutcome :=
  AuthManager.provider r (emailOf r) (passwordOf r).

(** ** What authentication leaves alone *)

(** The local disk, the object store and the backend, and the variable
    [currentUser]. *)
Definition outsideKept (s s' : State) : Prop :=
  disk (world s') = disk (world s)
  /\ uploads (world s') = uploads (world s)
  /\ requests (world s') = requests (world s)
  /\ currentUser s' = currentUser s.

Definition said (l : Line) (s : State) : Prop := In l (console (world s)).

(** A round whose credentials the provider turned down. *)
Definition rejected (r : AuthManager.Round) : Prop :=
  exists code, answerOf r = ProviderError code.

(** A round in which the provider was called. *)
Definition reachesProvider (r : AuthManager.Round) : Prop :=
  AuthManager.menu r <> Some AuthManager.ExitChoice /\ answersBoth r = true.

(** The local disk, the object store and the backend are as before. *)
Definition worldKept (s s' : State) : Prop :=
  disk (world s') = disk (world s)
  /\ uploads (world s') = uploads (world s)
  /\ requests (world s') = requests (world s).

(** The user a process is authenticated as: the one of the session that
    is already there, or else one the provider accepted in a round. *)
Definition authenticatedAs (env : AuthManager.Env) (user : AuthUser) : Prop :=
  AuthManager.authState env = Some user
  \/ (AuthManager.authState env = None
      /\ exists r, In r (AuthManager.rounds env) /\ reachesProvider r
                   /\ answerOf r = Credential user).

(** The [try] block of [anomaly auth login]. *)
Definition loginBody (env : AuthManager.Env) : P unit :=
  bindP (AuthManager.promptAuthentication (AuthManager.rounds env))
    (fun user =>
       bindP (setCurrentUser (Some user))
         (fun _ => say (Log ("Welcome, " +:+ emailText user +:+ "!")))).

(** ** File sizes *)

(** The unit a size is shown in: the number of times 1024 goes into it,
    three at most. *)
Definition unitOf (bytes : Z) : nat :=
  if bytes <? 1024 then 0%nat
  else if bytes <? 1024 ^ 2 then 1%nat
  else if bytes <? 1024 ^ 3 then 2%nat
  else 3%nat.

(** The size in tenths of that unit, rounded to the nearest, half up. *)
Definition tenthsOf (bytes : Z) : Z :=
  let d := 1024 ^ Z.of_nat (unitOf bytes) in
  (20 * bytes + d) / (2 * d).

(** A number of tenths written with one digit after the point. *)
Definition oneDecimal (tenths : Z) : string :=
  decimal (tenths / 10) +:+ "." +:+ decimal (tenths mod 10).

(** ** Directory listings *)

(** The two lines every listing starts with. *)
Definition listingHeader (env : Listing.Env) (user : AuthUser)
    : list Listing.Shown :=
  [ Listing.Text (Log ("Directory Contents for " +:+ default "null" (email user)));
    Listing.Text (Log ("Current directory: " +:+ pathString (Listing.cwd env))) ].

(** The last line of a listing, from the three counts. *)
Definition totalsLine (items folders files : nat) : Listing.Shown :=
  Listing.Text
    (Log ("Total: " +:+ decimal (Z.of_nat items) +:+ " items ("
            +:+ decimal (Z.of_nat folders) +:+ " directories, "
            +:+ decimal (Z.of_nat files) +:+ " files)")).

(** Directories first: once an entry is not a directory, none after it
    is one. *)
Fixpoint grouped (l : list Listing.FileInfo) : bool :=
  match l with
  | [] => true
  | y :: rest =>
      (Listing.isDirectory y
       || forallb (fun f => negb (Listing.isDirectory f)) rest)
      && grouped rest
  end.

(** A comparison of names that is consistent: two names are never each
    after the other, and being not after is transitive. *)
Record Consistent (compare : string -> string -> Z) : Prop := {
  consistent_total : forall a b, 0 <= compare a b -> compare b a <= 0;
  consistent_trans :
    forall a b c, compare a b <= 0 -> compare b c <= 0 -> compare a c <= 0
}.

(** The order of names by code units, as a comparison. *)
Definition byCodeUnits (a b : string) : Z :=
  match String.compare a b with
  | Lt => -1
  | Eq => 0
  | Gt => 1
  end.

(** A directory with a folder, two files and a socket that cannot be
    examined. *)
Definition listingSample : Listing.Env :=
  Listing.mkEnv ["home"; "dev"; "shop"]
    (Ok ["index.ts"; "run.sock"; "src"; "README.md"])
    (fun item =>
       if String.eqb item "src" then
         Ok (Listing.mkStats true false 4096 "1/2/2025")
       else if String.eqb item "run.sock" then
         Throw (mkError "Error" "EACCES: permission denied")
       else Ok (Listing.mkStats false true 1536 "1/2/2025"))
    byCodeUnits.

(** ** The earlier revision of the archive *)

(** An entry with a hidden segment somewhere in its path. *)
Definition hidden (e : Entry) : bool :=
  existsb (String.prefix ".") (relative e).

(** The project of [envOk] as the walk meets it while the archive is
    being written into it. *)
Definition listingWithArchive : list Node :=
  [File "index.ts"; File ".env"; File "shop-1700000000000.zip"].

(** ** More sample runs *)

(** The archiver fails. *)
Definition envArchiveFails : CreateApp.Env :=
  withArchiveError (Some (newError "EACCES: permission denied")) envOk.

(** The project directory is named [app[v2]]: the walk meets the archive
    being written, and a file whose name differs from the archive's in the
    bracketed part. *)
Definition envBracketed : CreateApp.Env :=
  mkEnv ["home"; "dev"; "app[v2]"] 1700000000000 [Submit "demo"]
    [File "index.ts"; File "app[v2]-1700000000000.zip";
     File "app2-1700000000000.zip"]
    None None [mkSnapshot 0 10; mkSnapshot 10 10] None
    (Responds 120 (response200 (JObject [("appId", JString "abc123")]))) None
    exact.

(** The backend answers 500, and its text mentions a fetch. *)
Definition envBackendDown : CreateApp.Env :=
  withFetch (Responds 80 (mkResponse 500 "Internal Server Error"
                            (Throw (mkError "SyntaxError" "Unexpected token"))
                            (Ok "upstream fetch failed")))
    envOk.

(** A monorepo: a dependency directory at the top and one further down,
    and a file named like the build directory. *)
Definition monorepo : list Node :=
  [ Dir "packages" [Dir "web" [Dir "node_modules" [File "react.js"]]];
    Dir "node_modules" [File "left-pad.js"];
    File "dist" ].

Definition state0 : State := mkState world0 [] None.

(** A sign-in the provider accepts. *)
Definition roundAccepted : AuthManager.Round :=
  AuthManager.mkRound (Some AuthManager.SignInChoice)
    [Submit "dev"; Submit "dev@example.com"] [Submit "secret1"]
    (fun _ _ => Credential user0) None.

(** A sign-in with a wrong password, not tried again. *)
Definition roundRejected : AuthManager.Round :=
  AuthManager.mkRound (Some AuthManager.SignInChoice)
    [Submit "dev@example.com"] [Submit "letmein"]
    (fun _ _ => ProviderError "auth/wrong-password") (Some false).

(** The menu is left with the escape key, the questions are answered. *)
Definition roundMenuAborted : AuthManager.Round :=
  AuthManager.mkRound None
    [Submit "dev@example.com"] [Submit "secret1"]
    (fun _ _ => Credential user0) None.

(** The password question is aborted. *)
Definition roundNoPassword : AuthManager.Round :=
  AuthManager.mkRound (Some AuthManager.SignInChoice)
    [Submit "dev@example.com"] [Submit "abc"; Abort]
    (fun _ _ => Credential user0) None.

(** * Authentication errors *)

(** The message is the code itself only for the one string that is the
    generic message. *)
Lemma getAuthErrorMessage_cases (errorCode : string) :
  In errorCode knownCodes
  /\ In (getAuthErrorMessage errorCode) specificMessages
  /\ getAuthErrorMessage errorCode <> errorCode
  \/ ~ In errorCode knownCodes
     /\ getAuthErrorMessage errorCode = genericMessage.
Proof.
  unfold getAuthErrorMessage, knownCodes, specificMessages, genericMessage.
  repeat match goal with
  | |- context [String.eqb errorCode ?c] =>
      destruct (String.eqb_spec errorCode c) as [-> | ?];
      [ left; repeat split; [ simpl; tauto | simpl; tauto | discriminate ] | ]
  end.
  right. split; [ simpl; intuition congruence | reflexivity ].
Qed.

(** C9: [getAuthErrorMessage] is the table of the [switch]: the two codes
    for invalid credentials, and the codes for an existing account, a weak
    password, an invalid email and rate limiting, each get the message
    written out below; every other code gets the generic message.  The
    function is total, its result is always one of these seven texts, none
    of which has the form of a provider code; the result is the code handed
    in only when that is the generic message itself.  A failing [signIn] or
    [signUp] throws an error with exactly the mapped message. *)
Theorem getAuthErrorMessage_stable (errorCode : string) :
  getAuthErrorMessage "auth/user-not-found"
    = "No account found with this email address."
  /\ getAuthErrorMessage "auth/wrong-password" = "Incorrect password."
  /\ getAuthErrorMessage "auth/email-already-in-use"
     = "An account with this email already exists."
  /\ getAuthErrorMessage "auth/weak-password"
     = "Password should be at least 6 characters."
  /\ getAuthErrorMessage "auth/invalid-email" = "Invalid email address."
  /\ getAuthErrorMessage "auth/too-many-requests"
     = "Too many failed attempts. Please try again later."
  /\ map getAuthErrorMessage knownCodes = specificMessages
  /\ (~ In errorCode knownCodes ->
      getAuthErrorMessage errorCode
        = "Authentication failed. Please try again.")
  /\ In (getAuthErrorMessage errorCode) (specificMessages ++ [genericMessage])
  /\ String.prefix "auth/" (getAuthErrorMessage errorCode) = false
  /\ (getAuthErrorMessage errorCode = errorCode <-> errorCode = genericMessage)
  /\ (forall provider email password,
        provider email password = ProviderError errorCode ->
        signIn provider email password
          = Throw (newError (getAuthErrorMessage errorCode))
        /\ signUp provider email password
          = Throw (newError (getAuthErrorMessage errorCode))).
Proof.
  pose proof (getAuthErrorMessage_cases errorCode) as Hcases.
  assert (Hin : In (getAuthErrorMessage errorCode)
                  (specificMessages ++ [genericMessage])).
  { apply in_or_app.
    destruct Hcases as [(_ & H & _) | [_ H]];
      [ now left | right; rewrite H; now left ]. }
  do 7 (split; [ reflexivity | ]).
  split; [ | split; [ exact Hin | split; [ | split ] ] ].
  - intros Hn. destruct Hcases as [(Hk & _) | [_ H]]; [ contradiction | exact H ].
  - unfold specificMessages, genericMessage in Hin. simpl in Hin.
    repeat (destruct Hin as [<- | Hin]; [ reflexivity | ]).
    contradiction.
  - split.
    + intros Heq. destruct Hcases as [(_ & _ & Hne) | [_ H]];
        [ contradiction | congruence ].
    + intros ->. reflexivity.
  - intros provider email password H. unfold signIn, signUp. rewrite H.
    split; reflexivity.
Qed.

(** A code the [switch] does not name, and the fixed point. *)
Lemma getAuthErrorMessage_stable_witness :
  getAuthErrorMessage "auth/quota-exceeded"
    = "Authentication failed. Please try again."
  /\ getAuthErrorMessage "Authentication failed. Please try again."
     = "Authentication failed. Please try again.".
Proof.
  split.
  - destruct (getAuthErrorMessage_stable "auth/quota-exceeded")
      as (_ & _ & _ & _ & _ & _ & _ & Hgeneric & _).
    apply Hgeneric. simpl. intuition discriminate.
  - destruct (getAuthErrorMessage_stable "Authentication failed. Please try again.")
      as (_ & _ & _ & _ & _ & _ & _ & _ & _ & _ & Hfix & _).
    apply Hfix. reflexivity.
Defined.

(** * The app-name prompt *)

Lemma validate_cases (value : string) :
  ((String.length value < 3)%nat /\
     validate value = Rejected "App name must be at least 3 characters long")
  \/ ((50 < String.length value)%nat /\
     validate value = Rejected "App name must be less than 50 characters")
  \/ ((3 <= String.length value <= 50)%nat /\ validate value = Accepted).
Proof.
  unfold validate.
  destruct (Nat.ltb_spec (String.length value) 3) as [Hlt | Hge].
  - left. split; [ exact Hlt | reflexivity ].
  - destruct (Nat.ltb_spec 50 (String.length value)) as [Hgt | Hle].
    + right; left. split; [ exact Hgt | reflexivity ].
    + right; right. split; [ lia | reflexivity ].
Qed.

(** C4: the validator accepts an input exactly when its length is between
    3 and 50; a shorter or longer input is rejected with a message, which
    the prompt displays before it goes on with what the user types next;
    an input of accepted length becomes the answer. *)
Theorem appName_length_validation (value : string) (rest : list Key) :
  (validate value = Accepted <-> (3 <= String.length value <= 50)%nat)
  /\ ((String.length value < 3 \/ 50 < String.length value)%nat ->
      exists msg,
        validate value = Rejected msg
        /\ textPrompt validate (Submit value :: rest)
           = mkAnswers (Prompt.appName (textPrompt validate rest))
               (msg :: shown (textPrompt validate rest)))
  /\ ((3 <= String.length value <= 50)%nat ->
      textPrompt validate (Submit value :: rest) = mkAnswers (Some value) []).
Proof.
  destruct (validate_cases value) as [[Hlen Hv] | [[Hlen Hv] | [Hlen Hv]]].
  - split; [ | split ].
    + rewrite Hv. split; [ discriminate | lia ].
    + intros _. eexists. split; [ exact Hv | ]. simpl. rewrite Hv. reflexivity.
    + lia.
  - split; [ | split ].
    + rewrite Hv. split; [ discriminate | lia ].
    + intros _. eexists. split; [ exact Hv | ]. simpl. rewrite Hv. reflexivity.
    + lia.
  - split; [ | split ].
    + rewrite Hv. split; [ intros _; exact Hlen | reflexivity ].
    + lia.
    + intros _. simpl. rewrite Hv. reflexivity.
Qed.

(** A name of two characters is turned down, the next one is taken. *)
Lemma appName_length_validation_witness :
  validate "demo" = Accepted
  /\ textPrompt validate [Submit "ab"; Submit "demo"]
     = mkAnswers (Some "demo") ["App name must be at least 3 characters long"].
Proof.
  destruct (appName_length_validation "demo" []) as (Hiff & _ & Hacc).
  destruct (appName_length_validation "ab" [Submit "demo"]) as (_ & Hrej & _).
  split.
  - apply Hiff. simpl. lia.
  - destruct Hrej as (msg & Hmsg & Hrun); [ left; simpl; lia | ].
    rewrite Hrun. rewrite Hacc; [ | simpl; lia ]. simpl.
    vm_compute in Hmsg. injection Hmsg as <-. reflexivity.
Defined.

(** Whatever the prompt answers has passed the validator as typed. *)
Lemma textPrompt_validated (keys : list Key) (value : string) :
  Prompt.appName (textPrompt validate keys) = Some value ->
  validate value = Accepted.
Proof.
  induction keys as [ | [v | ] rest IH ]; simpl; try discriminate.
  destruct (validate v) eqn:Hv; simpl.
  - intros [= <-]. exact Hv.
  - exact IH.
Qed.

(** * Frame rules for the workflow *)

#[export] Instance sameDisk_frame : Frame sameDisk.
Proof. split; unfold sameDisk; congruence. Qed.

#[export] Instance sameUploads_frame : Frame sameUploads.
Proof. split; unfold sameUploads; congruence. Qed.

#[export] Instance sameRequests_frame : Frame sameRequests.
Proof. split; unfold sameRequests; congruence. Qed.

#[export] Instance consoleGrows_frame : Frame consoleGrows.
Proof.
  split.
  - intros w. exists []. now rewrite app_nil_r.
  - intros a b c [m1 H1] [m2 H2]. exists (m1 ++ m2)%list.
    rewrite H2, H1. now rewrite app_assoc.
Qed.

#[export] Instance sendsName_frame a : Frame (sendsName a).
Proof.
  split.
  - intros w r Hr. now left.
  - intros x y z Hxy Hyz r Hr.
    destruct (Hyz r Hr) as [Hy | Hn]; [ apply Hxy, Hy | now right ].
Qed.

Section FrameRules.
Context (R : World -> World -> Prop) `{!Frame R}.

Lemma keeps_ret {A} (a : A) : keeps R (ret a).
Proof. intros w. apply frame_refl. Qed.

Lemma keeps_throw {A} (e : Error) : keeps R (@throw A e).
Proof. intros w. apply frame_refl. Qed.

Lemma keeps_settle {A} (r : Result A) : keeps R (settle r).
Proof. intros w. apply frame_refl. Qed.

Lemma keeps_bind {A B} (m : M A) (k : A -> M B) :
  keeps R m -> (forall a, keeps R (k a)) -> keeps R (bind m k).
Proof.
  intros Hm Hk w. unfold bind. specialize (Hm w).
  destruct (m w) as [[a | e] w1]; simpl in *.
  - eapply frame_trans; [ exact Hm | apply Hk ].
  - exact Hm.
Qed.

Lemma keeps_tryCatch {A} (body : M A) (handler : Error -> M A) :
  keeps R body -> (forall e, keeps R (handler e)) ->
  keeps R (tryCatch body handler).
Proof.
  intros Hm Hk w. unfold tryCatch. specialize (Hm w).
  destruct (body w) as [[a | e] w1]; simpl in *.
  - exact Hm.
  - eapply frame_trans; [ exact Hm | apply Hk ].
Qed.

Lemma keeps_tryFinally {A} (body : M A) (finalizer : M unit) :
  keeps R body -> keeps R finalizer -> keeps R (tryFinally body finalizer).
Proof.
  intros Hm Hf w. unfold tryFinally. specialize (Hm w).
  destruct (body w) as [r w1]; simpl in *.
  specialize (Hf w1). destruct (finalizer w1) as [[u | e] w2]; simpl in *;
    eapply frame_trans; eauto.
Qed.
End FrameRules.

Create HintDb frame.

(** Walks down the binds, tries and branches of a computation and leaves
    the primitive effects to the hints. *)
Ltac frame_steps :=
  repeat first
    [ apply keeps_bind; [ typeclasses eauto | | intros ? ]
    | apply keeps_tryCatch; [ typeclasses eauto | | intros ? ]
    | apply keeps_tryFinally; [ typeclasses eauto | | ]
    | apply keeps_ret; typeclasses eauto
    | apply keeps_throw; typeclasses eauto
    | apply keeps_settle; typeclasses eauto
    | match goal with |- keeps _ (match ?x with _ => _ end) => destruct x end
    | match goal with |- keeps _ (if ?x then _ else _) => destruct x end
    | match goal with |- keeps _ (let _ := _ in _) => cbv zeta end
    | progress unfold fetch ];
  auto with frame.

(** The primitive effects, one world component at a time. *)
Ltac leaf :=
  intros w;
  unfold print, prints, recordUpload, recordRequest, readFile, unlink,
    createZipFile, setDisk, sameDisk, sameUploads, sameRequests, consoleGrows;
  repeat case_match; simpl;
  first [ reflexivity | eexists; reflexivity
        | exists []; symmetry; apply app_nil_r ].

Lemma print_sameDisk l : keeps sameDisk (print l).
Proof. leaf. Qed.
Lemma print_sameUploads l : keeps sameUploads (print l).
Proof. leaf. Qed.
Lemma print_sameRequests l : keeps sameRequests (print l).
Proof. leaf. Qed.
Lemma print_consoleGrows l : keeps consoleGrows (print l).
Proof. leaf. Qed.
Lemma prints_sameDisk l : keeps sameDisk (prints l).
Proof. leaf. Qed.
Lemma prints_sameUploads l : keeps sameUploads (prints l).
Proof. leaf. Qed.
Lemma prints_sameRequests l : keeps sameRequests (prints l).
Proof. leaf. Qed.
Lemma prints_consoleGrows l : keeps consoleGrows (prints l).
Proof. leaf. Qed.
Lemma recordUpload_sameDisk u : keeps sameDisk (recordUpload u).
Proof. leaf. Qed.
Lemma recordUpload_sameRequests u : keeps sameRequests (recordUpload u).
Proof. leaf. Qed.
Lemma recordUpload_consoleGrows u : keeps consoleGrows (recordUpload u).
Proof. leaf. Qed.
Lemma recordRequest_sameDisk r : keeps sameDisk (recordRequest r).
Proof. leaf. Qed.
Lemma recordRequest_sameUploads r : keeps sameUploads (recordRequest r).
Proof. leaf. Qed.
Lemma recordRequest_consoleGrows r : keeps consoleGrows (recordRequest r).
Proof. leaf. Qed.
Lemma readFile_sameDisk env p : keeps sameDisk (readFile env p).
Proof. leaf. Qed.
Lemma readFile_sameUploads env p : keeps sameUploads (readFile env p).
Proof. leaf. Qed.
Lemma readFile_sameRequests env p : keeps sameRequests (readFile env p).
Proof. leaf. Qed.
Lemma readFile_consoleGrows env p : keeps consoleGrows (readFile env p).
Proof. leaf. Qed.
Lemma unlink_sameUploads env p : keeps sameUploads (unlink env p).
Proof. leaf. Qed.
Lemma unlink_sameRequests env p : keeps sameRequests (unlink env p).
Proof. leaf. Qed.
Lemma unlink_consoleGrows env p : keeps consoleGrows (unlink env p).
Proof. leaf. Qed.
Lemma createZipFile_sameUploads env s o : keeps sameUploads (createZipFile env s o).
Proof. leaf. Qed.
Lemma createZipFile_sameRequests env s o : keeps sameRequests (createZipFile env s o).
Proof. leaf. Qed.
Lemma createZipFile_consoleGrows env s o : keeps consoleGrows (createZipFile env s o).
Proof. leaf. Qed.

#[export] Hint Resolve print_sameDisk print_sameUploads print_sameRequests
  print_consoleGrows prints_sameDisk prints_sameUploads prints_sameRequests
  prints_consoleGrows recordUpload_sameDisk recordUpload_sameRequests
  recordUpload_consoleGrows recordRequest_sameDisk recordRequest_sameUploads
  recordRequest_consoleGrows readFile_sameDisk readFile_sameUploads
  readFile_sameRequests readFile_consoleGrows unlink_sameUploads
  unlink_sameRequests unlink_consoleGrows createZipFile_sameUploads
  createZipFile_sameRequests createZipFile_consoleGrows : frame.

Lemma sameRequests_sendsName a {A} (m : M A) :
  keeps sameRequests m -> keeps (sendsName a) m.
Proof. intros H w r Hr. left. rewrite <- (H w). exact Hr. Qed.

Lemma recordRequest_sendsName a r :
  bodyAppName r = a -> keeps (sendsName a) (recordRequest r).
Proof.
  intros <- w r' Hr'. simpl in Hr'. apply in_app_or in Hr'.
  destruct Hr' as [H | [<- | []]]; [ now left | now right ].
Qed.

#[export] Hint Extern 1 (keeps (sendsName _) (recordRequest _)) =>
  apply recordRequest_sendsName; reflexivity : frame.
#[export] Hint Extern 5 (keeps (sendsName _) _) =>
  apply sameRequests_sendsName : frame.

Lemma consoleGrows_In w w' l :
  consoleGrows w w' -> In l (console w) -> In l (console w').
Proof. intros [more ->] Hin. apply in_or_app. now left. Qed.

Lemma uploadAndPublish_sameDisk env p z a user :
  keeps sameDisk (uploadAndPublish env p z a user).
Proof. unfold uploadAndPublish. frame_steps. Qed.

Lemma outerCatch_sameDisk r : keeps sameDisk (outerCatch r).
Proof. unfold outerCatch. frame_steps. Qed.

Lemma outerCatch_consoleGrows r : keeps consoleGrows (outerCatch r).
Proof. unfold outerCatch. frame_steps. Qed.

Lemma createApp_sendsName env user :
  keeps (sendsName (trim (default "" (Prompt.appName (textPrompt validate (keys env))))))
    (createApp env user).
Proof. unfold createApp. frame_steps. Qed.

(** * The create-app workflow, stage by stage *)

(** Without a name the workflow stops after the prompt. *)
Lemma createApp_cancelled env user w :
  noAppName (Prompt.appName (textPrompt validate (keys env))) = true ->
  createApp env user w =
    (Ok tt,
     mkWorld (disk w)
       (console w ++ [greeting user]
          ++ map ValidationMessage (shown (textPrompt validate (keys env)))
          ++ [Log "App creation cancelled by user"])%list
       (uploads w) (requests w)).
Proof.
  intros Hno. unfold createApp, tryCatch, bind, print, prints, greeting. simpl.
  rewrite Hno. simpl. rewrite <- !app_assoc. reflexivity.
Qed.

Lemma cleanup_ok env p w : fst (cleanup env p w) = Ok tt.
Proof.
  unfold cleanup, tryCatch, bind, unlink, print.
  repeat case_match; simplify_eq; reflexivity.
Qed.

(** With a name and an archive, the workflow is the upload and the
    publication, then the cleanup, then the outer handler. *)
Lemma createApp_archived env user w :
  noAppName (Prompt.appName (textPrompt validate (keys env))) = false ->
  archiveError env = None ->
  createApp env user w =
    let appName := trim (default "" (Prompt.appName (textPrompt validate (keys env)))) in
    let (r, w2) := uploadAndPublish env (tempZipPathOf env) (zipFileNameOf env)
                     appName user (worldAfterArchive env user w) in
    outerCatch r (snd (cleanup env (tempZipPathOf env) w2)).
Proof.
  intros Hno Harch.
  unfold createApp, tryCatch, bind, tryFinally, print, prints, createZipFile.
  simpl. rewrite Hno. simpl. rewrite Harch. simpl.
  unfold worldAfterArchive, greeting, tempZipPathOf, zipFileNameOf, setDisk.
  simpl. rewrite <- !app_assoc. simpl.
  match goal with |- context [uploadAndPublish ?e ?p ?z ?a ?u ?w] =>
    destruct (uploadAndPublish e p z a u w) as [r w2] end.
  pose proof (cleanup_ok env
                (join (cwd env)
                   (basename (cwd env) +:+ "-" +:+ decimal (now env) +:+ ".zip"))
                w2) as Hc.
  destruct (cleanup _ _ w2) as [rc w3]. simpl in Hc. subst rc. simpl.
  destruct r as [[] | e]; simpl; [ reflexivity | ].
  unfold outerCatch, print, bind, throw.
  destruct (String.eqb (name e) "ExitPromptError"); reflexivity.
Qed.

(** With a name but an archiver error, the workflow ends in the outer
    handler at once: the file the write stream created is still there. *)
Lemma createApp_archive_failed env user w err :
  noAppName (Prompt.appName (textPrompt validate (keys env))) = false ->
  archiveError env = Some err ->
  disk (snd (createApp env user w))
  = <[tempZipPathOf env := Partial]> (disk w)
  /\ fst (createApp env user w)
     = if String.eqb (name err) "ExitPromptError" then Ok tt else Throw err.
Proof.
  intros Hno Harch.
  unfold createApp, tryCatch, bind, tryFinally, print, prints, createZipFile, throw.
  simpl. rewrite Hno. simpl. rewrite Harch. simpl.
  destruct (String.eqb (name err) "ExitPromptError"); simpl;
    split; reflexivity.
Qed.

Lemma outerCatch_fst r w w' : fst (outerCatch r w) = fst (outerCatch r w').
Proof.
  unfold outerCatch, print, bind, throw.
  destruct r as [[] | e]; [ reflexivity | ].
  destruct (String.eqb (name e) "ExitPromptError"); reflexivity.
Qed.

Lemma cleanup_deletes env p w b :
  unlinkError env = None -> disk w !! p = Some b ->
  disk (snd (cleanup env p w)) = delete p (disk w)
  /\ In (Log "Temporary files cleaned up") (console (snd (cleanup env p w))).
Proof.
  intros Hu Hp. unfold cleanup, tryCatch, bind, unlink, print.
  rewrite Hu, Hp. simpl. split; [ reflexivity | ].
  apply in_or_app. right. now left.
Qed.

Lemma cleanup_warns env p w e :
  unlinkError env = Some e ->
  disk (snd (cleanup env p w)) = disk w
  /\ In cleanupWarning (console (snd (cleanup env p w))).
Proof.
  intros Hu. unfold cleanup, tryCatch, bind, unlink, print.
  rewrite Hu. simpl. split; [ reflexivity | ].
  apply in_or_app. right. now left.
Qed.

(** C1, as the code has it: in every run in which the prompt gave a name
    and the archive was written, whether the upload and the publication
    then succeed or fail, the removal of the temporary archive is attempted
    before the workflow ends; when the removal succeeds the file is gone at
    the end; when the removal fails the warning is logged; and the outcome
    of the workflow (success or the error) does not depend on whether the
    removal succeeded. *)
Theorem cleanup_after_archive (env : Env) (user : AuthUser) (w : World) :
  noAppName (Prompt.appName (textPrompt validate (keys env))) = false ->
  archiveError env = None ->
  let w' := snd (createApp env user w) in
  (unlinkError env = None ->
     disk w' !! tempZipPathOf env = None
     /\ In (Log "Temporary files cleaned up") (console w'))
  /\ (forall e, unlinkError env = Some e -> In cleanupWarning (console w'))
  /\ (forall e', fst (createApp (setUnlinkError e' env) user w)
                 = fst (createApp env user w)).
Proof.
  intros Hno Harch w'. subst w'.
  rewrite (createApp_archived env user w Hno Harch). cbv zeta.
  pose proof (uploadAndPublish_sameDisk env (tempZipPathOf env) (zipFileNameOf env)
                (trim (default "" (Prompt.appName (textPrompt validate (keys env)))))
                user (worldAfterArchive env user w)) as Hd.
  split; [ | split ].
  - intros Hu.
    destruct (uploadAndPublish _ _ _ _ _ _) as [r w2]. simpl in Hd. red in Hd.
    assert (Hp : disk w2 !! tempZipPathOf env
                 = Some (Zip (archiveEntries (cwd env) (tempZipPathOf env)
                                (listing env)))).
    { rewrite Hd. unfold worldAfterArchive. simpl. apply lookup_insert_eq. }
    destruct (cleanup_deletes env _ w2 _ Hu Hp) as [Hdel Hlog].
    split.
    + rewrite (outerCatch_sameDisk r _). rewrite Hdel. apply lookup_delete_eq.
    + eapply consoleGrows_In; [ apply outerCatch_consoleGrows | exact Hlog ].
  - intros e Hu.
    destruct (uploadAndPublish _ _ _ _ _ _) as [r w2].
    destruct (cleanup_warns env (tempZipPathOf env) w2 e Hu) as [_ Hlog].
    eapply consoleGrows_In; [ apply outerCatch_consoleGrows | exact Hlog ].
  - intros e'.
    rewrite (createApp_archived (setUnlinkError e' env) user w Hno Harch). cbv zeta.
    change (uploadAndPublish (setUnlinkError e' env)) with (uploadAndPublish env).
    change (tempZipPathOf (setUnlinkError e' env)) with (tempZipPathOf env).
    change (zipFileNameOf (setUnlinkError e' env)) with (zipFileNameOf env).
    change (worldAfterArchive (setUnlinkError e' env) user w)
      with (worldAfterArchive env user w).
    change (keys (setUnlinkError e' env)) with (keys env).
    destruct (uploadAndPublish _ _ _ _ _ _) as [r w2].
    apply outerCatch_fst.
Qed.

(** The successful sample run leaves no archive behind, and ends the same
    way when the removal is refused. *)
Lemma cleanup_after_archive_witness :
  disk (snd (createApp envOk user0 world0)) !! tempZipPathOf envOk = None
  /\ fst (createApp (setUnlinkError (Some (newError "EPERM")) envOk) user0 world0)
     = fst (createApp envOk user0 world0).
Proof.
  destruct (cleanup_after_archive envOk user0 world0) as (Hgone & _ & Hsame);
    [ reflexivity | reflexivity | ].
  split.
  - exact (proj1 (Hgone eq_refl)).
  - exact (Hsame _).
Defined.

(** C1 as stated fails twice.  When the archiver reports an error, the
    file the write stream created stays: the archiving step sits before
    the [try ... finally].  When the removal itself is refused, the
    workflow succeeds and the finished archive stays. *)
Lemma cleanup_counterexample :
  let failing := withArchiveError (Some (newError "EACCES: permission denied")) envOk in
  let stuck := setUnlinkError (Some (newError "EPERM: operation not permitted")) envOk in
  (noAppName (Prompt.appName (textPrompt validate (keys failing))) = false
   /\ disk (snd (createApp failing user0 world0)) !! tempZipPathOf failing
      = Some Partial)
  /\ (noAppName (Prompt.appName (textPrompt validate (keys stuck))) = false
      /\ fst (createApp stuck user0 world0) = Ok tt
      /\ disk (snd (createApp stuck user0 world0)) !! tempZipPathOf stuck <> None).
Proof.
  vm_compute. repeat split; discriminate.
Qed.

(** C5, as the code has it: when the prompt ends without an app name (the
    user aborts it), the workflow ends without error: nothing is written to
    the disk, nothing is uploaded, no request is sent, and the process exit
    status is 0.  An empty line is not such a cancellation: the validator
    turns it down like any input shorter than 3, and the prompt goes on. *)
Theorem cancel_by_abort (env : Env) (user : AuthUser) (w : World) :
  noAppName (Prompt.appName (textPrompt validate (keys env))) = true ->
  (fst (createApp env user w) = Ok tt
   /\ fst (init env user w) = 0%Z
   /\ disk (snd (init env user w)) = disk w
   /\ uploads (snd (init env user w)) = uploads w
   /\ requests (snd (init env user w)) = requests w
   /\ In (Log "App creation cancelled by user") (console (snd (init env user w))))
  /\ (forall rest,
        textPrompt validate (Submit "" :: rest)
        = mkAnswers (Prompt.appName (textPrompt validate rest))
            ("App name must be at least 3 characters long"
               :: shown (textPrompt validate rest))).
Proof.
  intros Hno. split; [ | intros rest; reflexivity ].
  unfold init. rewrite (createApp_cancelled env user w Hno).
  cbn [fst snd exitStatus disk uploads requests console].
  repeat split.
  rewrite !in_app_iff. right; right; right. now left.
Qed.

(** An empty line, then an abort: exit status 0 and nothing uploaded. *)
Lemma cancel_by_abort_witness :
  fst (init (withKeys [Submit ""; Abort] envOk) user0 world0) = 0%Z
  /\ uploads (snd (init (withKeys [Submit ""; Abort] envOk) user0 world0)) = [].
Proof.
  destruct (cancel_by_abort (withKeys [Submit ""; Abort] envOk) user0 world0)
    as [(_ & Hs & _ & Hu & _) _]; [ reflexivity | ].
  split; [ exact Hs | exact Hu ].
Defined.

(** C5 as stated fails: the user gives an empty line, which is turned
    down; with the next line the archive is made, uploaded and published. *)
Lemma empty_input_counterexample :
  let env := withKeys [Submit ""; Submit "demo"] envOk in
  let w' := snd (init env user0 world0) in
  head (keys env) = Some (Submit "")
  /\ uploads w' <> []
  /\ requests w' <> []
  /\ In (SpinnerSucceed "Project archive created successfully") (console w').
Proof.
  vm_compute. repeat split; try discriminate. tauto.
Qed.

(** C10: the validator sees the input as typed, the request carries the
    trimmed input, and so an accepted input exists whose name in the
    publish request is shorter than 3: [a] followed by two spaces. *)
Theorem trimmed_name_escapes_validation :
  (forall keys value,
      Prompt.appName (textPrompt validate keys) = Some value ->
      validate value = Accepted)
  /\ (forall env user w r,
        In r (requests (snd (createApp env user w))) ->
        In r (requests w)
        \/ bodyAppName r
           = trim (default "" (Prompt.appName (textPrompt validate (keys env)))))
  /\ (exists value env r,
        Prompt.appName (textPrompt validate (keys env)) = Some value
        /\ validate value = Accepted
        /\ In r (requests (snd (createApp env user0 world0)))
        /\ bodyAppName r = trim value
        /\ (String.length (bodyAppName r) < 3)%nat).
Proof.
  split; [ exact textPrompt_validated | split ].
  - intros env user w r. apply createApp_sendsName.
  - exists "a  ", (withKeys [Submit "a  "] envOk).
    eexists. split; [ reflexivity | ]. split; [ reflexivity | ].
    split; [ vm_compute; left; reflexivity | ].
    split; [ reflexivity | vm_compute; lia ].
Qed.

(** * The upload *)

(** C7: every upload goes to [source_files/{uid}/{fileName}] with the zip
    media type and carries what was read from the local archive; when the
    transfer completes the call returns the remote name it was given, and
    when the transfer fails it rejects with the task's error. *)
Theorem uploadToFirebase_contract (env : Env) (filePath : Path)
    (fileName : string) (user : AuthUser) (w : World) (archive : Blob) :
  readFileError env = None ->
  disk w !! filePath = Some archive ->
  let run := uploadToFirebase env filePath fileName user w in
  uploads (snd run)
    = (uploads w
         ++ [mkUpload ("source_files/" +:+ uid user +:+ "/" +:+ fileName)
               "application/zip" archive])%list
  /\ (uploadError env = None -> fst run = Ok fileName)
  /\ (forall e, uploadError env = Some e -> fst run = Throw e).
Proof.
  intros Hread Hfile run. subst run.
  unfold uploadToFirebase, bind, readFile, recordUpload, prints, print, throw, ret.
  rewrite Hread, Hfile. cbn [fst snd].
  destruct (uploadError env) as [e | ];
    destruct (negb (length (snapshots env) =? 0)%nat); cbn;
    (split; [ reflexivity | split; [ intros H | intros e' H ]; congruence ]).
Qed.

(** An archive in a temporary directory, uploaded for user [u1]. *)
Lemma uploadToFirebase_contract_witness :
  let w := mkWorld {[ ["tmp"; "shop-1.zip"] := Zip (Some []) ]} [] [] [] in
  let run := uploadToFirebase envOk ["tmp"; "shop-1.zip"] "shop-1.zip" user0 w in
  uploads (snd run)
    = [mkUpload "source_files/u1/shop-1.zip" "application/zip" (Zip (Some []))]
  /\ fst run = Ok "shop-1.zip".
Proof.
  intros w run.
  destruct (uploadToFirebase_contract envOk ["tmp"; "shop-1.zip"] "shop-1.zip"
              user0 w (Zip (Some [])) eq_refl eq_refl) as (Hup & Hok & _).
  split; [ exact Hup | exact (Hok eq_refl) ].
Defined.

(** * The publish call *)

(** What the call makes of a response with a 2xx status that arrived
    before the abort. *)
Lemma createAppInBackend_2xx env fileName appName user w token afterMs r :
  idToken user = Ok token ->
  fetchOutcome env = Responds afterMs r ->
  (afterMs < timeoutMs)%Z ->
  ok r = true ->
  fst (createAppInBackend env fileName appName user w)
  = match json r with
    | Ok responseData =>
        match getAppId responseData with
        | Ok (Some v) =>
            if truthy (Some v) then Ok v else Throw (wrapped missingAppIdMessage)
        | Ok None => Throw (wrapped missingAppIdMessage)
        | Throw e =>
            if String.eqb (name e) "AbortError" then Throw (newError timedOutMessage)
            else if includes "fetch" (message e) then Throw (newError unreachableMessage)
            else Throw (wrapped (message e))
        end
    | Throw e =>
        if String.eqb (name e) "AbortError" then Throw (newError timedOutMessage)
        else if includes "fetch" (message e) then Throw (newError unreachableMessage)
        else Throw (wrapped (message e))
    end.
Proof.
  intros Htok Hfetch Hlt Hok.
  cbv beta iota zeta delta
    [createAppInBackend tryCatch bind fetch settle recordRequest print throw ret].
  rewrite Htok, Hfetch. apply Z.ltb_lt in Hlt. rewrite Hlt. cbn [fst snd].
  rewrite Hok. cbn [fst snd].
  destruct (json r) as [responseData | e]; cbn [fst snd].
  - destruct (getAppId responseData) as [[v | ] | e]; cbn [fst snd].
    + destruct (truthy (Some v)); cbn; reflexivity.
    + cbn. reflexivity.
    + destruct (String.eqb (name e) "AbortError"); [ reflexivity | ].
      destruct (includes "fetch" (message e)); reflexivity.
  - destruct (String.eqb (name e) "AbortError"); [ reflexivity | ].
    destruct (includes "fetch" (message e)); reflexivity.
Qed.

(** Property lookup: a key the object does not hold is [undefined]; of the
    fields that hold it the last one counts. *)
Lemma lookupField_absent (key : string) (fields : list (string * Json)) :
  ~ In key (map fst fields) -> lookupField key fields = None.
Proof.
  induction fields as [ | [k v] rest IH ]; [ reflexivity | ].
  cbn [map fst In lookupField]. intros Hn.
  rewrite IH by tauto.
  destruct (String.eqb_spec k key) as [-> | _]; [ | reflexivity ].
  exfalso. apply Hn. now left.
Qed.

Lemma lookupField_last (key : string) (before after : list (string * Json))
    (v : Json) :
  ~ In key (map fst after) ->
  lookupField key (before ++ (key, v) :: after) = Some v.
Proof.
  intros Hn. induction before as [ | [k0 v0] before IH ].
  - cbn [app lookupField]. rewrite (lookupField_absent key after Hn).
    now rewrite String.eqb_refl.
  - cbn [app lookupField]. now rewrite IH.
Qed.

(** What [responseData.appId] is for a body other than [null]. *)
Lemma getAppId_absent (body : Json) :
  body <> JNull ->
  (forall fields, body = JObject fields -> ~ In "appId" (map fst fields)) ->
  getAppId body = Ok None.
Proof.
  intros Hnull Habsent. destruct body as [ | b | q | s | items | fields ];
    try reflexivity; [ congruence | ].
  cbn [getAppId]. now rewrite (lookupField_absent "appId" fields (Habsent fields eq_refl)).
Qed.

(** C3, as the code has it: for every response with a 2xx status whose
    body parses to a JSON value other than [null], the call fails with the
    missing-app-id error when the body holds no field [appId] (so for the
    body [{}], and for a body that is no object), and otherwise goes by the
    last field of that name: a non-empty string is returned, the empty
    string counts as missing, although the transport succeeded.  For a
    field of another type the same test decides: a truthy value is returned
    as it is, a falsy one counts as missing. *)
Theorem publish_returns_appId (env : Env) (fileName appName : string)
    (user : AuthUser) (w : World) (token : string) (afterMs : Z)
    (r : Response) (body : Json) :
  idToken user = Ok token ->
  fetchOutcome env = Responds afterMs r ->
  (afterMs < timeoutMs)%Z ->
  (200 <= status r <= 299)%Z ->
  json r = Ok body ->
  body <> JNull ->
  let result := fst (createAppInBackend env fileName appName user w) in
  let missing : Result Json :=
    Throw (newError ("Deployment request failed: " +:+ missingAppIdMessage)) in
  ((forall fields, body = JObject fields -> ~ In "appId" (map fst fields)) ->
   result = missing)
  /\ (forall before s after,
        body = JObject (before ++ ("appId", JString s) :: after) ->
        ~ In "appId" (map fst after) ->
        (s <> "" -> result = Ok (JString s))
        /\ (s = "" -> result = missing))
  /\ (forall before v after,
        body = JObject (before ++ ("appId", v) :: after) ->
        ~ In "appId" (map fst after) ->
        result = if truthy (Some v) then Ok v else missing).
Proof.
  intros Htok Hfetch Hlt Hstatus Hjson Hnull result missing.
  subst result missing.
  assert (Hok : ok r = true).
  { unfold ok. apply andb_true_intro. split; apply Z.leb_le; lia. }
  rewrite (createAppInBackend_2xx env fileName appName user w token afterMs r
             Htok Hfetch Hlt Hok), Hjson.
  split; [ | split ].
  - intros Habsent. now rewrite (getAppId_absent body Hnull Habsent).
  - intros before s after -> Hlast. cbn [getAppId].
    rewrite (lookupField_last "appId" before after (JString s) Hlast).
    cbn [truthy]. unfold truthy_string. split.
    + intros Hne.
      destruct (String.eqb_spec s "") as [-> | _]; [ contradiction | reflexivity ].
    + intros ->. reflexivity.
  - intros before v after -> Hlast. cbn [getAppId].
    now rewrite (lookupField_last "appId" before after v Hlast).
Qed.

(** Status 200 with the body [{"appId":"abc123"}] gives [abc123]; with
    the body [{}] it gives the missing-app-id error. *)
Lemma publish_returns_appId_witness :
  fst (createAppInBackend envOk "shop-1.zip" "demo" user0 world0)
    = Ok (JString "abc123")
  /\ fst (createAppInBackend
            (withFetch (Responds 120 (response200 (JObject []))) envOk)
            "shop-1.zip" "demo" user0 world0)
     = Throw (newError
                "Deployment request failed: Deployment service did not return a valid app ID").
Proof.
  split.
  - destruct (publish_returns_appId envOk "shop-1.zip" "demo" user0 world0
                "token-1" 120 (response200 (JObject [("appId", JString "abc123")]))
                (JObject [("appId", JString "abc123")])
                eq_refl eq_refl) as (_ & Hsome & _);
      [ reflexivity | cbn; lia | reflexivity | discriminate | ].
    destruct (Hsome [] "abc123" [] eq_refl) as [Hfilled _];
      [ simpl; tauto | ].
    apply Hfilled. discriminate.
  - destruct (publish_returns_appId
                (withFetch (Responds 120 (response200 (JObject []))) envOk)
                "shop-1.zip" "demo" user0 world0
                "token-1" 120 (response200 (JObject []))
                (JObject []) eq_refl eq_refl) as (Hnone & _);
      [ reflexivity | cbn; lia | reflexivity | discriminate | ].
    apply Hnone. intros fields [= <-]. simpl. tauto.
Defined.

(** C3 as stated fails for a response with status 200 whose body is
    [null], or is not JSON: no field [appId] is there, and the call fails,
    but not with the missing-app-id error: what the [catch] hands on is the
    message of the error that reading the body raised. *)
Lemma publish_counterexample :
  let nullBody := withFetch (Responds 120 (response200 JNull)) envOk in
  let notJson :=
    withFetch
      (Responds 120
         (mkResponse 200 "OK"
            (Throw (mkError "SyntaxError" "Unexpected token < in JSON at position 0"))
            (Ok "<html></html>"))) envOk in
  fst (createAppInBackend nullBody "shop-1.zip" "demo" user0 world0)
    = Throw (newError
               "Deployment request failed: Cannot read properties of null (reading 'appId')")
  /\ fst (createAppInBackend notJson "shop-1.zip" "demo" user0 world0)
     = Throw (newError
                "Deployment request failed: Unexpected token < in JSON at position 0")
  /\ fst (createAppInBackend nullBody "shop-1.zip" "demo" user0 world0)
     <> Throw (newError ("Deployment request failed: " +:+ missingAppIdMessage))
  /\ fst (createAppInBackend notJson "shop-1.zip" "demo" user0 world0)
     <> Throw (newError ("Deployment request failed: " +:+ missingAppIdMessage)).
Proof.
  intros nullBody notJson.
  assert (Hnull : fst (createAppInBackend nullBody "shop-1.zip" "demo" user0 world0)
                  = Throw (newError
                      "Deployment request failed: Cannot read properties of null (reading 'appId')"))
    by (vm_compute; reflexivity).
  assert (Hjson : fst (createAppInBackend notJson "shop-1.zip" "demo" user0 world0)
                  = Throw (newError
                      "Deployment request failed: Unexpected token < in JSON at position 0"))
    by (vm_compute; reflexivity).
  split; [ exact Hnull | split; [ exact Hjson | split ] ].
  - rewrite Hnull. vm_compute. discriminate.
  - rewrite Hjson. vm_compute. discriminate.
Qed.

(** C6: the abort is scheduled 30000 ms after the request is sent; when
    the request has not settled within 30 seconds it is aborted, and the
    call fails with the request-timeout error and nothing else. *)
Theorem publish_times_out (env : Env) (fileName appName : string)
    (user : AuthUser) (w : World) (token : string) :
  idToken user = Ok token ->
  settlesWithin 30000 (fetchOutcome env) = false ->
  let run := createAppInBackend env fileName appName user w in
  timeoutMs = 30000%Z
  /\ fst run = Throw (newError timedOutMessage)
  /\ requests (snd run)
     = (requests w
          ++ [mkRequest BACKEND_ENDPOINT "POST" token "application/json"
                fileName appName true])%list.
Proof.
  intros Htok Hlate run. subst run. split; [ reflexivity | ].
  cbv beta iota zeta delta
    [createAppInBackend tryCatch bind fetch settle recordRequest print throw ret].
  rewrite Htok. cbn [fst snd].
  destruct (fetchOutcome env) as [afterMs r | afterMs e | ];
    cbn [settlesWithin] in Hlate.
  - apply Z.leb_gt in Hlate.
    assert (Hge : (afterMs <? timeoutMs)%Z = false)
      by (apply Z.ltb_ge; unfold timeoutMs; lia).
    rewrite Hge. cbn. split; reflexivity.
  - apply Z.leb_gt in Hlate.
    assert (Hge : (afterMs <? timeoutMs)%Z = false)
      by (apply Z.ltb_ge; unfold timeoutMs; lia).
    rewrite Hge. cbn. split; reflexivity.
  - cbn. split; reflexivity.
Qed.

(** A backend that would answer after 30001 ms. *)
Lemma publish_times_out_witness :
  fst (createAppInBackend
         (withFetch (Responds 30001 (response200 (JObject [("appId", JString "late")]))) envOk)
         "shop-1.zip" "demo" user0 world0)
  = Throw (newError "Request timed out after 30 seconds - please check your internet connection").
Proof.
  exact (proj1 (proj2 (publish_times_out
                  (withFetch (Responds 30001 (response200 (JObject [("appId", JString "late")]))) envOk)
                  "shop-1.zip" "demo" user0 world0 "token-1" eq_refl eq_refl))).
Defined.

(** * The progress percentage *)

Lemma isZero_inject_Z (t : Z) : (0 < t)%Z -> isZero (inject_Z t) = false.
Proof.
  intros Ht. unfold isZero.
  destruct (Qeq_bool (inject_Z t) 0) eqn:E; [ | reflexivity ].
  apply Qeq_bool_eq in E. unfold Qeq in E. simpl in E. lia.
Qed.

Lemma leb_ofZ (a b : Z) : leb (ofZ a) (ofZ b) = true <-> (a <= b)%Z.
Proof.
  unfold leb, ofZ. rewrite Qle_bool_iff, <- Zle_Qle. reflexivity.
Qed.

Section Rounded.
Variable rnd : Rounding.
Hypothesis nearest : NearestRounding rnd.

(** A monotone rounding gives equal results on equal rationals. *)
Lemma rnd_proper (x y : Q) : (x == y)%Q -> (rnd x == rnd y)%Q.
Proof.
  intros E. apply Qle_antisym; apply (rnd_monotone rnd nearest);
    rewrite E; apply Qle_refl.
Qed.

Lemma percentage_positive_total (b t : N) :
  (0 < t)%N ->
  percentage rnd (mkSnapshot b t) = ofZ (percentZ rnd (Z.of_N b) (Z.of_N t)).
Proof.
  intros Ht. unfold percentage, progress, div, mul, ofBytes, ofZ, Math_round.
  simpl. rewrite (isZero_inject_Z (Z.of_N t)) by lia. reflexivity.
Qed.

Lemma percentZ_monotone (b b' t : Z) :
  (0 < t)%Z -> (b <= b')%Z -> (percentZ rnd b t <= percentZ rnd b' t)%Z.
Proof.
  intros Ht Hb. unfold percentZ. apply Qfloor_resp_le.
  apply Qplus_le_l. apply (rnd_monotone rnd nearest).
  apply Qmult_le_compat_r; [ | discriminate ].
  apply (rnd_monotone rnd nearest).
  unfold Qdiv. apply Qmult_le_compat_r.
  - rewrite <- Zle_Qle. exact Hb.
  - apply Qlt_le_weak, Qinv_lt_0_compat.
    change 0%Q with (inject_Z 0). rewrite <- Zlt_Qlt. exact Ht.
Qed.

Lemma percentZ_zero (t : Z) : (0 < t)%Z -> percentZ rnd 0 t = 0%Z.
Proof.
  intros Ht. unfold percentZ.
  assert (E1 : (rnd (inject_Z 0 / inject_Z t) == 0)%Q).
  { apply (Qeq_trans _ (rnd 0%Q)); [ apply rnd_proper | apply (rnd_0 rnd nearest) ].
    change (inject_Z 0) with 0%Q. unfold Qdiv. ring. }
  assert (E2 : (rnd (rnd (inject_Z 0 / inject_Z t) * inject_Z 100) == 0)%Q).
  { apply (Qeq_trans _ (rnd 0%Q)); [ apply rnd_proper | apply (rnd_0 rnd nearest) ].
    rewrite E1. ring. }
  rewrite E2. reflexivity.
Qed.

Lemma percentZ_complete (t : Z) : (0 < t)%Z -> percentZ rnd t t = 100%Z.
Proof.
  intros Ht. unfold percentZ.
  assert (E1 : (rnd (inject_Z t / inject_Z t) == 1)%Q).
  { apply (Qeq_trans _ (rnd 1%Q)); [ apply rnd_proper | apply (rnd_1 rnd nearest) ].
    assert (Hne : ~ (inject_Z t == 0)%Q) by (unfold Qeq; simpl; lia).
    field. exact Hne. }
  assert (E2 : (rnd (rnd (inject_Z t / inject_Z t) * inject_Z 100) == 100)%Q).
  { apply (Qeq_trans _ (rnd 100%Q)); [ apply rnd_proper | apply (rnd_100 rnd nearest) ].
    rewrite E1. change (inject_Z 100) with 100%Q. ring. }
  rewrite E2. reflexivity.
Qed.

(** The spinner shows the percentage of each snapshot, in order. *)
Lemma reported_observe (started : bool) (events : list Snapshot) :
  reported (observe rnd started events) = map (percentage rnd) events.
Proof.
  revert started.
  induction events as [ | s rest IH ]; intros started; [ reflexivity | ].
  unfold reported in *. simpl. destruct started; simpl; rewrite IH; reflexivity.
Qed.

End Rounded.

(** C8, as the code has it: for a positive [totalBytes] and snapshots
    whose [bytesTransferred] does not decrease and does not exceed
    [totalBytes], the percentages shown do not decrease, stay within 0-100,
    and are exactly 100 once [bytesTransferred] reaches [totalBytes].  The
    arithmetic is round-to-nearest in as much as its rounding is monotone
    and keeps 0, 1 and 100. *)
Theorem progress_percentage_monotone (rnd : Rounding) (total : N)
    (events : list Snapshot) :
  NearestRounding rnd ->
  (0 < total)%N ->
  Forall (fun s => totalBytes s = total
                   /\ (bytesTransferred s <= total)%N) events ->
  Sorted (fun a b => (bytesTransferred a <= bytesTransferred b)%N) events ->
  reported (observe rnd false events) = map (percentage rnd) events
  /\ StronglySorted (fun p q => leb p q = true) (map (percentage rnd) events)
  /\ Forall (fun p => leb (ofZ 0) p = true /\ leb p (ofZ 100) = true)
       (map (percentage rnd) events)
  /\ Forall (fun s => bytesTransferred s = total ->
                      percentage rnd s = ofZ 100) events.
Proof.
  intros Hrnd Htotal Hbounded Hsorted.
  assert (Hpos : (0 < Z.of_N total)%Z) by lia.
  assert (Hpct : forall s, In s events ->
                   percentage rnd s
                   = ofZ (percentZ rnd (Z.of_N (bytesTransferred s))
                            (Z.of_N total))).
  { intros [b t] Hin. rewrite List.Forall_forall in Hbounded.
    destruct (Hbounded _ Hin) as [Ht _]. simpl in Ht. subst t.
    apply percentage_positive_total. exact Htotal. }
  split; [ apply reported_observe | ].
  apply Sorted_StronglySorted in Hsorted; [ | intros a b c; lia ].
  split; [ | split ].
  - clear Hbounded. induction Hsorted as [ | s rest Hrest IH Hall ]; simpl.
    + constructor.
    + constructor.
      * apply IH. intros s' Hin. apply Hpct. now right.
      * rewrite List.Forall_forall in *. intros p Hp. apply in_map_iff in Hp.
        destruct Hp as (s' & <- & Hin).
        rewrite (Hpct s (or_introl eq_refl)), (Hpct s' (or_intror Hin)).
        apply leb_ofZ. apply percentZ_monotone; [ exact Hrnd | exact Hpos | ].
        specialize (Hall s' Hin). lia.
  - rewrite List.Forall_forall in *. intros p Hp. apply in_map_iff in Hp.
    destruct Hp as (s & <- & Hin). rewrite (Hpct s Hin).
    destruct (Hbounded s Hin) as [_ Hhi].
    split; apply leb_ofZ.
    + rewrite <- (percentZ_zero rnd Hrnd (Z.of_N total) Hpos).
      apply percentZ_monotone; [ exact Hrnd | exact Hpos | lia ].
    + rewrite <- (percentZ_complete rnd Hrnd (Z.of_N total) Hpos).
      apply percentZ_monotone; [ exact Hrnd | exact Hpos | lia ].
  - rewrite List.Forall_forall in *. intros s Hin Hdone.
    rewrite (Hpct s Hin), Hdone.
    rewrite (percentZ_complete rnd Hrnd (Z.of_N total) Hpos). reflexivity.
Qed.

Lemma exact_nearest : NearestRounding exact.
Proof.
  split; unfold exact; [ intros x y H; exact H | reflexivity .. ].
Defined.

(** Eight bytes in three snapshots: 0, 13 and 100 percent (1/8 and 12.5
    are doubles, so nothing is rounded). *)
Lemma progress_percentage_monotone_witness :
  map (percentage exact) [mkSnapshot 0 8; mkSnapshot 1 8; mkSnapshot 8 8]
  = [ofZ 0; ofZ 13; ofZ 100]
  /\ StronglySorted (fun p q => leb p q = true)
       (map (percentage exact) [mkSnapshot 0 8; mkSnapshot 1 8; mkSnapshot 8 8]).
Proof.
  split; [ reflexivity | ].
  apply (progress_percentage_monotone exact 8
           [mkSnapshot 0 8; mkSnapshot 1 8; mkSnapshot 8 8]).
  - exact exact_nearest.
  - reflexivity.
  - repeat constructor; simpl; lia.
  - repeat constructor; simpl; lia.
Defined.

(** C8 as stated fails for an upload of no bytes: the one snapshot has
    [bytesTransferred] at [totalBytes], both 0, and the quotient of zero by
    zero is NaN whatever the rounding, which is neither within 0-100 nor
    100. *)
Lemma progress_counterexample :
  let s := mkSnapshot 0 0 in
  (bytesTransferred s <= totalBytes s)%N
  /\ bytesTransferred s = totalBytes s
  /\ reported (observe exact false [s]) = [NaN]
  /\ leb (ofZ 0) (percentage exact s) = false
  /\ leb (percentage exact s) (ofZ 100) = false
  /\ eqb (percentage exact s) (ofZ 100) = false.
Proof.
  simpl. repeat split; lia.
Qed.

(** * The contents of the archive *)

Lemma basename_join (dir : Path) (name : string) : basename (join dir name) = name.
Proof. unfold basename, join. apply last_last. Qed.

Lemma append_empty_r (s : string) : s +:+ "" = s.
Proof.
  induction s as [ | c s IH ]; [ reflexivity | ].
  change (String c (s +:+ "") = String c s). now rewrite IH.
Qed.

Lemma append_snoc (acc : string) (c : ascii) (rest : string) :
  (acc +:+ String c EmptyString) +:+ rest = acc +:+ String c rest.
Proof.
  induction acc as [ | a acc IH ]; [ reflexivity | ].
  change (String a ((acc +:+ String c EmptyString) +:+ rest)
          = String a (acc +:+ String c rest)).
  now rewrite IH.
Qed.

Lemma splitSlash_plain (acc s : string) :
  hasSlash s = false -> splitSlash acc s = [acc +:+ s].
Proof.
  revert acc. induction s as [ | c rest IH ]; intros acc Hs; simpl in *.
  - now rewrite append_empty_r.
  - apply orb_false_elim in Hs. destruct Hs as [Hc Hrest]. rewrite Hc.
    rewrite (IH _ Hrest). now rewrite append_snoc.
Qed.

(** A plain file name compiles to one literal segment. *)
Lemma compile_plain (s : string) :
  plainName s = true -> compile s = Some [Literal s].
Proof.
  unfold plainName. intros H. apply andb_prop in H. destruct H as [Hm Hs].
  apply negb_true_iff in Hm, Hs.
  unfold compile. rewrite (splitSlash_plain EmptyString s Hs).
  change (EmptyString +:+ s) with s. cbn [parseParts].
  unfold parsePart.
  destruct (String.eqb_spec s "**") as [-> | _]; [ discriminate Hm | ].
  destruct (String.eqb_spec s "*") as [-> | _]; [ discriminate Hm | ].
  rewrite Hm. reflexivity.
Qed.

Lemma validName_swallowable (f : string) :
  validName f = true ->
  swallowable true f = true /\ starMatches true f = true
  /\ String.eqb f "" = false.
Proof.
  unfold validName. intros H.
  apply andb_prop in H. destruct H as [H _].
  apply andb_prop in H. destruct H as [H Hdotdot].
  apply andb_prop in H. destruct H as [Hempty Hdot].
  unfold starMatches, swallowable. rewrite Hempty, Hdot, Hdotdot.
  repeat split. now apply negb_true_iff in Hempty.
Qed.

(** The pattern of [createZipFile] accepts every walked entry, hidden
    ones included. *)
Lemma matchOne_everything (rel : list string) (dirSuffix : bool) :
  rel <> [] -> forallb validName rel = true ->
  matchOne true [GlobStar; Star] (rel ++ (if dirSuffix then [""] else [])) = true.
Proof.
  induction rel as [ | f fs IH ]; [ congruence | ]. intros _ Hv.
  simpl in Hv. apply andb_prop in Hv. destruct Hv as [Hf Hfs].
  destruct (validName_swallowable f Hf) as (Hsw & Hst & _).
  destruct fs as [ | g gs ].
  - simpl. rewrite Hst. destruct dirSuffix; reflexivity.
  - specialize (IH ltac:(discriminate) Hfs).
    change (matchOne true [GlobStar; Star]
              ((f :: g :: gs) ++ (if dirSuffix then [""] else [])))
      with (matchOne true [Star]
              ((f :: g :: gs) ++ (if dirSuffix then [""] else []))
            || (swallowable true f
                && matchOne true [GlobStar; Star]
                     ((g :: gs) ++ (if dirSuffix then [""] else [])))).
    rewrite Hsw, IH. apply orb_true_r.
Qed.

(** A literal pattern of one segment accepts exactly the top-level entry
    of that name. *)
Lemma matchOne_literal (s : string) (rel : list string) (dirSuffix : bool) :
  rel <> [] -> forallb validName rel = true ->
  matchOne true [Literal s] (rel ++ (if dirSuffix then [""] else []))
  = bool_decide (rel = [s]).
Proof.
  destruct rel as [ | f fs ]; [ congruence | ]. intros _ Hv.
  simpl in Hv. apply andb_prop in Hv. destruct Hv as [Hf Hfs]. simpl.
  destruct (String.eqb_spec f s) as [-> | Hne]; simpl.
  - destruct fs as [ | g gs ]; simpl.
    + rewrite bool_decide_eq_true_2 by reflexivity.
      destruct dirSuffix; reflexivity.
    + rewrite bool_decide_eq_false_2 by congruence.
      simpl in Hfs. apply andb_prop in Hfs. destruct Hfs as [Hg _].
      destruct (validName_swallowable g Hg) as (_ & _ & Hg').
      destruct (gs ++ (if dirSuffix then [""] else []))%list;
        [ exact Hg' | reflexivity ].
  - rewrite bool_decide_eq_false_2 by congruence. reflexivity.
Qed.

Lemma swallowable_suffix (rel : list string) (dirSuffix : bool) :
  forallb validName rel = true ->
  forallb (swallowable true) (rel ++ (if dirSuffix then [""] else [])) = true.
Proof.
  intros Hv. rewrite forallb_app. apply andb_true_intro. split.
  - apply forallb_forall. intros f Hf. rewrite forallb_forall in Hv.
    destruct (validName_swallowable f (Hv f Hf)) as (H & _). exact H.
  - destruct dirSuffix; reflexivity.
Qed.

(** A directory glob accepts the top-level directory of that name and
    everything below it, and nothing else: not a file of that name, not a
    directory of that name further down. *)
Lemma matchOne_directory (d : string) (rel : list string) (dirSuffix : bool) :
  rel <> [] -> forallb validName rel = true ->
  matchOne true [Literal d; GlobStar] (rel ++ (if dirSuffix then [""] else []))
  = match rel with
    | f :: rest =>
        String.eqb f d && (dirSuffix || negb (Nat.eqb (length rest) 0))
    | [] => false
    end.
Proof.
  destruct rel as [ | f rest ]; [ congruence | ]. intros _ Hv.
  simpl in Hv. apply andb_prop in Hv. destruct Hv as [_ Hrest].
  cbn [app matchOne]. f_equal.
  pose proof (swallowable_suffix rest dirSuffix Hrest) as Hs.
  destruct rest as [ | g gs ]; destruct dirSuffix; cbn [app] in *;
    try rewrite Hs; reflexivity.
Qed.

Lemma forallb_app_valid (dir : list string) (name : string) :
  forallb validName dir = true -> validName name = true ->
  forallb validName (dir ++ [name]) = true.
Proof.
  intros Hd Hn. rewrite forallb_app, Hd. simpl. now rewrite Hn.
Qed.

(** What the walk reports has valid names all the way. *)
Lemma exploreNode_valid (n : Node) :
  forall (dir : list string) (e : Entry),
    forallb validName dir = true -> wfNode n = true ->
    In e (exploreNode dir n) ->
    relative e <> [] /\ forallb validName (relative e) = true.
Proof.
  induction n as [ name | name children IH ] using Node_nested_ind;
    intros dir e Hdir Hn Hin; simpl in *.
  - destruct Hin as [<- | []]. simpl. split.
    + destruct dir; discriminate.
    + now apply forallb_app_valid.
  - apply andb_prop in Hn. destruct Hn as [Hname Hch].
    destruct Hin as [<- | Hin].
    + simpl. split; [ destruct dir; discriminate | now apply forallb_app_valid ].
    + apply in_flat_map in Hin. destruct Hin as (c & Hc & Hin).
      rewrite List.Forall_forall in IH. apply (IH c Hc (dir ++ [name])%list e).
      * now apply forallb_app_valid.
      * rewrite forallb_forall in Hch. now apply Hch.
      * exact Hin.
Qed.

Lemma explore_valid (listing : list Node) (e : Entry) :
  forallb wfNode listing = true -> In e (explore [] listing) ->
  relative e <> [] /\ forallb validName (relative e) = true.
Proof.
  intros Hwf Hin. unfold explore in Hin. apply in_flat_map in Hin.
  destruct Hin as (n & Hn & Hin).
  apply (exploreNode_valid n [] e); [ reflexivity | | exact Hin ].
  rewrite forallb_forall in Hwf. now apply Hwf.
Qed.

Lemma fileOf_shape (e : Entry) :
  fileOf e = (relative e ++ (if isDirectory e then [""] else []))%list.
Proof. reflexivity. Qed.

(** What the three directory globs exclude: the top-level directories
    [node_modules], [.git] and [dist], and everything below them. *)
Lemma inIgnoredDirectory_spec (e : Entry) :
  relative e <> [] -> forallb validName (relative e) = true ->
  inIgnoredDirectory e
  = match relative e with
    | f :: rest =>
        (String.eqb f "node_modules" || String.eqb f ".git" || String.eqb f "dist")
        && (isDirectory e || negb (Nat.eqb (length rest) 0))
    | [] => false
    end.
Proof.
  intros Hne Hvalid.
  unfold inIgnoredDirectory, directoryGlobs, matchesGlob. cbn [existsb].
  change (compile "node_modules/**") with (Some [Literal "node_modules"; GlobStar]).
  change (compile ".git/**") with (Some [Literal ".git"; GlobStar]).
  change (compile "dist/**") with (Some [Literal "dist"; GlobStar]).
  rewrite !fileOf_shape.
  rewrite !(matchOne_directory _ _ (isDirectory e) Hne Hvalid).
  destruct (relative e) as [ | f rest ]; [ reflexivity | ].
  rewrite orb_false_r.
  destruct (String.eqb f "node_modules"), (String.eqb f ".git"),
    (String.eqb f "dist"), (isDirectory e || negb (Nat.eqb (length rest) 0));
    reflexivity.
Qed.

(** What [archive.glob] queues for a destination directly in the source
    directory. *)
Lemma archiveEntries_contents (sourceDir : Path) (zipFileName : string)
    (listing : list Node) :
  forallb wfNode listing = true ->
  plainName zipFileName = true ->
  archiveEntries sourceDir (join sourceDir zipFileName) listing
  = Some (map (toArchiveEntry sourceDir)
            (List.filter
               (fun e => negb (inIgnoredDirectory e)
                         && negb (isTheArchive zipFileName e))
               (explore [] listing))).
Proof.
  intros Hwf Hplain.
  unfold archiveEntries, glob. rewrite basename_join.
  change (compile "**/*") with (Some [GlobStar; Star]).
  unfold ignoreList.
  cbn [compileAll].
  change (compile "node_modules/**") with (Some [Literal "node_modules"; GlobStar]).
  change (compile ".git/**") with (Some [Literal ".git"; GlobStar]).
  change (compile "dist/**") with (Some [Literal "dist"; GlobStar]).
  rewrite (compile_plain zipFileName Hplain).
  f_equal. f_equal. apply filter_ext_in. intros e He.
  destruct (explore_valid listing e Hwf He) as [Hne Hvalid].
  unfold fileMatches. cbn [matchers ignoreMatchers dot existsb].
  rewrite !fileOf_shape.
  rewrite (matchOne_everything _ (isDirectory e) Hne Hvalid).
  rewrite (matchOne_literal zipFileName _ (isDirectory e) Hne Hvalid).
  unfold inIgnoredDirectory, directoryGlobs, matchesGlob, isTheArchive.
  cbn [existsb].
  change (compile "node_modules/**") with (Some [Literal "node_modules"; GlobStar]).
  change (compile ".git/**") with (Some [Literal ".git"; GlobStar]).
  change (compile "dist/**") with (Some [Literal "dist"; GlobStar]).
  rewrite !fileOf_shape.
  rewrite !orb_false_r. cbn [orb andb].
  rewrite !negb_orb, !andb_assoc. reflexivity.
Qed.

(** C2, where the code misses it: [createApp] run in a directory named
    [app[v2]].  The archive's file name goes on the ignore list as it is,
    where it is read as a pattern: the bracket expression stands for one
    character, [v] or [2], so the entry excludes [app2-1700000000000.zip]
    and not the archive.  The archive [createZipFile] writes, and the one
    [createApp] uploads, holds the archive file itself. *)
Theorem createZipFile_archives_itself :
  let sourceDir := ["home"; "dev"; "app[v2]"] in
  let outputPath := ["home"; "dev"; "app[v2]"; "app[v2]-1700000000000.zip"] in
  let entries :=
    [mkArchiveEntry ["app[v2]"; "index.ts"]
       ["home"; "dev"; "app[v2]"; "index.ts"] false;
     mkArchiveEntry ["app[v2]"; "app[v2]-1700000000000.zip"] outputPath false] in
  cwd envBracketed = sourceDir
  /\ tempZipPathOf envBracketed = outputPath
  /\ ignoreList (basename outputPath)
     = ["node_modules/**"; ".git/**"; "dist/**"; "app[v2]-1700000000000.zip"]
  /\ fst (createZipFile envBracketed sourceDir outputPath world0) = Ok tt
  /\ disk (snd (createZipFile envBracketed sourceDir outputPath world0))
       !! outputPath
     = Some (Zip (Some entries))
  /\ In (mkArchiveEntry ["app[v2]"; "app[v2]-1700000000000.zip"] outputPath false)
       entries
  /\ fst (createApp envBracketed user0 world0) = Ok tt
  /\ uploads (snd (createApp envBracketed user0 world0))
     = [mkUpload "source_files/u1/app[v2]-1700000000000.zip" "application/zip"
          (Zip (Some entries))].
Proof.
  intros sourceDir outputPath entries. subst sourceDir outputPath entries.
  repeat split; try (vm_compute; reflexivity).
  right. left. reflexivity.
Qed.

(** The file name on the ignore list names a top-level entry: a
    destination in a subdirectory of the source tree is archived as well. *)
Lemma createZipFile_subdirectory :
  let sourceDir := ["home"; "dev"; "shop"] in
  let outputPath := ["home"; "dev"; "shop"; "out"; "shop.zip"] in
  let env := withListing [File "index.ts"; Dir "out" [File "shop.zip"]] envOk in
  exists entries,
    disk (snd (createZipFile env sourceDir outputPath world0)) !! outputPath
    = Some (Zip (Some entries))
    /\ In (mkArchiveEntry ["shop"; "out"; "shop.zip"] outputPath false) entries.
Proof.
  eexists. split; [ vm_compute; reflexivity | ].
  simpl. tauto.
Qed.

(** * The publication request, case by case *)

Lemma prefix_append (p s : string) : String.prefix p (p +:+ s) = true.
Proof.
  induction p as [ | c p IH ]; [ destruct s; reflexivity | ].
  change (String.prefix (String c p) (String c (p +:+ s)) = true).
  simpl. destruct (ascii_dec c c); [ exact IH | contradiction ].
Qed.

Lemma backend_handler_throws (error : Error) (w : World) :
  fst ((fun error =>
         bind (print (SpinnerFail "Deployment service request failed"))
           (fun _ =>
              if String.eqb (name error) "AbortError" then
                throw (newError timedOutMessage)
              else if includes "fetch" (message error) then
                throw (newError unreachableMessage)
              else
                throw (newError ("Deployment request failed: " +:+ message error))))
         error w)
  = (Throw (rethrown error) : Result Json).
Proof.
  unfold rethrown, wrapped, bind, print, throw. cbn.
  destruct (String.eqb (name error) "AbortError"); [ reflexivity | ].
  destruct (includes "fetch" (message error)); reflexivity.
Qed.

(** Whatever [createAppInBackend] throws comes out of its [catch]. *)
Lemma createAppInBackend_throws (env : Env) (fileName appName : string)
    (user : AuthUser) (w : World) (e : Error) :
  fst (createAppInBackend env fileName appName user w) = Throw e ->
  exists caught, e = rethrown caught.
Proof.
  unfold createAppInBackend. unfold bind at 1. cbn [print].
  unfold tryCatch.
  match goal with |- context [match ?b ?w0 with _ => _ end] =>
    destruct (b w0) as [[v | err] w1] end.
  - discriminate.
  - rewrite backend_handler_throws. intros [= <-]. exists err. reflexivity.
Qed.

Lemma rethrown_name (caught : Error) : name (rethrown caught) = "Error".
Proof.
  unfold rethrown, wrapped.
  destruct (String.eqb (name caught) "AbortError"); [ reflexivity | ].
  destruct (includes "fetch" (message caught)); reflexivity.
Qed.

Lemma length_append (p s : string) :
  String.length (p +:+ s) = (String.length p + String.length s)%nat.
Proof.
  induction p as [ | c p IH ]; [ reflexivity | ].
  change (S (String.length (p +:+ s))
          = S (String.length p + String.length s)%nat).
  now rewrite IH.
Qed.

Lemma append_longer (p s : string) : p <> EmptyString -> p +:+ s <> s.
Proof.
  intros Hp Heq. apply (f_equal String.length) in Heq.
  rewrite length_append in Heq.
  destruct p as [ | c p ]; [ congruence | ]. simpl in Heq. lia.
Qed.

(** The [catch] never hands on the error it caught: the name changes, or
    the message does. *)
Lemma rethrown_differs (caught : Error) : rethrown caught <> caught.
Proof.
  destruct caught as [n m]. unfold rethrown, wrapped. cbn [name message].
  destruct (String.eqb_spec n "AbortError") as [-> | _];
    [ discriminate | ].
  destruct (includes "fetch" m) eqn:Hfetch.
  - intros [= _ <-]. vm_compute in Hfetch. discriminate Hfetch.
  - unfold newError. intros [= _ Heq].
    now apply (append_longer "Deployment request failed: " m).
Qed.

(** X1: whatever makes [createAppInBackend] fail, the error it throws is
    a plain [Error] whose message is the time-out message, the
    unreachable-service message, or starts with [Deployment request
    failed: ].  An error raised on the way (by the token, by the network,
    by reading the body of a 2xx response) is caught and never thrown on as
    it is: what is thrown is the error the [catch] builds from it, which
    differs from it in name or in message. *)
Theorem createAppInBackend_errors (env : Env) (fileName appName : string)
    (user : AuthUser) (w : World) :
  let run := createAppInBackend env fileName appName user w in
  (forall e, fst run = Throw e ->
     name e = "Error"
     /\ (message e = timedOutMessage
         \/ message e = unreachableMessage
         \/ String.prefix "Deployment request failed: " (message e) = true))
  /\ (forall caught, idToken user = Throw caught ->
        fst run = Throw (rethrown caught) /\ rethrown caught <> caught)
  /\ (forall token afterMs caught,
        idToken user = Ok token ->
        fetchOutcome env = Fails afterMs caught ->
        (afterMs < timeoutMs)%Z ->
        fst run = Throw (rethrown caught) /\ rethrown caught <> caught)
  /\ (forall token afterMs r caught,
        idToken user = Ok token ->
        fetchOutcome env = Responds afterMs r ->
        (afterMs < timeoutMs)%Z ->
        ok r = true ->
        json r = Throw caught ->
        fst run = Throw (rethrown caught) /\ rethrown caught <> caught).
Proof.
  intros run. subst run. split; [ | split; [ | split ] ].
  - intros e Hthrow.
    destruct (createAppInBackend_throws env fileName appName user w e Hthrow)
      as [caught ->].
    split; [ apply rethrown_name | ].
    unfold rethrown, wrapped.
    destruct (String.eqb (name caught) "AbortError"); [ left; reflexivity | ].
    destruct (includes "fetch" (message caught)); [ right; left; reflexivity | ].
    right; right. cbn [message newError]. apply prefix_append.
  - intros caught Htok. split; [ | apply rethrown_differs ].
    cbv beta iota zeta delta
      [createAppInBackend tryCatch bind fetch settle recordRequest print throw ret].
    rewrite Htok. cbn [fst snd]. unfold rethrown, wrapped.
    destruct (String.eqb (name caught) "AbortError"); [ reflexivity | ].
    destruct (includes "fetch" (message caught)); reflexivity.
  - intros token afterMs caught Htok Hfetch Hlt.
    split; [ | apply rethrown_differs ].
    cbv beta iota zeta delta
      [createAppInBackend tryCatch bind fetch settle recordRequest print throw ret].
    rewrite Htok, Hfetch. apply Z.ltb_lt in Hlt. rewrite Hlt. cbn [fst snd].
    unfold rethrown, wrapped.
    destruct (String.eqb (name caught) "AbortError"); [ reflexivity | ].
    destruct (includes "fetch" (message caught)); reflexivity.
  - intros token afterMs r caught Htok Hfetch Hlt Hok Hjson.
    split; [ | apply rethrown_differs ].
    rewrite (createAppInBackend_2xx env fileName appName user w token afterMs r
               Htok Hfetch Hlt Hok), Hjson.
    unfold rethrown.
    destruct (String.eqb (name caught) "AbortError"); [ reflexivity | ].
    destruct (includes "fetch" (message caught)); reflexivity.
Qed.

(** A token that cannot be minted, and a connection that is refused: the
    caller sees the wrapped and the unreachable-service error. *)
Lemma createAppInBackend_errors_witness :
  fst (createAppInBackend envOk "shop.zip" "demo"
         (mkAuthUser "u1" None None (Throw (mkError "FirebaseError" "auth/user-token-expired")))
         world0)
    = Throw (newError "Deployment request failed: auth/user-token-expired")
  /\ fst (createAppInBackend
            (withFetch (Fails 40 (mkError "TypeError" "fetch failed")) envOk)
            "shop.zip" "demo" user0 world0)
     = Throw (newError
                "Unable to reach deployment service - please verify your internet connection").
Proof.
  split.
  - exact (proj1 (proj1 (proj2 (createAppInBackend_errors envOk "shop.zip" "demo"
                                  (mkAuthUser "u1" None None
                                     (Throw (mkError "FirebaseError" "auth/user-token-expired")))
                                  world0))
                   (mkError "FirebaseError" "auth/user-token-expired") eq_refl)).
  - exact (proj1 (proj1 (proj2 (proj2 (createAppInBackend_errors
                                         (withFetch (Fails 40 (mkError "TypeError" "fetch failed")) envOk)
                                         "shop.zip" "demo" user0 world0)))
                   "token-1" 40 (mkError "TypeError" "fetch failed")
                   eq_refl eq_refl eq_refl)).
Defined.


Lemma createAppInBackend_effects (env : Env)
    (fileName appName : string) (user : AuthUser) (w : World) :
  let run := createAppInBackend env fileName appName user w in
  disk (snd run) = disk w
  /\ uploads (snd run) = uploads w
  /\ (forall e, idToken user = Throw e ->
        requests (snd run) = requests w /\ fst run = Throw (rethrown e))
  /\ (forall token, idToken user = Ok token ->
        requests (snd run)
        = (requests w
             ++ [mkRequest BACKEND_ENDPOINT "POST" token "application/json"
                   fileName appName (abortedFlag (fetchOutcome env))])%list).
Proof.
  intros run. subst run.
  split; [ | split; [ | split ] ].
  - assert (H : keeps sameDisk (createAppInBackend env fileName appName user))
      by (unfold createAppInBackend; frame_steps).
    apply H.
  - assert (H : keeps sameUploads (createAppInBackend env fileName appName user))
      by (unfold createAppInBackend; frame_steps).
    apply H.
  - intros e He.
    cbv beta iota zeta delta
      [createAppInBackend tryCatch bind fetch settle recordRequest print throw ret].
    rewrite He. cbn [fst snd requests]. unfold rethrown, wrapped.
    destruct (String.eqb (name e) "AbortError"); [ split; reflexivity | ].
    destruct (includes "fetch" (message e)); split; reflexivity.
  - intros token Htok.
    cbv beta iota zeta delta
      [createAppInBackend tryCatch bind fetch settle recordRequest print throw ret].
    rewrite Htok. cbn [fst snd].
    destruct (fetchOutcome env) as [afterMs r | afterMs e | ]; cbn [abortedFlag];
      try destruct (afterMs <? timeoutMs)%Z; cbn [negb fst snd];
      repeat case_match; simplify_eq; cbn; reflexivity.
Qed.

(** X2: [createAppInBackend] leaves the disk and the object store alone;
    when the user's token cannot be obtained it sends nothing and fails with
    the rethrown token error; otherwise it sends exactly one request: a POST
    to the backend endpoint with that token as bearer, the JSON content
    type, the file name and the app name, aborted exactly when the backend
    has not settled within the time limit. *)
Theorem createAppInBackend_sends_one_request (env : Env)
    (fileName appName : string) (user : AuthUser) (w : World) :
  let run := createAppInBackend env fileName appName user w in
  disk (snd run) = disk w
  /\ uploads (snd run) = uploads w
  /\ match idToken user with
     | Ok token =>
         requests (snd run)
         = (requests w
              ++ [mkRequest BACKEND_ENDPOINT "POST" token "application/json"
                    fileName appName (abortedFlag (fetchOutcome env))])%list
     | Throw e =>
         requests (snd run) = requests w /\ fst run = Throw (rethrown e)
     end.
Proof.
  intros run. subst run.
  destruct (createAppInBackend_effects env fileName appName user w)
    as (Hdisk & Huploads & Hnone & Hone).
  split; [ exact Hdisk | ]. split; [ exact Huploads | ].
  destruct (idToken user) as [token | e].
  - apply Hone. reflexivity.
  - apply Hnone. reflexivity.
Qed.

(** X3: with the user's token at hand, a response in time with a status
    outside 200-299 makes the publication fail with [Deployment request
    failed: Deployment service error (status): detail], the detail being the
    response text (the status text when the text cannot be read); but when
    that message contains [fetch] (a word of the backend's own text is
    enough) the failure is reported as an unreachable service instead. *)
Theorem publish_rejects_other_status (env : Env) (fileName appName : string)
    (user : AuthUser) (w : World) (token : string) (afterMs : Z)
    (r : Response) :
  idToken user = Ok token ->
  fetchOutcome env = Responds afterMs r ->
  (afterMs < timeoutMs)%Z ->
  (status r < 200 \/ 299 < status r)%Z ->
  let detail := match text r with
                | Ok body => body
                | Throw _ => statusText r
                end in
  let msg := "Deployment service error (" +:+ decimal (status r) +:+ "): "
             +:+ detail in
  fst (createAppInBackend env fileName appName user w)
  = Throw (if includes "fetch" msg then newError unreachableMessage
           else newError ("Deployment request failed: " +:+ msg)).
Proof.
  intros Htok Hfetch Hlt Hstatus detail msg. subst detail msg.
  assert (Hok : ok r = false).
  { unfold ok. apply andb_false_iff. destruct Hstatus; [ left | right ];
      apply Z.leb_gt; lia. }
  cbv beta iota zeta delta
    [createAppInBackend tryCatch bind fetch settle recordRequest print throw ret].
  rewrite Htok, Hfetch. apply Z.ltb_lt in Hlt. rewrite Hlt. cbn [fst snd].
  rewrite Hok. cbn [fst snd name message newError].
  change (String.eqb "Error" "AbortError") with false. cbv iota.
  match goal with |- context [includes "fetch" ?m] =>
    destruct (includes "fetch" m) end; reflexivity.
Qed.

(** A status 500 whose text mentions a fetch is reported as an unreachable
    service. *)
Lemma publish_rejects_other_status_witness :
  fst (createAppInBackend envBackendDown "shop.zip" "demo" user0 world0)
  = Throw (newError unreachableMessage).
Proof.
  apply (publish_rejects_other_status envBackendDown "shop.zip" "demo" user0 world0
           "token-1" 80
           (mkResponse 500 "Internal Server Error"
              (Throw (mkError "SyntaxError" "Unexpected token"))
              (Ok "upstream fetch failed"))).
  - reflexivity.
  - reflexivity.
  - vm_compute. reflexivity.
  - right. vm_compute. reflexivity.
Defined.

(** * The upload, and what a run leaves on the remote side *)

Lemma uploadToFirebase_cases (env : Env) (filePath : Path)
    (fileName : string) (user : AuthUser) (w : World) :
  let run := uploadToFirebase env filePath fileName user w in
  requests (snd run) = requests w
  /\ ((uploads (snd run) = uploads w /\ exists e, fst run = Throw e)
      \/ (exists archive,
            disk w !! filePath = Some archive
            /\ uploads (snd run) = (uploads w ++ [storedAs user fileName archive])%list
            /\ ((fst run = Ok fileName /\ uploadError env = None
                 /\ readFileError env = None)
                \/ exists e, fst run = Throw e))).
Proof.
  intros run. subst run. split.
  - assert (H : keeps sameRequests (uploadToFirebase env filePath fileName user))
      by (unfold uploadToFirebase; frame_steps).
    apply H.
  - unfold uploadToFirebase, bind, readFile, recordUpload, prints, print,
      throw, ret, storedAs.
    destruct (readFileError env) as [e | ] eqn:He; cbn [fst snd];
      [ left; split; [ reflexivity | eauto ] | ].
    destruct (disk w !! filePath) as [archive | ] eqn:Hf; cbn [fst snd];
      [ | left; split; [ reflexivity | eauto ] ].
    right. exists archive.
    destruct (uploadError env) as [e | ] eqn:Hue;
      destruct (negb (length (snapshots env) =? 0)%nat); cbn;
      (split; [ reflexivity | split; [ reflexivity | ] ]); eauto.
Qed.

(** X4: when the local archive cannot be read (the read fails, or there is
    no such file) [uploadToFirebase] rejects with the read error, uploads
    nothing and prints nothing: the world is as before. *)
Theorem uploadToFirebase_unreadable (env : Env) (filePath : Path)
    (fileName : string) (user : AuthUser) (w : World) :
  readFileError env <> None \/ disk w !! filePath = None ->
  let run := uploadToFirebase env filePath fileName user w in
  snd run = w
  /\ (exists e, fst run = Throw e)
  /\ (forall e, readFileError env = Some e -> fst run = Throw e).
Proof.
  intros Hbad run. subst run.
  unfold uploadToFirebase, bind, readFile.
  destruct (readFileError env) as [e | ] eqn:He.
  - cbn. split; [ reflexivity | split; [ eauto | ] ]. intros e' [= <-]. reflexivity.
  - destruct Hbad as [H | H]; [ congruence | ]. rewrite H. cbn.
    split; [ reflexivity | split; [ eauto | discriminate ] ].
Qed.

(** No archive on the disk: nothing happens. *)
Lemma uploadToFirebase_unreadable_witness :
  snd (uploadToFirebase envOk (tempZipPathOf envOk) "shop.zip" user0 world0) = world0.
Proof.
  apply (uploadToFirebase_unreadable envOk (tempZipPathOf envOk) "shop.zip" user0 world0).
  right. vm_compute. reflexivity.
Defined.

Lemma cleanup_sameUploads env p : keeps sameUploads (cleanup env p).
Proof. unfold cleanup. frame_steps. Qed.
Lemma cleanup_sameRequests env p : keeps sameRequests (cleanup env p).
Proof. unfold cleanup. frame_steps. Qed.
Lemma outerCatch_sameUploads r : keeps sameUploads (outerCatch r).
Proof. unfold outerCatch. frame_steps. Qed.
Lemma outerCatch_sameRequests r : keeps sameRequests (outerCatch r).
Proof. unfold outerCatch. frame_steps. Qed.

Lemma uploadAndPublish_remote env p fileName appName user w archive :
  disk w !! p = Some archive ->
  remoteEffects env user archive fileName appName w
    (snd (uploadAndPublish env p fileName appName user w)).
Proof.
  intros Hfile.
  unfold uploadAndPublish. unfold bind at 1.
  destruct (uploadToFirebase_cases env p fileName user w) as [Hreq Hup].
  assert (Hup' :
    (uploads (snd (uploadToFirebase env p fileName user w)) = uploads w
     /\ exists e, fst (uploadToFirebase env p fileName user w) = Throw e)
    \/ (uploads (snd (uploadToFirebase env p fileName user w))
          = (uploads w ++ [storedAs user fileName archive])%list
        /\ ((fst (uploadToFirebase env p fileName user w) = Ok fileName
             /\ uploadError env = None /\ readFileError env = None)
            \/ exists e, fst (uploadToFirebase env p fileName user w) = Throw e))).
  { destruct Hup as [H | (a & Ha & H)]; [ left; exact H | right ].
    rewrite Hfile in Ha. injection Ha as <-. exact H. }
  clear Hup. rename Hup' into Hup.
  destruct (uploadToFirebase env p fileName user w) as [[n | e] w1]; cbn [fst snd] in *.
  - destruct Hup as [[_ [e He]] | (Hu & [(Hn & Hue & Hre) | [e He]])];
      try discriminate.
    injection Hn as ->.
    unfold bind at 1. cbn [print]. unfold bind at 1. cbn [print].
    unfold bind at 1. cbn [print]. unfold bind at 1.
    match goal with |- context [createAppInBackend env fileName appName user ?w0] =>
      destruct (createAppInBackend_effects env fileName appName user w0)
        as (_ & Hu2 & Hthrow & Hsend);
      destruct (createAppInBackend env fileName appName user w0) as [[v | e] w2]
    end; cbn [fst snd uploads requests] in *.
    + unfold bind, print. cbn [fst snd uploads requests].
      destruct (idToken user) as [token | err] eqn:Htok.
      * right; right. exists token.
        rewrite Hu2, (Hsend token eq_refl), Hu, Hreq.
        repeat split; assumption.
      * right; left.
        rewrite Hu2, (proj1 (Hthrow err eq_refl)), Hu, Hreq. split; reflexivity.
    + destruct (idToken user) as [token | err] eqn:Htok.
      * right; right. exists token.
        rewrite Hu2, (Hsend token eq_refl), Hu, Hreq. repeat split; assumption.
      * right; left.
        rewrite Hu2, (proj1 (Hthrow err eq_refl)), Hu, Hreq. split; reflexivity.
  - destruct Hup as [[Hu _] | (Hu & _)].
    + left. split; assumption.
    + right; left. split; assumption.
Qed.

(** Membership in a console that ends with the line looked for, or
    nearly. *)
Ltac in_tail :=
  solve [ repeat first [ apply in_or_app; right; solve [ cbn [In]; auto 8 ]
                       | apply in_or_app; left ] ].

Lemma createApp_archive_failed_world env user w err :
  noAppName (Prompt.appName (textPrompt validate (keys env))) = false ->
  archiveError env = Some err ->
  uploads (snd (createApp env user w)) = uploads w
  /\ requests (snd (createApp env user w)) = requests w
  /\ In (SpinnerFail "Failed to create project archive")
       (console (snd (createApp env user w)))
  /\ (String.eqb (name err) "ExitPromptError" = false ->
      In (LogError ("App creation failed: " +:+ message err))
        (console (snd (createApp env user w)))).
Proof.
  intros Hno Harch.
  unfold createApp, tryCatch, bind, tryFinally, print, prints, createZipFile, throw.
  simpl. rewrite Hno. simpl. rewrite Harch. simpl.
  destruct (String.eqb (name err) "ExitPromptError"); simpl;
    (split; [ reflexivity | split; [ reflexivity | split ] ]);
    try discriminate; intros; in_tail.
Qed.

Lemma worldAfterArchive_file env user w :
  disk (worldAfterArchive env user w) !! tempZipPathOf env = Some (archiveOf env).
Proof. unfold worldAfterArchive. cbn [disk]. apply lookup_insert_eq. Qed.

Lemma createApp_remote env user w :
  let w' := snd (createApp env user w) in
  let stored := storedAs user (zipFileNameOf env) (archiveOf env) in
  (uploads w' = uploads w /\ requests w' = requests w)
  \/ (noAppName (Prompt.appName (textPrompt validate (keys env))) = false
      /\ archiveError env = None
      /\ uploads w' = (uploads w ++ [stored])%list
      /\ requests w' = requests w)
  \/ (exists token,
        noAppName (Prompt.appName (textPrompt validate (keys env))) = false
        /\ archiveError env = None
        /\ idToken user = Ok token
        /\ uploadError env = None /\ readFileError env = None
        /\ uploads w' = (uploads w ++ [stored])%list
        /\ requests w'
           = (requests w
                ++ [publishRequest env token (zipFileNameOf env) (chosenName env)])%list).
Proof.
  intros w' stored. subst w' stored.
  destruct (noAppName (Prompt.appName (textPrompt validate (keys env)))) eqn:Hno.
  - left. rewrite (createApp_cancelled env user w Hno). split; reflexivity.
  - destruct (archiveError env) as [err | ] eqn:Harch.
    + left. destruct (createApp_archive_failed_world env user w err Hno Harch)
        as (Hu & Hr & _). split; assumption.
    + rewrite (createApp_archived env user w Hno Harch). cbv zeta.
      pose proof (uploadAndPublish_remote env (tempZipPathOf env) (zipFileNameOf env)
                    (chosenName env) user (worldAfterArchive env user w)
                    (archiveOf env) (worldAfterArchive_file env user w)) as Hrem.
      fold (chosenName env).
      destruct (uploadAndPublish _ _ _ _ _ _) as [r w2]. cbn [snd] in Hrem.
      rewrite (outerCatch_sameUploads r _), (outerCatch_sameRequests r _).
      rewrite (cleanup_sameUploads env _ w2), (cleanup_sameRequests env _ w2).
      unfold remoteEffects in Hrem. cbn [worldAfterArchive uploads requests] in Hrem.
      destruct Hrem as [H | [[H1 H2] | (token & H1 & H2 & H3 & H4 & H5)]];
        [ left; exact H | right; left; repeat split; assumption | ].
      right; right. exists token. repeat split; assumption.
Qed.

Lemma createApp_failure env user w e :
  fst (createApp env user w) = Throw e ->
  String.eqb (name e) "ExitPromptError" = false
  /\ In (LogError ("App creation failed: " +:+ message e))
       (console (snd (createApp env user w))).
Proof.
  unfold createApp.
  match goal with |- context [tryCatch ?b ?h w] =>
    set (body := b); set (handler := h) end.
  unfold tryCatch. destruct (body w) as [[[] | err] w1]; cbn [fst snd].
  - discriminate.
  - subst handler. cbv beta.
    destruct (String.eqb (name err) "ExitPromptError") eqn:Hname.
    + cbn. discriminate.
    + unfold bind, print, throw. cbn.
      intros [= <-]. split; [ exact Hname | ].
      in_tail.
Qed.

(** X5: when [createApp] throws, the error is not named [ExitPromptError],
    the line [App creation failed: ] with its message is on the console, and
    [init] ends with status 1. *)
Theorem createApp_failure_reported (env : Env) (user : AuthUser) (w : World)
    (e : Error) :
  fst (createApp env user w) = Throw e ->
  name e <> "ExitPromptError"
  /\ In (LogError ("App creation failed: " +:+ message e))
       (console (snd (init env user w)))
  /\ fst (init env user w) = 1%Z.
Proof.
  intros He. destruct (createApp_failure env user w e He) as [Hname Hin].
  unfold init. destruct (createApp env user w) as [r w']. cbn [fst snd] in *.
  subst r. cbn [exitStatus]. rewrite Hname.
  split; [ | split; [ exact Hin | reflexivity ] ].
  intros H. rewrite H in Hname. discriminate.
Qed.

(** The archiver fails: status 1. *)
Lemma createApp_failure_reported_witness :
  fst (init envArchiveFails user0 world0) = 1.
Proof.
  apply (createApp_failure_reported envArchiveFails user0 world0
           (newError "EACCES: permission denied")).
  vm_compute. reflexivity.
Defined.

(** X6: a run of [createApp] adds at most one upload and at most one
    request, and no request without an upload.  An upload is that of the
    archive just written, under the user's identifier and the archive's
    name, and takes a name from the prompt and an archiver that did not
    fail; a request is sent only after an upload that completed, and carries
    the user's token, the archive's name and the trimmed app name. *)
Theorem createApp_remote_effects (env : Env) (user : AuthUser) (w : World) :
  let w' := snd (createApp env user w) in
  exists sent posted,
    uploads w' = (uploads w ++ sent)%list
    /\ requests w' = (requests w ++ posted)%list
    /\ (length posted <= length sent <= 1)%nat
    /\ (sent <> [] ->
        sent = [storedAs user (zipFileNameOf env) (archiveOf env)]
        /\ noAppName (Prompt.appName (textPrompt validate (keys env))) = false
        /\ archiveError env = None)
    /\ (posted <> [] ->
        uploadError env = None
        /\ exists token,
             idToken user = Ok token
             /\ posted = [publishRequest env token (zipFileNameOf env)
                            (chosenName env)]).
Proof.
  intros w'. subst w'.
  destruct (createApp_remote env user w)
    as [[Hu Hr] | [(Hno & Harch & Hu & Hr)
                  | (token & Hno & Harch & Htok & Hue & _ & Hu & Hr)]].
  - exists [], []. rewrite !app_nil_r.
    repeat split; try assumption; try (cbn; lia); congruence.
  - exists [storedAs user (zipFileNameOf env) (archiveOf env)], [].
    rewrite app_nil_r.
    repeat split; try assumption; try (cbn; lia); congruence.
  - exists [storedAs user (zipFileNameOf env) (archiveOf env)],
           [publishRequest env token (zipFileNameOf env) (chosenName env)].
    repeat split; try assumption; try (cbn; lia).
    exists token. split; [ exact Htok | reflexivity ].
Qed.

(** * Success and failure of the publication; the disk *)

(** [createAppInBackend] resolves only through the 2xx branch. *)
Lemma createAppInBackend_resolves env fileName appName user w v :
  fst (createAppInBackend env fileName appName user w) = Ok v ->
  exists token afterMs r body,
    idToken user = Ok token
    /\ fetchOutcome env = Responds afterMs r
    /\ (afterMs < timeoutMs)%Z
    /\ (200 <= status r <= 299)%Z
    /\ json r = Ok body
    /\ getAppId body = Ok (Some v)
    /\ truthy (Some v) = true.
Proof.
  cbv beta iota zeta delta
    [createAppInBackend tryCatch bind fetch settle recordRequest print throw ret].
  destruct (idToken user) as [token | e0] eqn:Htok; cbn [fst snd].
  2:{ repeat case_match; simplify_eq; cbn; discriminate. }
  destruct (fetchOutcome env) as [afterMs r | afterMs e | ] eqn:Hf.
  - destruct (afterMs <? timeoutMs)%Z eqn:Hlt; cbn [fst snd].
    2:{ repeat case_match; simplify_eq; cbn; discriminate. }
    destruct (ok r) eqn:Hok; cbn [fst snd].
    2:{ repeat case_match; simplify_eq; cbn; discriminate. }
    destruct (json r) as [body | e1] eqn:Hjson; cbn [fst snd].
    2:{ repeat case_match; simplify_eq; cbn; discriminate. }
    destruct (getAppId body) as [[v' | ] | e2] eqn:Hid; cbn [fst snd].
    + destruct (truthy (Some v')) eqn:Htr; cbn [negb fst snd].
      * intros [= ->]. exists token, afterMs, r, body.
        unfold ok in Hok. apply andb_prop in Hok. destruct Hok as [H1 H2].
        apply Z.leb_le in H1, H2. apply Z.ltb_lt in Hlt.
        repeat split; try assumption; reflexivity.
      * repeat case_match; simplify_eq; cbn; discriminate.
    + cbn. discriminate.
    + repeat case_match; simplify_eq; cbn; discriminate.
  - destruct (afterMs <? timeoutMs)%Z; cbn [fst snd];
      repeat case_match; simplify_eq; cbn; discriminate.
  - cbn [fst snd]. repeat case_match; simplify_eq; cbn; discriminate.
Qed.

(** X7: [createAppInBackend] returns a value exactly when the user's token
    was obtained, the backend answered within the time limit with a status
    in 200-299 and a JSON body, and the [appId] of that body is truthy; the
    value returned is that [appId]. *)
Theorem createAppInBackend_resolves_iff (env : Env)
    (fileName appName : string) (user : AuthUser) (w : World) (v : Json) :
  fst (createAppInBackend env fileName appName user w) = Ok v
  <-> exists token afterMs r body,
        idToken user = Ok token
        /\ fetchOutcome env = Responds afterMs r
        /\ (afterMs < timeoutMs)%Z
        /\ (200 <= status r <= 299)%Z
        /\ json r = Ok body
        /\ getAppId body = Ok (Some v)
        /\ truthy (Some v) = true.
Proof.
  split; [ apply createAppInBackend_resolves | ].
  intros (token & afterMs & r & body & Htok & Hfetch & Hlt & Hstatus & Hjson
          & Hid & Htruthy).
  assert (Hok : ok r = true).
  { unfold ok. apply andb_true_intro. split; apply Z.leb_le; lia. }
  rewrite (createAppInBackend_2xx env fileName appName user w token afterMs r
             Htok Hfetch Hlt Hok).
  rewrite Hjson, Hid, Htruthy. reflexivity.
Qed.

(** ** Only the temporary archive is touched *)

#[export] Instance sameElsewhere_frame p : Frame (sameElsewhere p).
Proof.
  split.
  - intros w q _. reflexivity.
  - intros a b c Hab Hbc q Hq. rewrite (Hbc q Hq). apply Hab, Hq.
Qed.

Lemma sameDisk_sameElsewhere p {A} (m : M A) :
  keeps sameDisk m -> keeps (sameElsewhere p) m.
Proof. intros H w q _. rewrite (H w). reflexivity. Qed.

Lemma unlink_sameElsewhere env p : keeps (sameElsewhere p) (unlink env p).
Proof.
  intros w q Hq. unfold unlink.
  destruct (unlinkError env); [ reflexivity | ].
  destruct (disk w !! p); [ | reflexivity ].
  cbn [snd setDisk disk]. apply lookup_delete_ne. congruence.
Qed.

Lemma createZipFile_sameElsewhere env s p :
  keeps (sameElsewhere p) (createZipFile env s p).
Proof.
  intros w q Hq. unfold createZipFile.
  destruct (archiveError env); cbn [snd print setDisk disk].
  - apply lookup_insert_ne. congruence.
  - rewrite !lookup_insert_ne by congruence. reflexivity.
Qed.

#[export] Hint Resolve unlink_sameElsewhere createZipFile_sameElsewhere : frame.
#[export] Hint Extern 5 (keeps (sameElsewhere _) _) =>
  apply sameDisk_sameElsewhere : frame.

Lemma createApp_sameElsewhere env user :
  keeps (sameElsewhere (tempZipPathOf env)) (createApp env user).
Proof. unfold createApp, uploadAndPublish, cleanup, tempZipPathOf, zipFileNameOf. frame_steps. Qed.

(** X8: the only path of the local disk that [createApp] (and so [init])
    creates, changes or removes is the temporary archive in the current
    directory; every other path holds afterwards what it held before. *)
Theorem createApp_touches_one_file (env : Env) (user : AuthUser) (w : World)
    (q : Path) :
  q <> tempZipPathOf env ->
  disk (snd (createApp env user w)) !! q = disk w !! q
  /\ disk (snd (init env user w)) !! q = disk w !! q.
Proof.
  intros Hq. pose proof (createApp_sameElsewhere env user w q Hq) as H.
  split; [ exact H | ].
  unfold init. destruct (createApp env user w) as [r w']. exact H.
Qed.

(** The sample run does not touch a source file. *)
Lemma createApp_touches_one_file_witness :
  disk (snd (createApp envOk user0 world0)) !! ["home"; "dev"; "shop"; "index.ts"]
  = disk world0 !! ["home"; "dev"; "shop"; "index.ts"].
Proof.
  assert (H : ["home"; "dev"; "shop"; "index.ts"] <> tempZipPathOf envOk)
    by (vm_compute; discriminate).
  exact (proj1 (createApp_touches_one_file envOk user0 world0
                  ["home"; "dev"; "shop"; "index.ts"] H)).
Defined.

(** How [uploadToFirebase] settles. *)
Lemma uploadToFirebase_settles env p fileName user w :
  match fst (uploadToFirebase env p fileName user w) with
  | Ok n =>
      n = fileName /\ readFileError env = None /\ uploadError env = None
      /\ disk w !! p <> None
  | Throw e =>
      readFileError env = Some e
      \/ (disk w !! p = None
          /\ e = mkError "Error" "ENOENT: no such file or directory")
      \/ uploadError env = Some e
  end.
Proof.
  unfold uploadToFirebase, bind, readFile, recordUpload, prints, print, throw, ret.
  destruct (readFileError env) as [e | ] eqn:He; cbn [fst snd]; [ now left | ].
  destruct (disk w !! p) as [b | ] eqn:Hp; cbn [fst snd]; [ | right; left; now split ].
  destruct (uploadError env) as [e | ] eqn:Hue;
    destruct (negb (length (snapshots env) =? 0)%nat); cbn; auto.
Qed.

Lemma createAppInBackend_consoleGrows env f a u :
  keeps consoleGrows (createAppInBackend env f a u).
Proof. unfold createAppInBackend. frame_steps. Qed.

Lemma uploadToFirebase_consoleGrows env p f u :
  keeps consoleGrows (uploadToFirebase env p f u).
Proof. unfold uploadToFirebase. frame_steps. Qed.

Lemma cleanup_consoleGrows env p : keeps consoleGrows (cleanup env p).
Proof. unfold cleanup. frame_steps. Qed.

(** How the inner [try] body settles: an error comes from the upload or
    from the publication; success has gone through both and has shown the
    app id. *)
Lemma uploadAndPublish_settles env p fileName appName user w :
  let run := uploadAndPublish env p fileName appName user w in
  match fst run with
  | Ok _ =>
      fst (uploadToFirebase env p fileName user w) = Ok fileName
      /\ exists v w1,
           fst (createAppInBackend env fileName appName user w1) = Ok v
           /\ In (LogAppId v) (console (snd run))
           /\ In (LogDashboard v) (console (snd run))
  | Throw e =>
      fst (uploadToFirebase env p fileName user w) = Throw e
      \/ exists w1, fst (createAppInBackend env fileName appName user w1) = Throw e
  end.
Proof.
  intros run. subst run.
  destruct (uploadAndPublish env p fileName appName user w) as [r w'] eqn:Hrun.
  cbn [fst snd]. unfold uploadAndPublish in Hrun. unfold bind at 1 in Hrun.
  pose proof (uploadToFirebase_settles env p fileName user w) as Hup.
  destruct (uploadToFirebase env p fileName user w) as [[n | e] w1]; cbn [fst snd] in *.
  2:{ injection Hrun as <- <-. now left. }
  destruct Hup as (-> & _).
  unfold bind at 1 in Hrun. cbn [print] in Hrun.
  unfold bind at 1 in Hrun. cbn [print] in Hrun.
  unfold bind at 1 in Hrun. cbn [print] in Hrun.
  unfold bind at 1 in Hrun.
  match type of Hrun with context [createAppInBackend env fileName appName user ?w0] =>
    set (w2 := w0) in Hrun end.
  destruct (createAppInBackend env fileName appName user w2) as [[v | e] w3] eqn:Hb.
  - unfold bind, print in Hrun. cbn [fst snd console] in Hrun.
    injection Hrun as <- <-.
    split; [ reflexivity | ]. exists v, w2. rewrite Hb. cbn [fst].
    split; [ reflexivity | ]. cbn [console]. split; in_tail.
  - injection Hrun as <- <-. right. exists w2. rewrite Hb. reflexivity.
Qed.

Lemma uploadAndPublish_ok env p fileName appName user w archive :
  let run := uploadAndPublish env p fileName appName user w in
  disk w !! p = Some archive ->
  fst run = Ok tt ->
  readFileError env = None /\ uploadError env = None
  /\ uploads (snd run) = (uploads w ++ [storedAs user fileName archive])%list
  /\ exists token v,
       idToken user = Ok token
       /\ requests (snd run)
          = (requests w ++ [publishRequest env token fileName appName])%list
       /\ (exists w1, fst (createAppInBackend env fileName appName user w1) = Ok v)
       /\ In (LogAppId v) (console (snd run))
       /\ In (LogDashboard v) (console (snd run)).
Proof.
  intros run Hfile. subst run.
  destruct (uploadAndPublish env p fileName appName user w) as [r w'] eqn:Hrun.
  cbn [fst snd]. intros ->.
  unfold uploadAndPublish in Hrun. unfold bind at 1 in Hrun.
  pose proof (uploadToFirebase_settles env p fileName user w) as Hup.
  destruct (uploadToFirebase_cases env p fileName user w) as [Hreq Hcases].
  destruct (uploadToFirebase env p fileName user w) as [[n | e] w1];
    cbn [fst snd] in *; [ | discriminate ].
  destruct Hup as (-> & Hre & Hue & _).
  destruct Hcases as [[_ [e He]] | (a & Ha & Hu & _)]; [ discriminate | ].
  rewrite Hfile in Ha. injection Ha as <-.
  unfold bind at 1 in Hrun. cbn [print] in Hrun.
  unfold bind at 1 in Hrun. cbn [print] in Hrun.
  unfold bind at 1 in Hrun. cbn [print] in Hrun.
  unfold bind at 1 in Hrun.
  match type of Hrun with context [createAppInBackend env fileName appName user ?w0] =>
    set (w2 := w0) in Hrun end.
  destruct (createAppInBackend_effects env fileName appName user w2)
    as (_ & Hu2 & Hthrow & Hsend).
  destruct (createAppInBackend env fileName appName user w2) as [[v | e] w3] eqn:Hb;
    cbn [fst snd] in *; [ | discriminate ].
  unfold bind, print in Hrun. cbn [fst snd console] in Hrun.
  injection Hrun as <-.
  split; [ exact Hre | split; [ exact Hue | ] ].
  cbn [uploads requests console].
  split; [ rewrite Hu2; subst w2; cbn [uploads]; exact Hu | ].
  destruct (idToken user) as [token | err] eqn:Htok.
  - exists token, v. split; [ reflexivity | ].
    split; [ rewrite (Hsend token eq_refl); subst w2; cbn [requests];
             rewrite Hreq; reflexivity | ].
    split; [ exists w2; rewrite Hb; reflexivity | ].
    split; in_tail.
  - destruct (Hthrow err eq_refl) as [_ H]. discriminate.
Qed.

Lemma abortedFlag_in_time env afterMs r :
  fetchOutcome env = Responds afterMs r -> (afterMs < timeoutMs)%Z ->
  abortedFlag (fetchOutcome env) = false.
Proof.
  intros -> H. cbn [abortedFlag]. apply Z.ltb_lt in H. rewrite H. reflexivity.
Qed.

(** X9: when nothing fails (a name is given, the archive is written and
    read, the upload completes, the token is there, the backend answers in
    time with a status in 200-299 and a truthy app id) [createApp] returns
    normally, with exactly one upload (the archive just written, under the
    user's identifier) and exactly one request that was not aborted, and the
    app id, the dashboard line and the completion line are on the console.
    *)
Theorem createApp_publishes (env : Env) (user : AuthUser) (w : World)
    (token : string) (afterMs : Z) (r : Response) (body v : Json) :
  noAppName (Prompt.appName (textPrompt validate (keys env))) = false ->
  archiveError env = None -> readFileError env = None ->
  uploadError env = None ->
  idToken user = Ok token ->
  fetchOutcome env = Responds afterMs r -> (afterMs < timeoutMs)%Z ->
  (200 <= status r <= 299)%Z ->
  json r = Ok body -> getAppId body = Ok (Some v) -> truthy (Some v) = true ->
  let w' := snd (createApp env user w) in
  fst (createApp env user w) = Ok tt
  /\ uploads w'
     = (uploads w ++ [storedAs user (zipFileNameOf env) (archiveOf env)])%list
  /\ requests w'
     = (requests w
          ++ [mkRequest BACKEND_ENDPOINT "POST" token "application/json"
                (zipFileNameOf env) (chosenName env) false])%list
  /\ In (LogAppId v) (console w')
  /\ In (LogDashboard v) (console w')
  /\ In (Log "App creation completed successfully!") (console w').
Proof.
  intros Hno Harch Hread Hup Htok Hfetch Hlt Hstatus Hjson Hid Htruthy w'.
  subst w'.
  assert (Hok : ok r = true).
  { unfold ok. apply andb_true_intro. split; apply Z.leb_le; lia. }
  assert (Hback : forall f a w0, fst (createAppInBackend env f a user w0) = Ok v).
  { intros f a w0.
    rewrite (createAppInBackend_2xx env f a user w0 token afterMs r Htok Hfetch Hlt Hok).
    rewrite Hjson, Hid, Htruthy. reflexivity. }
  rewrite (createApp_archived env user w Hno Harch). cbv zeta. fold (chosenName env).
  pose proof (uploadAndPublish_settles env (tempZipPathOf env) (zipFileNameOf env)
                (chosenName env) user (worldAfterArchive env user w)) as Hset.
  pose proof (uploadAndPublish_ok env (tempZipPathOf env) (zipFileNameOf env)
                (chosenName env) user (worldAfterArchive env user w) (archiveOf env)
                (worldAfterArchive_file env user w)) as Hrun.
  pose proof (uploadToFirebase_settles env (tempZipPathOf env) (zipFileNameOf env)
                user (worldAfterArchive env user w)) as Hupl.
  cbv zeta in Hset, Hrun.
  destruct (uploadAndPublish _ _ _ _ _ _) as [[[] | e] w2]; cbn [fst snd] in *.
  - destruct (Hrun eq_refl)
      as (_ & _ & Hu & tok & v' & Htok' & Hr & [w1 Hv] & Hl1 & Hl2).
    rewrite Hback in Hv. injection Hv as <-.
    rewrite Htok in Htok'. injection Htok' as <-.
    unfold outerCatch. cbn [print fst snd uploads requests console].
    rewrite (cleanup_sameUploads env _ w2), (cleanup_sameRequests env _ w2).
    split; [ reflexivity | split; [ exact Hu | split ] ].
    + rewrite Hr. unfold publishRequest.
      rewrite (abortedFlag_in_time env afterMs r Hfetch Hlt). reflexivity.
    + pose proof (cleanup_consoleGrows env (tempZipPathOf env) w2) as Hg.
      split; [ apply in_or_app; left; eapply consoleGrows_In; eauto | ].
      split; [ apply in_or_app; left; eapply consoleGrows_In; eauto | in_tail ].
  - exfalso. destruct Hset as [H | [w1 H]].
    + rewrite H in Hupl.
      destruct Hupl as [H1 | [[H1 _] | H1]]; try congruence.
      rewrite worldAfterArchive_file in H1. discriminate.
    + rewrite Hback in H. discriminate.
Qed.

(** The sample run. *)
Lemma createApp_publishes_witness :
  fst (createApp envOk user0 world0) = Ok tt
  /\ In (LogAppId (JString "abc123")) (console (snd (createApp envOk user0 world0))).
Proof.
  destruct (createApp_publishes envOk user0 world0 "token-1" 120
              (response200 (JObject [("appId", JString "abc123")]))
              (JObject [("appId", JString "abc123")]) (JString "abc123"))
    as (H1 & _ & _ & H2 & _);
    [ reflexivity | reflexivity | reflexivity | reflexivity | reflexivity
    | reflexivity | vm_compute; reflexivity | vm_compute; split; discriminate
    | reflexivity | reflexivity | reflexivity | ].
  split; [ exact H1 | exact H2 ].
Defined.

(** X10: conversely, when [createApp] got a name and returns normally, and
    no failure of the archiver, the read or the upload is named
    [ExitPromptError] (such an error would be taken for a cancellation),
    then nothing failed: the backend answered in time with a status in
    200-299 and a truthy app id, which is on the console. *)
Theorem createApp_ok_means_published (env : Env) (user : AuthUser) (w : World) :
  noAppName (Prompt.appName (textPrompt validate (keys env))) = false ->
  (forall e, archiveError env = Some e \/ readFileError env = Some e
             \/ uploadError env = Some e ->
             name e <> "ExitPromptError") ->
  fst (createApp env user w) = Ok tt ->
  exists token afterMs r body v,
    archiveError env = None /\ readFileError env = None
    /\ uploadError env = None
    /\ idToken user = Ok token
    /\ fetchOutcome env = Responds afterMs r /\ (afterMs < timeoutMs)%Z
    /\ (200 <= status r <= 299)%Z
    /\ json r = Ok body /\ getAppId body = Ok (Some v)
    /\ truthy (Some v) = true
    /\ In (LogAppId v) (console (snd (createApp env user w))).
Proof.
  intros Hno Hnames.
  destruct (archiveError env) as [err | ] eqn:Harch.
  { destruct (createApp_archive_failed env user w err Hno Harch) as [_ Hfst].
    rewrite Hfst.
    destruct (String.eqb_spec (name err) "ExitPromptError") as [Heq | Hne];
      [ | discriminate ].
    exfalso. apply (Hnames err); auto. }
  rewrite (createApp_archived env user w Hno Harch). cbv zeta. fold (chosenName env).
  pose proof (uploadAndPublish_settles env (tempZipPathOf env) (zipFileNameOf env)
                (chosenName env) user (worldAfterArchive env user w)) as Hset.
  pose proof (uploadAndPublish_ok env (tempZipPathOf env) (zipFileNameOf env)
                (chosenName env) user (worldAfterArchive env user w) (archiveOf env)
                (worldAfterArchive_file env user w)) as Hrun.
  pose proof (uploadToFirebase_settles env (tempZipPathOf env) (zipFileNameOf env)
                user (worldAfterArchive env user w)) as Hupl.
  cbv zeta in Hset, Hrun.
  destruct (uploadAndPublish _ _ _ _ _ _) as [[[] | e] w2]; cbn [fst snd] in *.
  - intros _.
    destruct (Hrun eq_refl)
      as (Hre & Hue & _ & tok & v & Htok & _ & [w1 Hv] & Hl1 & _).
    destruct (createAppInBackend_resolves _ _ _ _ _ _ Hv)
      as (token & afterMs & r & body & H1 & H2 & H3 & H4 & H5 & H6 & H7).
    exists token, afterMs, r, body, v.
    repeat (split; [ assumption || reflexivity | ]).
    eapply consoleGrows_In; [ apply outerCatch_consoleGrows | ].
    eapply consoleGrows_In; [ apply cleanup_consoleGrows | exact Hl1 ].
  - unfold outerCatch.
    destruct (String.eqb_spec (name e) "ExitPromptError") as [Heq | Hne].
    + intros _. exfalso. destruct Hset as [H | [w1 H]].
      * rewrite H in Hupl. destruct Hupl as [H1 | [[H1 H2] | H1]].
        -- apply (Hnames e); auto.
        -- subst e. discriminate.
        -- apply (Hnames e); auto.
      * destruct (createAppInBackend_throws _ _ _ _ _ _ H) as [caught ->].
        rewrite rethrown_name in Heq. discriminate.
    + unfold bind, print, throw. cbn. discriminate.
Qed.

(** The sample run, read backwards from its normal end. *)
Lemma createApp_ok_means_published_witness :
  exists token afterMs r body v,
    archiveError envOk = None /\ readFileError envOk = None
    /\ uploadError envOk = None
    /\ idToken user0 = Ok token
    /\ fetchOutcome envOk = Responds afterMs r /\ (afterMs < timeoutMs)%Z
    /\ (200 <= status r <= 299)%Z
    /\ json r = Ok body /\ getAppId body = Ok (Some v)
    /\ truthy (Some v) = true
    /\ In (LogAppId v) (console (snd (createApp envOk user0 world0))).
Proof.
  apply (createApp_ok_means_published envOk user0 world0).
  - reflexivity.
  - intros e [H | [H | H]]; vm_compute in H; discriminate H.
  - vm_compute. reflexivity.
Defined.

(** * The archive: failure, and what the ignore list covers *)

(** X11: when the archiver fails after a name was given, [createApp] throws
    the archiver's error as it is (unless that error is named
    [ExitPromptError]), nothing is uploaded and nothing is sent, the failure
    is on the console, and the file the write stream had opened is still on
    the disk. *)
Theorem createApp_archive_failure (env : Env) (user : AuthUser) (w : World)
    (err : Error) :
  noAppName (Prompt.appName (textPrompt validate (keys env))) = false ->
  archiveError env = Some err ->
  name err <> "ExitPromptError" ->
  let w' := snd (createApp env user w) in
  fst (createApp env user w) = Throw err
  /\ disk w' = <[tempZipPathOf env := Partial]> (disk w)
  /\ uploads w' = uploads w /\ requests w' = requests w
  /\ In (SpinnerFail "Failed to create project archive") (console w')
  /\ In (LogError ("App creation failed: " +:+ message err)) (console w').
Proof.
  intros Hno Harch Hname w'. subst w'.
  destruct (createApp_archive_failed env user w err Hno Harch) as [Hdisk Hfst].
  destruct (createApp_archive_failed_world env user w err Hno Harch)
    as (Hu & Hr & Hfail & Hlog).
  assert (Hneq : String.eqb (name err) "ExitPromptError" = false)
    by (apply String.eqb_neq; exact Hname).
  rewrite Hneq in Hfst.
  repeat split; try assumption. apply Hlog, Hneq.
Qed.

(** The archiver fails: its error is thrown, nothing is uploaded. *)
Lemma createApp_archive_failure_witness :
  fst (createApp envArchiveFails user0 world0)
  = Throw (newError "EACCES: permission denied")
  /\ uploads (snd (createApp envArchiveFails user0 world0)) = [].
Proof.
  destruct (createApp_archive_failure envArchiveFails user0 world0
              (newError "EACCES: permission denied"))
    as (H1 & _ & H2 & _);
    [ reflexivity | reflexivity | vm_compute; discriminate | ].
  split; [ exact H1 | exact H2 ].
Defined.

Lemma toArchiveEntry_inj sourceDir e e' :
  toArchiveEntry sourceDir e = toArchiveEntry sourceDir e' -> e = e'.
Proof.
  destruct e as [r d], e' as [r' d']. unfold toArchiveEntry. cbn.
  intros [= -> _ ->]. reflexivity.
Qed.

Lemma inIgnoredDirectory_top (e : Entry) :
  relative e <> [] -> forallb validName (relative e) = true ->
  inIgnoredDirectory e = true
  <-> exists top rest,
        relative e = top :: rest /\ In top ignoredDirectories
        /\ (isDirectory e = true \/ rest <> []).
Proof.
  intros Hne Hv. rewrite (inIgnoredDirectory_spec e Hne Hv).
  destruct (relative e) as [ | f rest ]; [ congruence | ].
  rewrite andb_true_iff, !orb_true_iff, negb_true_iff, Nat.eqb_neq.
  rewrite !String.eqb_eq. unfold ignoredDirectories. cbn [In]. split.
  - intros [Hf Hr]. exists f, rest. split; [ reflexivity | ]. split.
    + destruct Hf as [[-> | ->] | ->]; auto.
    + destruct Hr as [Hr | Hr]; [ now left | right ].
      destruct rest; [ contradiction | discriminate ].
  - intros (top & rest' & [= <- <-] & Hin & Hr). split.
    + destruct Hin as [<- | [<- | [<- | []]]]; auto.
    + destruct Hr as [Hr | Hr]; [ now left | right ].
      destruct rest; [ contradiction | cbn; discriminate ].
Qed.

(** X12: of the entries the walk meets, [createZipFile] (with the archive
    directly in the source directory, under a file name without special
    characters of the pattern language) archives exactly those that are not
    the archive itself and not one of the top-level directories
    [node_modules], [.git], [dist] or something below them; a directory of
    such a name further down, and a file of such a name, are archived. *)
Theorem ignore_globs_top_level_only (sourceDir : Path) (zipFileName : string)
    (listing : list Node) (e : Entry) :
  forallb wfNode listing = true ->
  plainName zipFileName = true ->
  In e (explore [] listing) ->
  exists entries,
    archiveEntries sourceDir (join sourceDir zipFileName) listing = Some entries
    /\ (In (toArchiveEntry sourceDir e) entries
        <-> relative e <> [zipFileName]
            /\ ~ (exists top rest,
                    relative e = top :: rest /\ In top ignoredDirectories
                    /\ (isDirectory e = true \/ rest <> []))).
Proof.
  intros Hwf Hplain Hin.
  rewrite (archiveEntries_contents sourceDir zipFileName listing Hwf Hplain).
  eexists. split; [ reflexivity | ].
  destruct (explore_valid listing e Hwf Hin) as [Hne Hv].
  rewrite <- (inIgnoredDirectory_top e Hne Hv).
  rewrite in_map_iff. split.
  - intros (e' & Heq & Hf). apply toArchiveEntry_inj in Heq. subst e'.
    apply filter_In in Hf. destruct Hf as [_ Hk].
    apply andb_prop in Hk. destruct Hk as [Hi Ha].
    apply negb_true_iff in Hi, Ha. unfold isTheArchive in Ha.
    apply bool_decide_eq_false in Ha. split; [ exact Ha | ]. congruence.
  - intros [Ha Hi]. exists e. split; [ reflexivity | ].
    apply filter_In. split; [ exact Hin | ].
    apply andb_true_intro. split; apply negb_true_iff.
    + destruct (inIgnoredDirectory e); [ contradiction Hi; reflexivity | reflexivity ].
    + unfold isTheArchive. apply bool_decide_eq_false. exact Ha.
Qed.

(** In the monorepo the dependency directory further down and the file named
    [dist] are archived, the top-level dependency directory is not. *)
Lemma ignore_globs_top_level_only_witness :
  exists entries,
    archiveEntries ["home"; "dev"; "shop"] (join ["home"; "dev"; "shop"] "shop.zip")
      monorepo = Some entries
    /\ In (toArchiveEntry ["home"; "dev"; "shop"]
             (mkEntry ["packages"; "web"; "node_modules"; "react.js"] false)) entries
    /\ In (toArchiveEntry ["home"; "dev"; "shop"] (mkEntry ["dist"] false)) entries
    /\ ~ In (toArchiveEntry ["home"; "dev"; "shop"]
               (mkEntry ["node_modules"; "left-pad.js"] false)) entries.
Proof.
  destruct (ignore_globs_top_level_only ["home"; "dev"; "shop"] "shop.zip" monorepo
              (mkEntry ["packages"; "web"; "node_modules"; "react.js"] false))
    as (entries & Heq & Hin1);
    [ reflexivity | reflexivity | vm_compute; auto 10 | ].
  destruct (ignore_globs_top_level_only ["home"; "dev"; "shop"] "shop.zip" monorepo
              (mkEntry ["dist"] false))
    as (entries2 & Heq2 & Hin2);
    [ reflexivity | reflexivity | vm_compute; auto 10 | ].
  destruct (ignore_globs_top_level_only ["home"; "dev"; "shop"] "shop.zip" monorepo
              (mkEntry ["node_modules"; "left-pad.js"] false))
    as (entries3 & Heq3 & Hin3);
    [ reflexivity | reflexivity | vm_compute; auto 10 | ].
  rewrite Heq in Heq2, Heq3. injection Heq2 as <-. injection Heq3 as <-.
  exists entries. split; [ exact Heq | ]. split; [ | split ].
  - apply Hin1. split; [ discriminate | ].
    intros (top & rest & [= <- <-] & Hin & _). cbn in Hin.
    destruct Hin as [H | [H | [H | []]]]; discriminate H.
  - apply Hin2. split; [ discriminate | ].
    intros (top & rest & [= <- <-] & _ & [H | H]); [ discriminate H | congruence ].
  - intros Hin. apply Hin3 in Hin. destruct Hin as [_ Hno]. apply Hno.
    exists "node_modules", ["left-pad.js"]. split; [ reflexivity | ].
    split; [ now left | right; discriminate ].
Defined.

(** * The earlier revision of [createZipFile] *)

Lemma validName_visible (f : string) :
  validName f = true ->
  swallowable false f = negb (String.prefix "." f)
  /\ starMatches false f = negb (String.prefix "." f).
Proof.
  intros Hf. destruct (validName_swallowable f Hf) as (Hsw & Hst & He).
  unfold starMatches, swallowable in *. cbn [orb] in *.
  rewrite andb_true_r in Hsw. rewrite Hsw, He. cbn. split; reflexivity.
Qed.

(** Without [dot] the pattern accepts the walked entries that have no
    hidden segment. *)
Lemma matchOne_visible (rel : list string) (dirSuffix : bool) :
  rel <> [] -> forallb validName rel = true ->
  matchOne false [GlobStar; Star] (rel ++ (if dirSuffix then [""] else []))
  = negb (existsb (String.prefix ".") rel).
Proof.
  induction rel as [ | f fs IH ]; [ congruence | ]. intros _ Hv.
  simpl in Hv. apply andb_prop in Hv. destruct Hv as [Hf Hfs].
  destruct (validName_visible f Hf) as (Hsw & Hst).
  destruct fs as [ | g gs ].
  - cbn [app existsb]. rewrite orb_false_r.
    destruct dirSuffix.
    + change (matchOne false [GlobStar; Star] [f; ""])
        with (starMatches false f && true
              || swallowable false f && (starMatches false "" && false || false)).
      rewrite Hst, Hsw. destruct (String.prefix "." f); reflexivity.
    + change (matchOne false [GlobStar; Star] [f])
        with (starMatches false f && true || swallowable false f && false).
      rewrite Hst, Hsw. destruct (String.prefix "." f); reflexivity.
  - specialize (IH ltac:(discriminate) Hfs).
    change (matchOne false [GlobStar; Star]
              ((f :: g :: gs) ++ (if dirSuffix then [""] else [])))
      with (matchOne false [Star]
              ((f :: g :: gs) ++ (if dirSuffix then [""] else []))
            || (swallowable false f
                && matchOne false [GlobStar; Star]
                     ((g :: gs) ++ (if dirSuffix then [""] else [])))).
    rewrite Hsw, IH.
    assert (Hstar : matchOne false [Star]
                      ((f :: g :: gs) ++ (if dirSuffix then [""] else [])) = false).
    { cbn [app matchOne]. simpl in Hfs. apply andb_prop in Hfs. destruct Hfs as [Hg _].
      destruct (validName_swallowable g Hg) as (_ & _ & Hg').
      destruct (gs ++ (if dirSuffix then [""] else []))%list;
        [ rewrite Hg' | ]; apply andb_false_r. }
    rewrite Hstar. cbn [existsb orb].
    destruct (String.prefix "." f); reflexivity.
Qed.

Lemma earlier_archiveEntries (sourceDir : Path) (listing : list Node) :
  forallb wfNode listing = true ->
  Earlier.archiveEntries sourceDir listing
  = Some (map (fun e => mkArchiveEntry (relative e) (sourceDir ++ relative e)%list
                          (isDirectory e))
            (List.filter
               (fun e => negb (hidden e)
                         && negb (matchesGlob "node_modules/**" e))
               (explore [] listing))).
Proof.
  intros Hwf. unfold Earlier.archiveEntries, glob, Earlier.ignoreList.
  change (compile "**/*") with (Some [GlobStar; Star]).
  cbn [compileAll].
  change (compile "node_modules/**") with (Some [Literal "node_modules"; GlobStar]).
  change (compile ".git/**") with (Some [Literal ".git"; GlobStar]).
  f_equal. f_equal. apply filter_ext_in. intros e He.
  destruct (explore_valid listing e Hwf He) as [Hne Hvalid].
  unfold fileMatches, hidden, matchesGlob. cbn [matchers ignoreMatchers dot existsb].
  change (compile "node_modules/**") with (Some [Literal "node_modules"; GlobStar]).
  rewrite !fileOf_shape.
  rewrite (matchOne_visible _ (isDirectory e) Hne Hvalid).
  rewrite !(matchOne_directory _ _ (isDirectory e) Hne Hvalid).
  rewrite !orb_false_r.
  destruct (relative e) as [ | f rest ]; [ congruence | ].
  cbn [existsb].
  destruct (String.eqb_spec f ".git") as [-> | Hgit].
  - change (String.prefix "." ".git") with true. reflexivity.
  - cbn [andb orb]. rewrite orb_false_r. reflexivity.
Qed.

(** X13: the earlier revision of [createZipFile] archives the walked entries
    without a hidden segment that are not in the top-level [node_modules],
    so never a hidden file; and when the walk meets the archive file itself
    (which is being written into the walked directory, under a name that is
    not hidden) that file is put into the archive. *)
Theorem earlier_createZipFile_contents (env : Env) (sourceDir : Path)
    (zipFileName : string) (w : World) :
  forallb wfNode (listing env) = true ->
  archiveError env = None ->
  let outputPath := join sourceDir zipFileName in
  let kept :=
    List.filter
      (fun e => negb (hidden e) && negb (matchesGlob "node_modules/**" e))
      (explore [] (listing env)) in
  let archived :=
    map (fun e => mkArchiveEntry (relative e) (sourceDir ++ relative e)%list
                    (isDirectory e)) kept in
  disk (snd (Earlier.createZipFile env sourceDir outputPath w)) !! outputPath
  = Some (Zip (Some archived))
  /\ (In (mkEntry [zipFileName] false) (explore [] (listing env)) ->
      String.prefix "." zipFileName = false ->
      In (mkArchiveEntry [zipFileName] outputPath false) archived).
Proof.
  intros Hwf Harch outputPath kept archived. subst outputPath kept archived.
  unfold Earlier.createZipFile. rewrite Harch. cbn [fst snd print setDisk disk].
  split.
  - rewrite lookup_insert_eq. rewrite (earlier_archiveEntries sourceDir (listing env) Hwf).
    reflexivity.
  - intros Hin Hvisible. apply in_map_iff.
    exists (mkEntry [zipFileName] false). split; [ reflexivity | ].
    apply filter_In. split; [ exact Hin | ].
    destruct (explore_valid (listing env) _ Hwf Hin) as [Hne Hvalid].
    unfold hidden, matchesGlob.
    change (compile "node_modules/**") with (Some [Literal "node_modules"; GlobStar]).
    rewrite fileOf_shape.
    rewrite (matchOne_directory _ _ false Hne Hvalid).
    cbn [relative isDirectory existsb length Nat.eqb negb orb andb].
    rewrite Hvisible, andb_false_r. reflexivity.
Qed.

(** The archive of the sample project would hold itself. *)
Lemma earlier_createZipFile_contents_witness :
  In (mkArchiveEntry ["shop-1700000000000.zip"]
        (join (cwd envOk) "shop-1700000000000.zip") false)
    (map (fun e => mkArchiveEntry (relative e) (cwd envOk ++ relative e)%list
                     (isDirectory e))
       (List.filter
          (fun e => negb (hidden e) && negb (matchesGlob "node_modules/**" e))
          (explore [] (listing (withListing listingWithArchive envOk))))).
Proof.
  destruct (earlier_createZipFile_contents (withListing listingWithArchive envOk)
              (cwd envOk) "shop-1700000000000.zip" world0) as [_ H];
    [ reflexivity | reflexivity | ].
  apply H; [ vm_compute; auto | reflexivity ].
Defined.

(** * Regular expressions *)

Lemma append_nil_l (s : string) : "" +:+ s = s.
Proof. reflexivity. Qed.

Lemma append_cons (c : ascii) (a b : string) :
  String c a +:+ b = String c (a +:+ b).
Proof. reflexivity. Qed.

Lemma allChars_app p a b :
  allChars p (a +:+ b) = allChars p a && allChars p b.
Proof.
  induction a as [ | c a IH ]; [ reflexivity | ].
  change (allChars p (String c (a +:+ b)) = allChars p (String c a) && allChars p b).
  cbn [allChars]. rewrite IH. apply andb_assoc.
Qed.

(** The repetition inside [test]: after the first character of a
    [OneOrMore], any number of further ones, then the rest. *)
Lemma test_more a rest s :
  (fix more (s : string) : bool :=
     match s with
     | String c s' => (RegExp.atomMatches a c && more s') || RegExp.test rest s
     | EmptyString => RegExp.test rest s
     end) s = true
  <-> exists pre post,
        s = pre +:+ post /\ allChars (RegExp.atomMatches a) pre = true
        /\ RegExp.test rest post = true.
Proof.
  induction s as [ | c s IH ].
  - split.
    + intros H. exists "", "". repeat split. exact H.
    + intros (pre & post & Heq & _ & Ht).
      destruct pre; [ | discriminate ]. rewrite append_nil_l in Heq.
      subst post. exact Ht.
  - rewrite orb_true_iff, andb_true_iff, IH. split.
    + intros [[Hc (pre & post & -> & Hp & Ht)] | Ht].
      * exists (String c pre), post. repeat split; [ | exact Ht ].
        cbn [allChars]. rewrite Hc, Hp. reflexivity.
      * exists "", (String c s). repeat split. exact Ht.
    + intros (pre & post & Heq & Hp & Ht).
      destruct pre as [ | c' pre ].
      * rewrite append_nil_l in Heq. subst post. right. exact Ht.
      * change (String c s = String c' (pre +:+ post)) in Heq.
        injection Heq as <- ->. cbn [allChars] in Hp.
        apply andb_prop in Hp. destruct Hp as [Hc Hp].
        left. split; [ exact Hc | ]. exists pre, post. repeat split; assumption.
Qed.

Lemma test_OneOrMore a rest s :
  RegExp.test (RegExp.OneOrMore a :: rest) s = true
  <-> exists pre post,
        s = pre +:+ post /\ pre <> ""
        /\ allChars (RegExp.atomMatches a) pre = true
        /\ RegExp.test rest post = true.
Proof.
  destruct s as [ | c s ].
  - split; [ discriminate | ].
    intros (pre & post & Heq & Hne & _). destruct pre; [ congruence | discriminate ].
  - cbn [RegExp.test]. rewrite andb_true_iff, test_more. split.
    + intros [Hc (pre & post & -> & Hp & Ht)].
      exists (String c pre), post. repeat split; [ discriminate | | exact Ht ].
      cbn [allChars]. rewrite Hc, Hp. reflexivity.
    + intros (pre & post & Heq & Hne & Hp & Ht).
      destruct pre as [ | c' pre ]; [ congruence | ].
      change (String c s = String c' (pre +:+ post)) in Heq.
      injection Heq as <- ->. cbn [allChars] in Hp.
      apply andb_prop in Hp. destruct Hp as [Hc Hp].
      split; [ exact Hc | ]. exists pre, post. repeat split; assumption.
Qed.

Lemma test_Once_Char c rest s :
  RegExp.test (RegExp.Once (RegExp.Char c) :: rest) s = true
  <-> exists s', s = String c s' /\ RegExp.test rest s' = true.
Proof.
  destruct s as [ | c' s ].
  - split; [ discriminate | intros (s' & Heq & _); discriminate ].
  - cbn [RegExp.test RegExp.atomMatches]. rewrite andb_true_iff, Ascii.eqb_eq. split.
    + intros [-> Ht]. exists s. split; [ reflexivity | exact Ht ].
    + intros (s' & [= -> ->] & Ht). split; [ reflexivity | exact Ht ].
Qed.

Lemma test_end s : RegExp.test [] s = true <-> s = "".
Proof. destruct s; cbn; split; intros H; congruence. Qed.

Lemma atomMatches_addressChar c :
  RegExp.atomMatches (RegExp.NoSpaceNoneOf ["@"%char]) c = addressChar c.
Proof. unfold addressChar. cbn. rewrite orb_false_r. reflexivity. Qed.

Lemma allChars_ext p q s :
  (forall c, p c = q c) -> allChars p s = allChars q s.
Proof. intros H. induction s as [ | c s IH ]; cbn; [ | rewrite H, IH ]; reflexivity. Qed.

Lemma addressPart_iff s :
  addressPart s = true
  <-> s <> "" /\ allChars (RegExp.atomMatches (RegExp.NoSpaceNoneOf ["@"%char])) s = true.
Proof.
  unfold addressPart.
  rewrite (allChars_ext _ addressChar s atomMatches_addressChar).
  rewrite andb_true_iff, negb_true_iff, String.eqb_neq. reflexivity.
Qed.

(** X14: the email check accepts exactly the strings made of three non-empty
    parts free of white space and at signs, the first two joined by an at
    sign and the last two by a dot (the parts may hold dots themselves). *)
Theorem emailRegex_accepts (s : string) :
  RegExp.test AuthManager.emailRegex s = true
  <-> exists localPart domain ending,
        s = localPart +:+ "@" +:+ domain +:+ "." +:+ ending
        /\ addressPart localPart = true
        /\ addressPart domain = true
        /\ addressPart ending = true.
Proof.
  unfold AuthManager.emailRegex. rewrite test_OneOrMore. split.
  - intros (l & post & -> & Hl & Hla & Ht).
    apply test_Once_Char in Ht. destruct Ht as (s1 & -> & Ht).
    apply test_OneOrMore in Ht. destruct Ht as (d & post & -> & Hd & Hda & Ht).
    apply test_Once_Char in Ht. destruct Ht as (s2 & -> & Ht).
    apply test_OneOrMore in Ht. destruct Ht as (e & post & -> & He & Hea & Ht).
    apply test_end in Ht. subst post.
    exists l, d, e. rewrite !addressPart_iff.
    repeat split; try assumption.
    assert (Hnil : forall x, x +:+ "" = x).
    { induction x as [ | c x IH ]; [ reflexivity | ].
      change (String c (x +:+ "") = String c x). rewrite IH. reflexivity. }
    rewrite Hnil. reflexivity.
  - intros (l & d & e & -> & Hl & Hd & He).
    apply addressPart_iff in Hl, Hd, He.
    exists l, ("@" +:+ d +:+ "." +:+ e). repeat split; try tauto.
    apply test_Once_Char. exists (d +:+ "." +:+ e). split; [ reflexivity | ].
    apply test_OneOrMore. exists d, ("." +:+ e). repeat split; try tauto.
    apply test_Once_Char. exists e. split; [ reflexivity | ].
    apply test_OneOrMore. exists e, "". repeat split; try tauto.
    induction e as [ | c x IH ]; [ reflexivity | ].
    change (String c x = String c (x +:+ "")). f_equal.
    clear. induction x as [ | c x IH ]; [ reflexivity | ].
    change (String c x = String c (x +:+ "")). rewrite <- IH. reflexivity.
Qed.

(** * Prompts *)

(** Whatever a text prompt answers was typed and has passed its
    validator. *)
Lemma textPrompt_answer (v : string -> Validation) (keys : list Key)
    (value : string) :
  Prompt.appName (textPrompt v keys) = Some value ->
  v value = Accepted /\ In (Submit value) keys.
Proof.
  induction keys as [ | [x | ] rest IH ]; cbn; try discriminate.
  destruct (v x) eqn:Hv; cbn.
  - intros [= <-]. split; [ exact Hv | now left ].
  - intros H. destruct (IH H) as [H1 H2]. split; [ exact H1 | now right ].
Qed.

Lemma answersBoth_valid r :
  answersBoth r = true ->
  validCredentials (emailOf r) (passwordOf r)
  /\ In (Submit (emailOf r)) (AuthManager.emailKeys r)
  /\ In (Submit (passwordOf r)) (AuthManager.passwordKeys r).
Proof.
  unfold answersBoth, emailOf, passwordOf, validCredentials,
    AuthManager.unanswered, AuthManager.answer, noAppName.
  intros H. apply andb_prop in H. destruct H as [He Hp].
  destruct (Prompt.appName (textPrompt AuthManager.validateEmail _)) as [e | ] eqn:Hea;
    [ | discriminate ].
  destruct (Prompt.appName (textPrompt AuthManager.validatePassword _)) as [p | ] eqn:Hpa;
    [ | discriminate ].
  destruct (textPrompt_answer _ _ _ Hea) as [H1 H2].
  destruct (textPrompt_answer _ _ _ Hpa) as [H3 H4].
  cbn. tauto.
Qed.

Lemma outsideKept_refl s : outsideKept s s.
Proof. repeat split. Qed.

Lemma outsideKept_trans a b c :
  outsideKept a b -> outsideKept b c -> outsideKept a c.
Proof.
  unfold outsideKept. intros (H1 & H2 & H3 & H4) (H5 & H6 & H7 & H8).
  repeat split; congruence.
Qed.

Lemma promptCredentials_run r s :
  let run := AuthManager.promptCredentials r s in
  outsideKept s (snd run) /\ calls (snd run) = calls s
  /\ (forall l, said l s -> said l (snd run))
  /\ if answersBoth r then fst run = Returned (emailOf r, passwordOf r)
     else fst run = Exited 0 /\ said AuthManager.goodbye (snd run).
Proof.
  intros run. subst run.
  unfold AuthManager.promptCredentials, answersBoth, emailOf, passwordOf, said.
  unfold bindP, sayAll, say, liftApp, prints, print, exit, retP, outsideKept.
  cbn [fst snd world calls currentUser console disk uploads requests].
  destruct (AuthManager.unanswered (textPrompt AuthManager.validateEmail _));
    cbn [negb andb fst snd world calls currentUser console disk uploads requests].
  - repeat split; try reflexivity.
    + intros l Hl. rewrite !in_app_iff. tauto.
    + rewrite !in_app_iff. cbn [In]. tauto.
  - destruct (AuthManager.unanswered (textPrompt AuthManager.validatePassword _));
      cbn [negb andb fst snd world calls currentUser console disk uploads requests].
    + repeat split; try reflexivity.
      * intros l Hl. rewrite !in_app_iff. tauto.
      * rewrite !in_app_iff. cbn [In]. tauto.
    + repeat split; try reflexivity.
      intros l Hl. rewrite !in_app_iff. tauto.
Qed.

(** X15: [promptCredentials] returns only credentials that were typed and
    that both validators accept (an email of the accepted shape, a password
    of six characters at least); when a question is left unanswered it ends
    the process with status 0 after the goodbye line; it never throws and
    never calls the provider. *)
Theorem promptCredentials_validated (r : AuthManager.Round) (s : State) :
  let run := AuthManager.promptCredentials r s in
  calls (snd run) = calls s
  /\ match fst run with
     | Returned (email, password) =>
         validCredentials email password
         /\ In (Submit email) (AuthManager.emailKeys r)
         /\ In (Submit password) (AuthManager.passwordKeys r)
     | Thrown _ => False
     | Exited code => code = 0 /\ said AuthManager.goodbye (snd run)
     end.
Proof.
  intros run. subst run.
  destruct (promptCredentials_run r s) as (_ & Hc & _ & H).
  split; [ exact Hc | ].
  destruct (answersBoth r) eqn:Hb.
  - rewrite H. apply answersBoth_valid, Hb.
  - destruct H as [-> Hs]. split; [ reflexivity | exact Hs ].
Qed.

(** * One pass of [promptAuthentication] *)

Lemma actionIs_exit r :
  AuthManager.actionIs (option_map AuthManager.choiceValue (AuthManager.menu r)) "exit"
  = true
  <-> AuthManager.menu r = Some AuthManager.ExitChoice.
Proof. destruct (AuthManager.menu r) as [[ | | ] | ]; cbn; split; congruence. Qed.

Lemma said_say l l' s : said l s -> said l (snd (say l' s)).
Proof. unfold said, say, liftApp, print. cbn. rewrite in_app_iff. tauto. Qed.

Lemma said_now l s : said l (snd (say l s)).
Proof. unfold said, say, liftApp, print. cbn. rewrite in_app_iff. cbn. tauto. Qed.

Lemma say_run l s :
  fst (say l s) = Returned tt /\ outsideKept s (snd (say l s))
  /\ calls (snd (say l s)) = calls s.
Proof. unfold say, liftApp, print. cbn. repeat split. Qed.

(** The provider call of a pass. *)
Lemma sign_run r s :
  let run :=
    (if AuthManager.actionIs
          (option_map AuthManager.choiceValue (AuthManager.menu r)) "signin"
     then AuthManager.signIn r (emailOf r) (passwordOf r)
     else AuthManager.signUp r (emailOf r) (passwordOf r)) s in
  outsideKept s (snd run)
  /\ calls (snd run) = (calls s ++ [callOf r])%list
  /\ (forall l, said l s -> said l (snd run))
  /\ fst run = match answerOf r with
               | Credential user => Returned user
               | ProviderError code => Thrown (newError (getAuthErrorMessage code))
               end.
Proof.
  intros run. subst run. unfold callOf, answerOf.
  destruct (AuthManager.actionIs _ "signin");
    unfold AuthManager.signIn, AuthManager.signUp, Auth.signIn, Auth.signUp,
      bindP, say, liftApp, print, recordCall, retP, throwP, said;
    destruct (AuthManager.provider r (emailOf r) (passwordOf r));
    cbn; repeat split; intros; rewrite ?in_app_iff; tauto.
Qed.

(** What a pass does, by cases: the exit entry or a question left
    unanswered; credentials the provider accepts; credentials it turns
    down, with and without another try. *)
Lemma authenticate_cases r again s :
  let run := AuthManager.authenticate r again s in
  (exists s1,
     (AuthManager.menu r = Some AuthManager.ExitChoice \/ answersBoth r = false)
     /\ run = (Exited 0, s1)
     /\ outsideKept s s1 /\ calls s1 = calls s
     /\ said AuthManager.goodbye s1)
  \/ (exists s1 user,
        AuthManager.menu r <> Some AuthManager.ExitChoice
        /\ answersBoth r = true
        /\ answerOf r = Credential user
        /\ run = (Returned user, s1)
        /\ outsideKept s s1 /\ calls s1 = (calls s ++ [callOf r])%list)
  \/ (exists s1 code,
        AuthManager.menu r <> Some AuthManager.ExitChoice
        /\ answersBoth r = true
        /\ answerOf r = ProviderError code
        /\ outsideKept s s1 /\ calls s1 = (calls s ++ [callOf r])%list
        /\ said (Log (getAuthErrorMessage code)) s1
        /\ if AuthManager.confirmed (AuthManager.retry r)
           then run = again s1
           else exists s2,
                  run = (Exited 0, s2) /\ outsideKept s1 s2
                  /\ calls s2 = calls s1 /\ said AuthManager.goodbye s2
                  /\ (forall l, said l s1 -> said l s2)).
Proof.
  intros run. subst run.
  remember (AuthManager.authenticate r again s) as run eqn:Hrun.
  unfold AuthManager.authenticate in Hrun.
  unfold bindP at 1 in Hrun.
  destruct (say_run (Log "Authentication Required") s) as (Hr0 & Hk0 & Hc0).
  destruct (say (Log "Authentication Required") s) as [o0 s0]. cbn [fst snd] in *.
  subst o0. unfold bindP at 1 in Hrun.
  pose proof (actionIs_exit r) as Hexit.
  destruct (AuthManager.actionIs _ "exit").
  { left. unfold bindP in Hrun.
    destruct (say_run AuthManager.goodbye s0) as (Hr1 & Hk1 & Hc1).
    pose proof (said_now AuthManager.goodbye s0) as Hs1.
    destruct (say AuthManager.goodbye s0) as [o1 s1]. cbn [fst snd] in *. subst o1.
    exists s1. split; [ left; apply Hexit; reflexivity | ].
    split; [ exact Hrun | ].
    split; [ eapply outsideKept_trans; eassumption | ].
    split; [ congruence | exact Hs1 ]. }
  assert (Hmenu : AuthManager.menu r <> Some AuthManager.ExitChoice).
  { intros H. apply Hexit in H. discriminate. }
  clear Hexit. cbn [retP] in Hrun. unfold bindP at 1 in Hrun.
  destruct (promptCredentials_run r s0) as (Hk1 & Hc1 & _ & Hcred).
  destruct (AuthManager.promptCredentials r s0) as [out s1]. cbn [fst snd] in *.
  destruct (answersBoth r) eqn:Hboth.
  2:{ left. exists s1. destruct Hcred as [-> Hsaid].
      split; [ right; reflexivity | ]. split; [ exact Hrun | ].
      split; [ eapply outsideKept_trans; eassumption | ].
      split; [ congruence | exact Hsaid ]. }
  subst out. right. cbn [fst snd] in Hrun. unfold tryCatchP in Hrun.
  destruct (sign_run r s1) as (Hk2 & Hc2 & _ & Hout).
  cbv zeta in Hk2, Hc2, Hout.
  destruct ((if AuthManager.actionIs
                  (option_map AuthManager.choiceValue (AuthManager.menu r)) "signin"
             then AuthManager.signIn r (emailOf r) (passwordOf r)
             else AuthManager.signUp r (emailOf r) (passwordOf r)) s1) as [o2 s2].
  cbn [fst snd] in *. subst o2.
  assert (Hk : outsideKept s s2).
  { eapply outsideKept_trans; [ | exact Hk2 ].
    eapply outsideKept_trans; eassumption. }
  assert (Hc : calls s2 = (calls s ++ [callOf r])%list) by congruence.
  destruct (answerOf r) as [user | code] eqn:Hans.
  - left. exists s2, user. repeat split; try assumption; apply Hk.
  - right. unfold bindP at 1 in Hrun. cbn [message newError] in Hrun.
    destruct (say_run (Log (getAuthErrorMessage code)) s2) as (Hr3 & Hk3 & Hc3).
    pose proof (said_now (Log (getAuthErrorMessage code)) s2) as Hs3.
    destruct (say (Log (getAuthErrorMessage code)) s2) as [o3 s3].
    cbn [fst snd] in *. subst o3.
    exists s3, code.
    split; [ exact Hmenu | ]. split; [ reflexivity | ]. split; [ reflexivity | ].
    split; [ eapply outsideKept_trans; eassumption | ].
    split; [ congruence | ]. split; [ exact Hs3 | ].
    destruct (AuthManager.confirmed (AuthManager.retry r)); [ exact Hrun | ].
    unfold bindP in Hrun.
    destruct (say_run AuthManager.goodbye s3) as (Hr4 & Hk4 & Hc4).
    pose proof (said_now AuthManager.goodbye s3) as Hs4.
    pose proof (fun l => said_say l AuthManager.goodbye s3) as Hkeep.
    destruct (say AuthManager.goodbye s3) as [o4 s4]. cbn [fst snd] in *. subst o4.
    exists s4. repeat split; try assumption; apply Hk4.
Qed.

(** * [promptAuthentication] *)

(** Without input the recursive call is never reached: every prompt
    closes unanswered and the pass ends the process at the email
    question. *)
Lemma authenticate_silent (again again' : P AuthUser) (s : State) :
  AuthManager.authenticate AuthManager.silent again s
  = AuthManager.authenticate AuthManager.silent again' s
  /\ fst (AuthManager.authenticate AuthManager.silent again s) = Exited 0.
Proof. split; reflexivity. Qed.

(** The rounds that reach the provider are the first ones of the input;
    all of them but possibly the last are turned down and tried again. *)
Lemma promptAuthentication_rounds (rounds : list AuthManager.Round) :
  forall s,
    let run := AuthManager.promptAuthentication rounds s in
    outsideKept s (snd run)
    /\ exists made rest,
         rounds = (made ++ rest)%list
         /\ calls (snd run) = (calls s ++ map callOf made)%list
         /\ Forall reachesProvider made
         /\ match fst run with
            | Returned user =>
                exists before r,
                  made = (before ++ [r])%list /\ answerOf r = Credential user
                  /\ Forall rejected before
            | Thrown _ => False
            | Exited code =>
                code = 0 /\ said AuthManager.goodbye (snd run)
                /\ Forall rejected made
            end.
Proof.
  induction rounds as [ | r rounds IH ]; intros s run; subst run;
    cbn [AuthManager.promptAuthentication].
  - destruct (authenticate_cases AuthManager.silent (exit 0) s)
      as [(s1 & _ & -> & Hk & Hc & Hs) | [(s1 & u & _ & Hb & _) | (s1 & c & _ & Hb & _)]];
      try discriminate.
    cbn [fst snd]. split; [ exact Hk | ]. exists [], [].
    split; [ reflexivity | ].
    split; [ cbn [map]; rewrite app_nil_r; exact Hc | ].
    split; [ constructor | ].
    split; [ reflexivity | split; [ exact Hs | constructor ] ].
  - destruct (authenticate_cases r (AuthManager.promptAuthentication rounds) s)
      as [(s1 & _ & -> & Hk & Hc & Hs)
         | [(s1 & u & Hm & Hb & Ha & -> & Hk & Hc)
           | (s1 & c & Hm & Hb & Ha & Hk & Hc & _ & Hnext)]].
    + cbn [fst snd]. split; [ exact Hk | ]. exists [], (r :: rounds).
      split; [ reflexivity | ].
      split; [ cbn [map]; rewrite app_nil_r; exact Hc | ].
      split; [ constructor | ].
      split; [ reflexivity | split; [ exact Hs | constructor ] ].
    + cbn [fst snd]. split; [ exact Hk | ]. exists [r], rounds.
      repeat split; try assumption.
      * constructor; [ split; assumption | constructor ].
      * exists [], r. repeat split; [ exact Ha | constructor ].
    + assert (Hrej : rejected r) by (exists c; exact Ha).
      assert (Hreach : reachesProvider r) by (split; assumption).
      destruct (AuthManager.confirmed (AuthManager.retry r)).
      * rewrite Hnext. destruct (IH s1) as (Hk' & made & rest & -> & Hc' & Hf & Hout).
        split; [ eapply outsideKept_trans; eassumption | ].
        exists (r :: made), rest. split; [ reflexivity | ].
        split; [ rewrite Hc', Hc, <- app_assoc; reflexivity | ].
        split; [ constructor; assumption | ].
        destruct (fst (AuthManager.promptAuthentication (made ++ rest) s1))
          as [user | e | code]; [ | exact Hout | ].
        -- destruct Hout as (before & r' & -> & Ha' & Hb').
           exists (r :: before), r'. repeat split; try assumption.
           constructor; assumption.
        -- destruct Hout as (-> & Hs & Hall). repeat split; try assumption.
           constructor; assumption.
      * destruct Hnext as (s2 & -> & Hk2 & Hc2 & Hs2 & _). cbn [fst snd].
        split; [ eapply outsideKept_trans; eassumption | ].
        exists [r], rounds. split; [ reflexivity | ].
        split; [ rewrite Hc2, Hc; reflexivity | ].
        split; [ constructor; [ assumption | constructor ] | ].
        repeat split; try assumption. constructor; [ assumption | constructor ].
Qed.

Lemma reachesProvider_validCall r : reachesProvider r -> validCall (callOf r).
Proof.
  intros [_ Hb]. destruct (answersBoth_valid r Hb) as [Hv _].
  unfold callOf. destruct (AuthManager.actionIs _ _); exact Hv.
Qed.

(** How [promptAuthentication] ends. *)
Lemma promptAuthentication_ends (rounds : list AuthManager.Round)
    (s : State) :
  let run := AuthManager.promptAuthentication rounds s in
  outsideKept s (snd run)
  /\ match fst run with
     | Returned user =>
         exists r, In r rounds /\ reachesProvider r
                   /\ answerOf r = Credential user
     | Thrown _ => False
     | Exited code => code = 0 /\ said AuthManager.goodbye (snd run)
     end.
Proof.
  intros run. subst run.
  destruct (promptAuthentication_rounds rounds s)
    as (Hk & made & rest & -> & _ & Hreach & Hout).
  split; [ exact Hk | ].
  destruct (fst (AuthManager.promptAuthentication (made ++ rest) s))
    as [user | e | code]; [ | exact Hout | ].
  - destruct Hout as (before & r & -> & Ha & _). exists r.
    split; [ rewrite !in_app_iff; cbn; tauto | ].
    split; [ | exact Ha ].
    rewrite List.Forall_forall in Hreach. apply Hreach.
    rewrite in_app_iff. cbn. tauto.
  - destruct Hout as (-> & Hs & _). split; [ reflexivity | exact Hs ].
Qed.

(** X16: [promptAuthentication] never throws.  It returns the user of the
    credential the provider gave to its last call, all the rounds before
    that one having been turned down by the provider and tried again; or it
    has ended the process with status 0 after the goodbye line.  It leaves
    the disk, the object store, the backend and [currentUser] as they were.
    *)
Theorem promptAuthentication_outcome (rounds : list AuthManager.Round)
    (s : State) :
  let run := AuthManager.promptAuthentication rounds s in
  outsideKept s (snd run)
  /\ match fst run with
     | Returned user =>
         exists before r rest,
           rounds = (before ++ r :: rest)%list
           /\ Forall rejected before
           /\ reachesProvider r /\ answerOf r = Credential user
           /\ calls (snd run) = (calls s ++ map callOf before ++ [callOf r])%list
     | Thrown _ => False
     | Exited code => code = 0 /\ said AuthManager.goodbye (snd run)
     end.
Proof.
  intros run. subst run.
  destruct (promptAuthentication_rounds rounds s)
    as (Hk & made & rest & -> & Hc & Hreach & Hout).
  split; [ exact Hk | ].
  destruct (fst (AuthManager.promptAuthentication (made ++ rest) s))
    as [user | e | code]; [ | exact Hout | ].
  - destruct Hout as (before & r & -> & Ha & Hrej).
    exists before, r, rest.
    split; [ rewrite <- app_assoc; reflexivity | ]. split; [ exact Hrej | ].
    split; [ | split; [ exact Ha | ] ].
    + rewrite List.Forall_forall in Hreach. apply Hreach.
      rewrite in_app_iff. cbn. tauto.
    + rewrite Hc, map_app. reflexivity.
  - destruct Hout as (-> & Hs & _). split; [ reflexivity | exact Hs ].
Qed.

(** X17: the provider is called for the first rounds of the input only, once
    per round and in their order, never to sign out, and only with
    credentials that passed both validators. *)
Theorem provider_calls_validated (rounds : list AuthManager.Round) (s : State) :
  exists made rest,
    rounds = (made ++ rest)%list
    /\ calls (snd (AuthManager.promptAuthentication rounds s))
       = (calls s ++ map callOf made)%list
    /\ Forall validCall (map callOf made).
Proof.
  destruct (promptAuthentication_rounds rounds s)
    as (_ & made & rest & Heq & Hc & Hreach & _).
  exists made, rest. split; [ exact Heq | ]. split; [ exact Hc | ].
  rewrite List.Forall_forall in *. intros c Hin.
  apply in_map_iff in Hin. destruct Hin as (r & <- & Hr).
  apply reachesProvider_validCall, Hreach, Hr.
Qed.

Lemma first_call r rest s :
  reachesProvider r ->
  exists more,
    calls (snd (AuthManager.promptAuthentication (r :: rest) s))
    = (calls s ++ callOf r :: more)%list.
Proof.
  intros [Hm Hb]. cbn [AuthManager.promptAuthentication].
  destruct (authenticate_cases r (AuthManager.promptAuthentication rest) s)
    as [(s1 & [H | H] & _)
       | [(s1 & u & _ & _ & _ & -> & _ & Hc)
         | (s1 & c & _ & _ & _ & _ & Hc & _ & Hnext)]];
    try congruence.
  - exists []. exact Hc.
  - destruct (AuthManager.confirmed (AuthManager.retry r)).
    + rewrite Hnext.
      destruct (promptAuthentication_rounds rest s1) as (_ & made & _ & _ & Hc' & _).
      exists (map callOf made). rewrite Hc', Hc, <- app_assoc. reflexivity.
    + destruct Hnext as (s2 & -> & _ & Hc2 & _ & _). exists [].
      cbn [snd]. rewrite Hc2. exact Hc.
Qed.

(** X18: leaving the menu without a choice does not end the authentication:
    the credentials are asked for and, once both questions are answered, the
    provider is asked to create an account with them, as after the
    create-account entry. *)
Theorem aborted_menu_creates_account (r : AuthManager.Round)
    (rest : list AuthManager.Round) (s : State) :
  AuthManager.menu r = None \/ AuthManager.menu r = Some AuthManager.CreateAccountChoice ->
  answersBoth r = true ->
  exists more,
    calls (snd (AuthManager.promptAuthentication (r :: rest) s))
    = (calls s ++ SignUpCall (emailOf r) (passwordOf r) :: more)%list.
Proof.
  intros Hmenu Hb.
  assert (Hcall : callOf r = SignUpCall (emailOf r) (passwordOf r)).
  { unfold callOf. destruct Hmenu as [-> | ->]; reflexivity. }
  rewrite <- Hcall. apply first_call. split; [ | exact Hb ].
  destruct Hmenu as [-> | ->]; discriminate.
Qed.

(** The menu left with the escape key: an account is created. *)
Lemma aborted_menu_creates_account_witness :
  exists more,
    calls (snd (AuthManager.promptAuthentication [roundMenuAborted] state0))
    = SignUpCall "dev@example.com" "secret1" :: more.
Proof.
  apply (aborted_menu_creates_account roundMenuAborted [] state0).
  - left. reflexivity.
  - vm_compute. reflexivity.
Defined.

(** X19: with the exit entry of the menu, or with a question left
    unanswered, the process ends with status 0 after the goodbye line and
    the provider is not called, whatever input would follow. *)
Theorem no_credentials_no_call (r : AuthManager.Round)
    (rest : list AuthManager.Round) (s : State) :
  AuthManager.menu r = Some AuthManager.ExitChoice \/ answersBoth r = false ->
  let run := AuthManager.promptAuthentication (r :: rest) s in
  fst run = Exited 0 /\ calls (snd run) = calls s
  /\ said AuthManager.goodbye (snd run).
Proof.
  intros Hno run. subst run. cbn [AuthManager.promptAuthentication].
  destruct (authenticate_cases r (AuthManager.promptAuthentication rest) s)
    as [(s1 & _ & -> & _ & Hc & Hs)
       | [(s1 & u & Hm & Hb & _) | (s1 & c & Hm & Hb & _)]].
  - repeat split; assumption.
  - destruct Hno; congruence.
  - destruct Hno; congruence.
Qed.

(** The password question is aborted: the next round is never played. *)
Lemma no_credentials_no_call_witness :
  fst (AuthManager.promptAuthentication [roundNoPassword; roundAccepted] state0)
  = Exited 0
  /\ calls (snd (AuthManager.promptAuthentication [roundNoPassword; roundAccepted] state0))
     = [].
Proof.
  destruct (no_credentials_no_call roundNoPassword [roundAccepted] state0)
    as (H1 & H2 & _); [ right; vm_compute; reflexivity | ].
  split; [ exact H1 | exact H2 ].
Defined.

(** X20: when the provider turns the credentials of a round down, the
    message for its error code is shown; unless the question whether to try
    again is answered with yes (a no, or the question aborted) the process
    ends with status 0 after this one call. *)
Theorem rejected_without_retry (r : AuthManager.Round)
    (rest : list AuthManager.Round) (s : State) (code : string) :
  reachesProvider r ->
  answerOf r = ProviderError code ->
  AuthManager.retry r <> Some true ->
  let run := AuthManager.promptAuthentication (r :: rest) s in
  fst run = Exited 0
  /\ calls (snd run) = (calls s ++ [callOf r])%list
  /\ said (Log (getAuthErrorMessage code)) (snd run)
  /\ said AuthManager.goodbye (snd run).
Proof.
  intros [Hm Hb] Ha Hretry run. subst run. cbn [AuthManager.promptAuthentication].
  assert (Hconf : AuthManager.confirmed (AuthManager.retry r) = false).
  { destruct (AuthManager.retry r) as [[ | ] | ]; [ congruence | | ]; reflexivity. }
  destruct (authenticate_cases r (AuthManager.promptAuthentication rest) s)
    as [(s1 & [H | H] & _)
       | [(s1 & u & _ & _ & Ha' & _)
         | (s1 & c & _ & _ & Ha' & _ & Hc & Hs & Hnext)]];
    try congruence.
  rewrite Hconf in Hnext. destruct Hnext as (s2 & -> & _ & Hc2 & Hs2 & Hkeep).
  assert (c = code) by congruence. subst c. cbn [fst snd].
  split; [ reflexivity | ]. split; [ congruence | ].
  split; [ apply Hkeep, Hs | exact Hs2 ].
Qed.

(** A wrong password, not tried again. *)
Lemma rejected_without_retry_witness :
  fst (AuthManager.promptAuthentication [roundRejected; roundAccepted] state0)
  = Exited 0
  /\ said (Log "Incorrect password.")
       (snd (AuthManager.promptAuthentication [roundRejected; roundAccepted] state0)).
Proof.
  destruct (rejected_without_retry roundRejected [roundAccepted] state0
              "auth/wrong-password")
    as (H1 & _ & H2 & _).
  - split; [ discriminate | vm_compute; reflexivity ].
  - reflexivity.
  - discriminate.
  - split; [ exact H1 | exact H2 ].
Defined.

(** * The commands of src/index.ts *)

Lemma outsideKept_worldKept s s' : outsideKept s s' -> worldKept s s'.
Proof. intros (H1 & H2 & H3 & _). repeat split; assumption. Qed.

Lemma worldKept_trans a b c : worldKept a b -> worldKept b c -> worldKept a c.
Proof.
  unfold worldKept. intros (H1 & H2 & H3) (H4 & H5 & H6). repeat split; congruence.
Qed.

Lemma requireAuth_cases env s :
  let run := requireAuth env s in
  worldKept s (snd run)
  /\ match fst run with
     | Returned user =>
         authenticatedAs env user /\ currentUser (snd run) = Some user
         /\ (AuthManager.authState env = Some user -> calls (snd run) = calls s)
     | Thrown _ => False
     | Exited code =>
         code = 0 /\ AuthManager.authState env = None
         /\ currentUser (snd run) = None
     end.
Proof.
  intros run. subst run. unfold authenticatedAs, worldKept.
  destruct (requireAuth env s) as [o s'] eqn:Hrun. cbn [fst snd].
  unfold requireAuth in Hrun.
  unfold bindP at 1 in Hrun. cbn [say liftApp print fst snd] in Hrun.
  unfold bindP at 1 in Hrun. unfold AuthManager.getCurrentUser at 1 in Hrun.
  cbn [retP] in Hrun.
  unfold bindP at 1 in Hrun. cbn [setCurrentUser] in Hrun.
  destruct (AuthManager.authState env) as [current | ].
  - unfold bindP, say, liftApp, print, retP in Hrun. cbn in Hrun.
    injection Hrun as <- <-. cbn.
    split; [ repeat split | ]. split; [ now left | ]. split; reflexivity.
  - unfold bindP at 1 in Hrun.
    cbn [say liftApp print fst snd world calls currentUser] in Hrun.
    unfold bindP at 1 in Hrun.
    match type of Hrun with context [AuthManager.promptAuthentication ?rs ?s0] =>
      destruct (promptAuthentication_ends rs s0) as [Hk Hout];
      destruct (AuthManager.promptAuthentication rs s0) as [[user | e | code] s1]
    end; cbn [fst snd] in *.
    + unfold bindP, setCurrentUser, say, liftApp, print, retP in Hrun. cbn in Hrun.
      injection Hrun as <- <-.
      destruct Hk as (K1 & K2 & K3 & K4). cbn in K1, K2, K3. cbn.
      split; [ repeat split; assumption | ].
      split; [ right; split; [ reflexivity | exact Hout ] | ].
      split; [ reflexivity | discriminate ].
    + contradiction.
    + injection Hrun as <- <-.
      destruct Hk as (K1 & K2 & K3 & K4). cbn in K1, K2, K3, K4.
      split; [ repeat split; assumption | ].
      destruct Hout as [-> _]. repeat split. exact K4.
Qed.

(** X21: [requireAuth] with a session that is already there returns the user
    of that session and remembers it in [currentUser]; no prompt is shown
    and the provider is not called, whatever is typed; two lines are
    written. *)
Theorem requireAuth_signed_in (env : AuthManager.Env) (s : State)
    (user : AuthUser) :
  AuthManager.authState env = Some user ->
  let run := requireAuth env s in
  fst run = Returned user
  /\ currentUser (snd run) = Some user
  /\ calls (snd run) = calls s
  /\ console (world (snd run))
     = (console (world s)
          ++ [Log "Welcome to Anomaly CLI!";
              Log ("Welcome back, " +:+ emailText user +:+ "!")])%list.
Proof.
  intros Hstate run. subst run. unfold requireAuth.
  unfold bindP, AuthManager.getCurrentUser, say, liftApp, print, retP, setCurrentUser.
  rewrite Hstate. cbn. rewrite <- app_assoc. repeat split.
Qed.

(** With a session, the rounds are not played. *)
Lemma requireAuth_signed_in_witness :
  fst (requireAuth (AuthManager.mkEnv (Some user0) [roundRejected] None) state0)
  = Returned user0
  /\ calls (snd (requireAuth (AuthManager.mkEnv (Some user0) [roundRejected] None)
                   state0)) = [].
Proof.
  destruct (requireAuth_signed_in
              (AuthManager.mkEnv (Some user0) [roundRejected] None) state0 user0)
    as (H1 & _ & H2 & _); [ reflexivity | ].
  split; [ exact H1 | exact H2 ].
Defined.

(** X22: [anomaly auth login]: its [catch] is never entered, since
    [promptAuthentication] does not throw; the command returns with
    [currentUser] set to a user the provider accepted in one of the rounds,
    or the process has ended with status 0 and [currentUser] is as before.
    *)
Theorem authLogin_outcome (env : AuthManager.Env) (s : State) :
  let run := authLogin env s in
  run = loginBody env s
  /\ match fst run with
     | Returned _ =>
         exists user r, currentUser (snd run) = Some user
                        /\ In r (AuthManager.rounds env)
                        /\ reachesProvider r
                        /\ answerOf r = Credential user
     | Thrown _ => False
     | Exited code => code = 0 /\ currentUser (snd run) = currentUser s
     end.
Proof.
  intros run. subst run.
  destruct (promptAuthentication_ends (AuthManager.rounds env) s) as [Hk Hout].
  assert (Hbody : match fst (loginBody env s) with
                  | Returned _ =>
                      exists user r, currentUser (snd (loginBody env s)) = Some user
                                     /\ In r (AuthManager.rounds env)
                                     /\ reachesProvider r
                                     /\ answerOf r = Credential user
                  | Thrown _ => False
                  | Exited code =>
                      code = 0 /\ currentUser (snd (loginBody env s)) = currentUser s
                  end).
  { destruct (loginBody env s) as [o s'] eqn:Hrun. cbn [fst snd].
    unfold loginBody in Hrun. unfold bindP at 1 in Hrun.
    destruct (AuthManager.promptAuthentication (AuthManager.rounds env) s)
      as [[user | e | code] s1]; cbn [fst snd] in *.
    - unfold bindP, setCurrentUser, say, liftApp, print in Hrun. cbn in Hrun.
      injection Hrun as <- <-. cbn.
      destruct Hout as (r & H1 & H2 & H3). exists user, r.
      repeat split; solve [ assumption | reflexivity | apply H2 ].
    - contradiction.
    - injection Hrun as <- <-.
      destruct Hout as [-> _]. split; [ reflexivity | apply Hk ]. }
  assert (Heq : authLogin env s = loginBody env s).
  { unfold authLogin, tryCatchP. fold (loginBody env).
    destruct (loginBody env s) as [[[] | e | code] s1]; cbn [fst] in Hbody;
      [ reflexivity | contradiction | reflexivity ]. }
  rewrite Heq. split; [ reflexivity | exact Hbody ].
Qed.

(** X23: [anomaly auth logout] always returns and calls the provider's
    sign-out once; when that fails the error is reported on the console and
    [currentUser] stays as it was; only a sign-out that succeeded clears it.
    *)
Theorem authLogout_outcome (env : AuthManager.Env) (s : State) :
  let run := authLogout env s in
  fst run = Returned tt
  /\ calls (snd run) = (calls s ++ [SignOutCall])%list
  /\ worldKept s (snd run)
  /\ match AuthManager.signOutError env with
     | None =>
         currentUser (snd run) = None
         /\ said (Log "You have been signed out successfully!") (snd run)
     | Some error =>
         currentUser (snd run) = currentUser s
         /\ said (Log ("Error signing out: " +:+ message error)) (snd run)
     end.
Proof.
  intros run. subst run.
  unfold authLogout, AuthManager.signOut, tryCatchP, bindP, say, liftApp, print,
    recordCall, setCurrentUser, throwP, said, worldKept.
  destruct (AuthManager.signOutError env) as [error | ]; cbn;
    repeat split; rewrite ?in_app_iff; cbn; tauto.
Qed.

(** [anomaly init] is [requireAuth] followed by the create-app workflow
    of the user it returns. *)
Lemma initCommand_cases env app s :
  let result := run (initCommand env app) s in
  (fst result = 0 /\ worldKept s (snd result)
   /\ AuthManager.authState env = None /\ currentUser (snd result) = None)
  \/ exists user s1,
       authenticatedAs env user
       /\ requireAuth env s = (Returned user, s1)
       /\ worldKept s s1
       /\ currentUser (snd result) = Some user
       /\ fst result = fst (init app user (world s1))
       /\ worldKept
            (mkState (snd (init app user (world s1))) (calls s1) (currentUser s1))
            (snd result).
Proof.
  intros result. subst result.
  destruct (run (initCommand env app) s) as [code s'] eqn:Hrun. cbn [fst snd].
  unfold run, initCommand in Hrun. unfold bindP at 1 in Hrun.
  destruct (requireAuth_cases env s) as [Hk Hout].
  destruct (requireAuth env s) as [[user | e | c] s1]; cbn [fst snd] in *.
  - right. exists user, s1. destruct Hout as (Hauth & Hcur & _).
    split; [ exact Hauth | ]. split; [ reflexivity | ]. split; [ exact Hk | ].
    unfold liftApp, init in *.
    destruct (createApp app user (world s1)) as [[[] | e] w2]; cbn [fst snd exitStatus].
    + injection Hrun as <- <-. cbn. repeat split. exact Hcur.
    + destruct (String.eqb (name e) "ExitPromptError");
        injection Hrun as <- <-; unfold say, liftApp, print; cbn;
        repeat split; exact Hcur.
  - contradiction.
  - left. injection Hrun as <- <-. destruct Hout as (-> & Hs & Hc).
    repeat split; try assumption; apply Hk.
Qed.

(** X24: the exit status of [anomaly init] is that of the create-app
    workflow run for the user the process is authenticated as, on a world
    whose disk, object store and backend the authentication has left alone;
    or it is 0, when the authentication ended the process first, and then
    nothing has been written, uploaded or sent. *)
Theorem initCommand_exit_status (env : AuthManager.Env) (app : CreateApp.Env)
    (s : State) :
  let result := run (initCommand env app) s in
  (fst result = 0 /\ worldKept s (snd result))
  \/ exists user w1,
       authenticatedAs env user
       /\ disk w1 = disk (world s) /\ uploads w1 = uploads (world s)
       /\ requests w1 = requests (world s)
       /\ fst result = fst (init app user w1)
       /\ disk (world (snd result)) = disk (snd (init app user w1))
       /\ uploads (world (snd result)) = uploads (snd (init app user w1))
       /\ requests (world (snd result)) = requests (snd (init app user w1)).
Proof.
  intros result. subst result.
  destruct (initCommand_cases env app s)
    as [(H1 & H2 & _) | (user & s1 & Ha & _ & (K1 & K2 & K3) & _ & Hc & (K4 & K5 & K6))].
  - left. split; assumption.
  - right. exists user, (world s1). cbn [world] in K4, K5, K6.
    repeat split; assumption.
Qed.

Lemma init_snd app user w : snd (init app user w) = snd (createApp app user w).
Proof. unfold init. destruct (createApp app user w). reflexivity. Qed.

(** X25: [anomaly init] uploads at most one archive, under the identifier of
    the user the process is authenticated as (the user of the session, or
    one the provider accepted), and sends at most one request, with that
    user's token. *)
Theorem initCommand_acts_for_authenticated_user (env : AuthManager.Env)
    (app : CreateApp.Env) (s : State) :
  let s' := snd (run (initCommand env app) s) in
  (uploads (world s') = uploads (world s)
   /\ requests (world s') = requests (world s))
  \/ exists user,
       authenticatedAs env user
       /\ currentUser s' = Some user
       /\ uploads (world s')
          = (uploads (world s)
               ++ [storedAs user (zipFileNameOf app) (archiveOf app)])%list
       /\ (requests (world s') = requests (world s)
           \/ exists token,
                idToken user = Ok token
                /\ requests (world s')
                   = (requests (world s)
                        ++ [publishRequest app token (zipFileNameOf app)
                              (chosenName app)])%list).
Proof.
  intros s'. subst s'.
  destruct (initCommand_cases env app s)
    as [(_ & (_ & H2 & H3) & _)
       | (user & s1 & Ha & _ & (K1 & K2 & K3) & Hcur & _ & (K4 & K5 & K6))].
  - left. split; assumption.
  - cbn [world] in K4, K5, K6. rewrite init_snd in K5, K6.
    rewrite K5, K6, <- K2, <- K3.
    destruct (createApp_remote app user (world s1))
      as [[H1 H2] | [(_ & _ & H1 & H2) | (token & _ & _ & Ht & _ & _ & H1 & H2)]].
    + left. split; assumption.
    + right. exists user. repeat split; try assumption. now left.
    + right. exists user. repeat split; try assumption.
      right. exists token. split; assumption.
Qed.

(** * File sizes *)

Lemma inject_Z_nonzero (d : Z) : 0 < d -> ~ (inject_Z d == 0)%Q.
Proof. intros Hd E. unfold Qeq in E. cbn in E. lia. Qed.

Lemma inject_Z_positive (d : Z) : 0 < d -> (0 < inject_Z d)%Q.
Proof. intros Hd. unfold Qlt. cbn. lia. Qed.

Lemma Qle_bool_scaled (b d : Z) (q : Q) :
  0 < d -> (q == inject_Z b / inject_Z d)%Q ->
  Qle_bool (inject_Z 1024) q = (1024 * d <=? b).
Proof.
  intros Hd Hq. apply eq_true_iff_eq. rewrite Qle_bool_iff, Z.leb_le, Hq.
  split.
  - intros H. apply (Qmult_le_r _ _ (inject_Z d)) in H;
      [ | apply inject_Z_positive, Hd ].
    unfold Qdiv in H. rewrite <- Qmult_assoc, (Qmult_comm (/ _)), Qmult_inv_r,
      Qmult_1_r in H.
    + rewrite <- inject_Z_mult, <- Zle_Qle in H. exact H.
    + apply inject_Z_nonzero, Hd.
  - intros H. apply (Qmult_le_r _ _ (inject_Z d));
      [ apply inject_Z_positive, Hd | ].
    unfold Qdiv. rewrite <- Qmult_assoc, (Qmult_comm (/ _)), Qmult_inv_r, Qmult_1_r.
    + rewrite <- inject_Z_mult, <- Zle_Qle. exact H.
    + apply inject_Z_nonzero, Hd.
Qed.

Lemma scaled_again (b d : Z) (q : Q) :
  0 < d -> (q == inject_Z b / inject_Z d)%Q ->
  (q / inject_Z 1024 == inject_Z b / inject_Z (d * 1024))%Q.
Proof.
  intros Hd Hq. rewrite Hq, inject_Z_mult. field.
  apply inject_Z_nonzero, Hd.
Qed.

(** The loop divides by 1024 as often as [unitOf] says. *)
Lemma scale_unitOf (bytes : Z) :
  0 <= bytes ->
  exists size,
    Listing.scale 3 (inject_Z bytes) 0 = (size, unitOf bytes)
    /\ (size == inject_Z bytes / inject_Z (1024 ^ Z.of_nat (unitOf bytes)))%Q.
Proof.
  intros Hb. unfold unitOf. cbn [Listing.scale].
  assert (H0 : (inject_Z bytes == inject_Z bytes / inject_Z 1)%Q)
    by (unfold Qdiv; change (/ inject_Z 1)%Q with 1%Q; rewrite Qmult_1_r; reflexivity).
  rewrite (Qle_bool_scaled bytes 1 _ ltac:(lia) H0).
  destruct (Z.ltb_spec bytes 1024) as [H1 | H1].
  { rewrite (proj2 (Z.leb_gt _ _)) by lia. eexists. split; [ reflexivity | exact H0 ]. }
  rewrite (proj2 (Z.leb_le _ _)) by lia.
  pose proof (scaled_again bytes 1 _ ltac:(lia) H0) as H1'.
  rewrite (Qle_bool_scaled bytes (1 * 1024) _ ltac:(lia) H1').
  destruct (Z.ltb_spec bytes (1024 ^ 2)) as [H2 | H2].
  { rewrite (proj2 (Z.leb_gt _ _)) by lia. eexists. split; [ reflexivity | exact H1' ]. }
  rewrite (proj2 (Z.leb_le _ _)) by lia.
  pose proof (scaled_again bytes (1 * 1024) _ ltac:(lia) H1') as H2'.
  rewrite (Qle_bool_scaled bytes (1 * 1024 * 1024) _ ltac:(lia) H2').
  destruct (Z.ltb_spec bytes (1024 ^ 3)) as [H3 | H3].
  { rewrite (proj2 (Z.leb_gt _ _)) by lia. eexists. split; [ reflexivity | exact H2' ]. }
  rewrite (proj2 (Z.leb_le _ _)) by lia.
  pose proof (scaled_again bytes (1 * 1024 * 1024) _ ltac:(lia) H2') as H3'.
  eexists. split; [ reflexivity | exact H3' ].
Qed.

Lemma Qfloor_tenths (b d : Z) (q : Q) :
  0 < d -> (q == inject_Z b / inject_Z d)%Q ->
  Qfloor (q * inject_Z 10 + (1 # 2))%Q = (20 * b + d) / (2 * d).
Proof.
  intros Hd Hq.
  assert (E : (q * inject_Z 10 + (1 # 2) == Qmake (20 * b + d) (Z.to_pos (2 * d)))%Q).
  { rewrite Hq, (Qmake_Qdiv (20 * b + d)), Z2Pos.id by lia.
    rewrite inject_Z_plus, !inject_Z_mult.
    change (1 # 2)%Q with (/ inject_Z 2)%Q.
    field. apply inject_Z_nonzero, Hd. }
  rewrite (Qfloor_comp _ _ E). unfold Qfloor. rewrite Z2Pos.id by lia. reflexivity.
Qed.

Lemma formatFileSize_tenths (bytes : N) :
  Listing.formatFileSize bytes
  = oneDecimal (tenthsOf (Z.of_N bytes)) +:+ " "
      +:+ nth (unitOf (Z.of_N bytes)) Listing.units "undefined".
Proof.
  unfold Listing.formatFileSize. change (length Listing.units - 1)%nat with 3%nat.
  destruct (scale_unitOf (Z.of_N bytes) ltac:(lia)) as (size & -> & Hsize).
  unfold Listing.toFixed1, tenthsOf, oneDecimal. cbv zeta.
  assert (Hd : 0 < 1024 ^ Z.of_nat (unitOf (Z.of_N bytes)))
    by (apply Z.pow_pos_nonneg; lia).
  rewrite (Qfloor_tenths (Z.of_N bytes) _ size Hd Hsize).
  reflexivity.
Qed.

Lemma unitOf_cases (b : Z) :
  0 <= b ->
  (unitOf b = 0%nat /\ b < 1024)
  \/ (unitOf b = 1%nat /\ 1024 <= b < 1024 ^ 2)
  \/ (unitOf b = 2%nat /\ 1024 ^ 2 <= b < 1024 ^ 3)
  \/ (unitOf b = 3%nat /\ 1024 ^ 3 <= b).
Proof.
  intros Hb. unfold unitOf.
  destruct (Z.ltb_spec b 1024); [ left; lia | ].
  destruct (Z.ltb_spec b (1024 ^ 2)); [ right; left; lia | ].
  destruct (Z.ltb_spec b (1024 ^ 3)); [ right; right; left; lia | ].
  right; right; right. lia.
Qed.

Lemma tenths_nearest (b d : Z) :
  0 < d -> 0 <= b ->
  let t := (20 * b + d) / (2 * d) in
  2 * Z.abs (10 * b - t * d) <= d.
Proof.
  intros Hd Hb t. subst t.
  pose proof (Z.div_mod (20 * b + d) (2 * d) ltac:(lia)) as Hdm.
  pose proof (Z.mod_pos_bound (20 * b + d) (2 * d) ltac:(lia)) as Hm.
  set (t := (20 * b + d) / (2 * d)) in *.
  set (r := (20 * b + d) mod (2 * d)) in *.
  assert (E : 20 * b = 2 * (t * d) + r - d) by lia.
  lia.
Qed.

(** X26: for a size that is a safe integer, [formatFileSize] picks the unit
    by the powers of 1024 (B below 1024, KB below 1024^2, MB below 1024^3,
    GB for everything above), shows the size in that unit rounded to the
    nearest tenth (a half is rounded up), and a size below 1024 bytes
    exactly. *)
Theorem formatFileSize_value (bytes : N) :
  (bytes < 2 ^ 53)%N ->
  let b := Z.of_N bytes in
  let d := 1024 ^ Z.of_nat (unitOf b) in
  Listing.formatFileSize bytes
  = oneDecimal (tenthsOf b) +:+ " " +:+ nth (unitOf b) Listing.units "undefined"
  /\ ((b < 1024 /\ unitOf b = 0%nat)
      \/ (1024 <= b < 1024 ^ 2 /\ unitOf b = 1%nat)
      \/ (1024 ^ 2 <= b < 1024 ^ 3 /\ unitOf b = 2%nat)
      \/ (1024 ^ 3 <= b /\ unitOf b = 3%nat))
  /\ 2 * Z.abs (10 * b - tenthsOf b * d) <= d
  /\ (b < 1024 -> tenthsOf b = 10 * b).
Proof.
  intros _ b d. subst b d.
  split; [ apply formatFileSize_tenths | ].
  split; [ destruct (unitOf_cases (Z.of_N bytes) ltac:(lia)) as [H | [H | [H | H]]]; tauto | ].
  split.
  - apply (tenths_nearest (Z.of_N bytes)); [ apply Z.pow_pos_nonneg; lia | lia ].
  - intros Hlt. unfold tenthsOf, unitOf.
    rewrite (proj2 (Z.ltb_lt _ _) Hlt). change (1024 ^ Z.of_nat 0) with 1.
    replace (20 * Z.of_N bytes + 1) with (1 + 10 * Z.of_N bytes * (2 * 1)) by lia.
    rewrite Z.div_add by lia. reflexivity.
Qed.

(** One and a half kibibytes. *)
Lemma formatFileSize_value_witness :
  Listing.formatFileSize 1536 = "1.5 KB".
Proof.
  assert (H : (1536 < 2 ^ 53)%N) by (vm_compute; reflexivity).
  exact (eq_trans (proj1 (formatFileSize_value 1536 H)) eq_refl).
Defined.

(** X27: just below the next unit the rounding reaches 1024.0: the last 51
    sizes below one mebibyte are shown as [1024.0 KB], not as [1.0 MB]. *)
Theorem formatFileSize_shows_1024 (bytes : N) :
  (1048525 <= bytes < 1048576)%N ->
  Listing.formatFileSize bytes = "1024.0 KB".
Proof.
  intros Hb. rewrite formatFileSize_tenths.
  assert (Hu : unitOf (Z.of_N bytes) = 1%nat).
  { unfold unitOf.
    rewrite (proj2 (Z.ltb_ge _ _)) by lia.
    rewrite (proj2 (Z.ltb_lt _ _)) by lia. reflexivity. }
  assert (Ht : tenthsOf (Z.of_N bytes) = 10240).
  { unfold tenthsOf. rewrite Hu. change (1024 ^ Z.of_nat 1) with 1024.
    symmetry. apply (Z.div_unique _ _ _ (20 * Z.of_N bytes + 1024 - 10240 * 2048)); lia. }
  rewrite Hu, Ht. vm_compute. reflexivity.
Qed.

(** One byte below a mebibyte. *)
Lemma formatFileSize_shows_1024_witness :
  Listing.formatFileSize 1048575 = "1024.0 KB".
Proof.
  apply (formatFileSize_shows_1024 1048575). split; vm_compute; [ discriminate | reflexivity ].
Defined.

(** * Directory listings *)

(** The order by code units is consistent. *)
Lemma byCodeUnits_consistent : Consistent byCodeUnits.
Proof.
  split; unfold byCodeUnits.
  - intros a b. rewrite (String.compare_antisym b a).
    destruct (String.compare a b); cbn; lia.
  - intros a b c.
    destruct (String.compare a b) eqn:Hab; try lia;
      destruct (String.compare b c) eqn:Hbc; try lia; intros _ _.
    + apply String.compare_eq_iff in Hab, Hbc. subst.
      assert (H : String.compare c c = Eq) by (apply String_as_OT.cmp_eq; reflexivity).
      rewrite H. lia.
    + apply String.compare_eq_iff in Hab. subst. rewrite Hbc. lia.
    + apply String.compare_eq_iff in Hbc. subst. rewrite Hab. lia.
    + apply String_as_OT.cmp_lt in Hab, Hbc.
      pose proof (String_as_OT.lt_trans _ _ _ Hab Hbc) as Hac.
      apply String_as_OT.cmp_lt in Hac.
      change (String_as_OT.cmp a c) with (String.compare a c) in Hac.
      rewrite Hac. lia.
Qed.

Lemma insert_Permutation compare x l :
  Permutation (Listing.insert compare x l) (x :: l).
Proof.
  induction l as [ | y rest IH ]; cbn [Listing.insert]; [ reflexivity | ].
  destruct (compare x y <? 0); [ reflexivity | ].
  rewrite IH. apply perm_swap.
Qed.

Lemma sort_Permutation compare l : Permutation (Listing.sort compare l) l.
Proof.
  unfold Listing.sort.
  assert (H : forall acc,
            Permutation (fold_left (fun sorted x => Listing.insert compare x sorted) l acc)
              (l ++ acc)).
  { induction l as [ | x l IH ]; intros acc; cbn [fold_left]; [ reflexivity | ].
    rewrite IH, insert_Permutation. cbn. symmetry. apply Permutation_middle. }
  rewrite H, app_nil_r. reflexivity.
Qed.

Lemma forallb_permuted {A} (p : A -> bool) l l' :
  Permutation l l' -> forallb p l = forallb p l'.
Proof.
  intros H. induction H as [ | x l l' _ IH | x y l | l l' l'' _ IH1 _ IH2 ]; cbn.
  - reflexivity.
  - rewrite IH. reflexivity.
  - destruct (p x), (p y); reflexivity.
  - congruence.
Qed.

Lemma insert_grouped env x l :
  grouped l = true ->
  grouped (Listing.insert (Listing.compareInfos env) x l) = true.
Proof.
  induction l as [ | y rest IH ]; cbn [Listing.insert grouped forallb].
  - intros _. rewrite orb_true_r. reflexivity.
  - intros H. apply andb_prop in H. destruct H as [Hy Hrest].
    unfold Listing.compareInfos at 1.
    destruct (Listing.isDirectory x) eqn:Hx, (Listing.isDirectory y) eqn:Hyd;
      cbn [andb negb orb] in *.
    + destruct (_ <? 0); cbn [grouped forallb]; rewrite ?Hx, ?Hyd; cbn [orb andb];
        rewrite ?Hrest, ?IH by assumption; reflexivity.
    + cbn [Z.ltb Z.compare grouped forallb]. rewrite Hx, Hyd. cbn. rewrite Hy, Hrest.
      reflexivity.
    + cbn [Z.ltb Z.compare grouped forallb]. rewrite Hyd. cbn.
      apply IH, Hrest.
    + destruct (_ <? 0); cbn [grouped forallb]; rewrite ?Hx, ?Hyd; cbn [orb andb negb].
      * rewrite Hy, Hrest. reflexivity.
      * rewrite (forallb_permuted _ _ _ (insert_Permutation _ x rest)).
        cbn [forallb]. rewrite Hx, Hy. cbn. apply IH, Hrest.
Qed.

Lemma sort_grouped env l :
  grouped (Listing.sort (Listing.compareInfos env) l) = true.
Proof.
  unfold Listing.sort.
  assert (H : forall acc, grouped acc = true ->
            grouped (fold_left
                       (fun sorted x => Listing.insert (Listing.compareInfos env) x sorted)
                       l acc) = true).
  { induction l as [ | x l IH ]; intros acc Hacc; cbn [fold_left]; [ exact Hacc | ].
    apply IH, insert_grouped, Hacc. }
  apply H. reflexivity.
Qed.

Lemma filter_forallb_all {A} (p : A -> bool) l :
  forallb p l = true -> List.filter p l = l.
Proof.
  induction l as [ | x l IH ]; cbn; [ reflexivity | ].
  intros H. apply andb_prop in H. destruct H as [-> H]. rewrite IH by exact H.
  reflexivity.
Qed.

Lemma filter_forallb_none {A} (p : A -> bool) l :
  forallb (fun x => negb (p x)) l = true -> List.filter p l = [].
Proof.
  induction l as [ | x l IH ]; cbn; [ reflexivity | ].
  intros H. apply andb_prop in H. destruct H as [Hx H].
  apply negb_true_iff in Hx. rewrite Hx. apply IH, H.
Qed.

Lemma grouped_split l :
  grouped l = true ->
  l = (List.filter (fun f => Listing.isDirectory f) l
         ++ List.filter (fun f => negb (Listing.isDirectory f)) l)%list.
Proof.
  induction l as [ | y rest IH ]; cbn [grouped List.filter]; [ reflexivity | ].
  intros H. apply andb_prop in H. destruct H as [Hy Hrest].
  destruct (Listing.isDirectory y) eqn:Hd; cbn [negb orb] in *.
  - cbn [app]. f_equal. apply IH, Hrest.
  - rewrite (filter_forallb_none (fun f => Listing.isDirectory f) rest Hy).
    rewrite (filter_forallb_all (fun f => negb (Listing.isDirectory f)) rest Hy).
    reflexivity.
Qed.

Lemma filter_holds {A} (p : A -> bool) l :
  Forall (fun x => p x = true) (List.filter p l).
Proof.
  apply List.Forall_forall. intros x Hx. apply filter_In in Hx. apply Hx.
Qed.

(** X28: the listing of a directory that can be read and is not empty
    returns normally and shows every entry once (an entry that cannot be
    examined included), the directories first; the counts of its last line
    are those of the lines shown and add up to the number of entries. *)
Theorem listDirectoryContents_rows (env : Listing.Env) (user : AuthUser)
    (items : list string) :
  Listing.readdir env = Ok items -> items <> [] ->
  exists folders others,
    Listing.listDirectoryContents env user
    = (Ok tt,
       (listingHeader env user
          ++ map Listing.display folders ++ map Listing.display others
          ++ [totalsLine (length items) (length folders) (length others)])%list)
    /\ Permutation (folders ++ others) (map (Listing.describe env) items)
    /\ Forall (fun f => Listing.isDirectory f = true) folders
    /\ Forall (fun f => Listing.isDirectory f = false) others
    /\ (length folders + length others = length items)%nat.
Proof.
  intros Hread Hne. unfold Listing.listDirectoryContents. rewrite Hread.
  destruct items as [ | item items ]; [ congruence | ].
  change (length (item :: items) =? 0)%nat with false. cbv iota zeta.
  set (infos := Listing.sort (Listing.compareInfos env)
                  (map (Listing.describe env) (item :: items))).
  pose proof (sort_Permutation (Listing.compareInfos env)
                (map (Listing.describe env) (item :: items))) as Hperm.
  pose proof (sort_grouped env (map (Listing.describe env) (item :: items))) as Hg.
  fold infos in Hperm, Hg.
  pose proof (grouped_split infos Hg) as Hsplit.
  exists (List.filter (fun f => Listing.isDirectory f) infos),
         (List.filter (fun f => negb (Listing.isDirectory f)) infos).
  assert (Hlen : length infos = length (item :: items)).
  { rewrite (Permutation_length Hperm), length_map. reflexivity. }
  split; [ | split; [ | split; [ | split ] ] ].
  - unfold listingHeader, totalsLine, Listing.totals, Listing.count.
    rewrite Hlen. cbn [app]. do 3 f_equal.
    rewrite (app_assoc (map Listing.display _)), <- map_app, <- Hsplit. reflexivity.
  - rewrite <- Hsplit. exact Hperm.
  - apply (filter_holds (fun f => Listing.isDirectory f)).
  - pose proof (filter_holds (fun f => negb (Listing.isDirectory f)) infos) as H.
    eapply List.Forall_impl; [ | exact H ]. intros f Hf. now apply negb_true_iff.
  - rewrite <- Hlen. rewrite Hsplit at 3. rewrite length_app. reflexivity.
Qed.

(** The sample directory. *)
Lemma listDirectoryContents_rows_witness :
  exists folders others,
    Listing.listDirectoryContents listingSample user0
    = (Ok tt,
       (listingHeader listingSample user0
          ++ map Listing.display folders ++ map Listing.display others
          ++ [totalsLine 4 (length folders) (length others)])%list)
    /\ Permutation (folders ++ others)
         (map (Listing.describe listingSample)
            ["index.ts"; "run.sock"; "src"; "README.md"])
    /\ Forall (fun f => Listing.isDirectory f = true) folders
    /\ Forall (fun f => Listing.isDirectory f = false) others
    /\ (length folders + length others = 4)%nat.
Proof.
  apply (listDirectoryContents_rows listingSample user0
           ["index.ts"; "run.sock"; "src"; "README.md"]).
  - reflexivity.
  - discriminate.
Defined.

Lemma compareInfos_total env :
  Consistent (Listing.localeCompare env) ->
  forall a b, 0 <= Listing.compareInfos env a b -> Listing.compareInfos env b a <= 0.
Proof.
  intros [Htot _] a b. unfold Listing.compareInfos.
  destruct (Listing.isDirectory a), (Listing.isDirectory b); cbn [andb negb];
    try lia; apply Htot.
Qed.

Lemma compareInfos_trans env :
  Consistent (Listing.localeCompare env) ->
  forall a b c,
    Listing.compareInfos env a b <= 0 -> Listing.compareInfos env b c <= 0 ->
    Listing.compareInfos env a c <= 0.
Proof.
  intros [_ Htr] a b c. unfold Listing.compareInfos.
  destruct (Listing.isDirectory a), (Listing.isDirectory b), (Listing.isDirectory c);
    cbn [andb negb]; try lia; apply Htr.
Qed.

Lemma insert_sorted env x l :
  Consistent (Listing.localeCompare env) ->
  StronglySorted (fun a b => Listing.compareInfos env a b <= 0) l ->
  StronglySorted (fun a b => Listing.compareInfos env a b <= 0)
    (Listing.insert (Listing.compareInfos env) x l).
Proof.
  intros Hc. induction l as [ | y rest IH ]; cbn [Listing.insert]; intros Hs.
  - constructor; constructor.
  - apply StronglySorted_inv in Hs. destruct Hs as [Hrest Hy].
    destruct (Z.ltb_spec (Listing.compareInfos env x y) 0) as [Hlt | Hge].
    + constructor; [ constructor; assumption | ].
      constructor; [ lia | ].
      eapply List.Forall_impl; [ | exact Hy ]. intros z Hz.
      apply (compareInfos_trans env Hc x y z); [ lia | exact Hz ].
    + constructor; [ apply IH, Hrest | ].
      apply List.Forall_forall. intros z Hz.
      apply (Permutation_in _ (insert_Permutation _ x rest)) in Hz.
      destruct Hz as [<- | Hz].
      * apply (compareInfos_total env Hc), Hge.
      * rewrite List.Forall_forall in Hy. apply Hy, Hz.
Qed.

Lemma sort_sorted env l :
  Consistent (Listing.localeCompare env) ->
  StronglySorted (fun a b => Listing.compareInfos env a b <= 0)
    (Listing.sort (Listing.compareInfos env) l).
Proof.
  intros Hc. unfold Listing.sort.
  assert (H : forall acc,
            StronglySorted (fun a b => Listing.compareInfos env a b <= 0) acc ->
            StronglySorted (fun a b => Listing.compareInfos env a b <= 0)
              (fold_left
                 (fun sorted x => Listing.insert (Listing.compareInfos env) x sorted)
                 l acc)).
  { induction l as [ | x l IH ]; intros acc Hacc; cbn [fold_left]; [ exact Hacc | ].
    apply IH, insert_sorted; assumption. }
  apply H. constructor.
Qed.

(** X29: when the comparison of names is consistent, the entries are shown
    in the order of the comparator (directories before the others, then by
    name): no entry is followed, anywhere further down, by one the
    comparator puts before it. *)
Theorem listDirectoryContents_sorted (env : Listing.Env) (user : AuthUser)
    (items : list string) :
  Consistent (Listing.localeCompare env) ->
  Listing.readdir env = Ok items -> items <> [] ->
  exists infos,
    snd (Listing.listDirectoryContents env user)
    = (listingHeader env user ++ map Listing.display infos
         ++ [Listing.Text (Listing.totals infos)])%list
    /\ Permutation infos (map (Listing.describe env) items)
    /\ StronglySorted (fun a b => Listing.compareInfos env a b <= 0) infos.
Proof.
  intros Hc Hread Hne. unfold Listing.listDirectoryContents. rewrite Hread.
  destruct items as [ | item items ]; [ congruence | ].
  change (length (item :: items) =? 0)%nat with false. cbv iota zeta.
  eexists. split; [ reflexivity | ].
  split; [ apply sort_Permutation | apply sort_sorted, Hc ].
Qed.

(** The sample directory, names compared by code units. *)
Lemma listDirectoryContents_sorted_witness :
  exists infos,
    snd (Listing.listDirectoryContents listingSample user0)
    = (listingHeader listingSample user0 ++ map Listing.display infos
         ++ [Listing.Text (Listing.totals infos)])%list
    /\ Permutation infos
         (map (Listing.describe listingSample)
            ["index.ts"; "run.sock"; "src"; "README.md"])
    /\ StronglySorted (fun a b => Listing.compareInfos listingSample a b <= 0) infos.
Proof.
  apply (listDirectoryContents_sorted listingSample user0
           ["index.ts"; "run.sock"; "src"; "README.md"]).
  - exact byCodeUnits_consistent.
  - reflexivity.
  - discriminate.
Defined.

(** X30: an entry that [fs.stat] refuses is listed all the same: as
    something that is not a directory, with neither size nor date. *)
Theorem unreadable_entry_listed (env : Listing.Env) (user : AuthUser)
    (items : list string) (item : string) (error : Error) :
  Listing.readdir env = Ok items -> In item items ->
  Listing.stat env item = Throw error ->
  In (Listing.Row false item "") (snd (Listing.listDirectoryContents env user)).
Proof.
  intros Hread Hin Hstat. unfold Listing.listDirectoryContents. rewrite Hread.
  destruct items as [ | first items ]; [ contradiction | ].
  change (length (first :: items) =? 0)%nat with false. cbv iota zeta.
  cbn [snd]. rewrite !in_app_iff. right. left.
  apply in_map_iff. exists (Listing.describe env item). split.
  - unfold Listing.describe. rewrite Hstat. reflexivity.
  - apply (Permutation_in _ (Permutation_sym (sort_Permutation _ _))).
    apply in_map. exact Hin.
Qed.

(** The socket of the sample directory. *)
Lemma unreadable_entry_listed_witness :
  In (Listing.Row false "run.sock" "")
    (snd (Listing.listDirectoryContents listingSample user0)).
Proof.
  apply (unreadable_entry_listed listingSample user0
           ["index.ts"; "run.sock"; "src"; "README.md"] "run.sock"
           (mkError "Error" "EACCES: permission denied")).
  - reflexivity.
  - vm_compute. auto.
  - reflexivity.
Defined.
